(** * homebridge-ch-ac: the UDP driver of a C&H / Gree air conditioner

    A shallow embedding of [app/encryptionService.js] and
    [app/deviceFactory.js], and the properties of the protocol state machine
    and of its encryption envelope proved over it.

    Modelling conventions.
    - A JavaScript string is a [string] holding its UTF-8 bytes, so the
      ['utf8'] conversions of [Buffer] and of the cipher streams are
      [list_byte_of_string] and [string_of_list_byte].
    - A JSON number is an integer ([Z]); the protocol only carries integers.
    - [undefined] is [None] in [jsval := option json].
    - The [device] object is used as a record, its [props] as a map from
      property key to value.
    - What Node provides (JSON, base64, the AES primitives of [crypto]) is the
      interface [Runtime]; the laws the proofs rely on are [RuntimeLaws], and
      [node_model] further down is an executable instance (JSON, base64,
      AES-128 in ECB and GCM mode).
    - A [Device] is modelled from the moment its socket is bound and the
      scan message has been sent: of [_connectToDevice], binding the socket
      and the retry after a failure are not part of the model. Of a log call
      only the format string is kept. *)

From Stdlib Require Import ZArith Lia Bool List Ascii String Btauto.
From Stdlib.Strings Require Import Byte.
From stdpp Require Import base option list gmap strings pretty.

Set Warnings "-register-all".

Open Scope Z_scope.
Open Scope string_scope.
Open Scope list_scope.

(** ** JavaScript values *)

Inductive json : Type :=
  | JNull : json
  | JBool : bool -> json
  | JNum : Z -> json
  | JStr : string -> json
  | JArr : list json -> json
  | JObj : list (string * json) -> json.

(** A JavaScript value: [None] is [undefined]. *)
Definition jsval : Type := option json.

Inductive error : Type :=
  | SyntaxError : error
  | TypeError : error
  | ReferenceError : string -> error
  | RangeError : error
  | CryptoError : string -> error.

(** A computation that returns or throws. *)
Inductive result (A : Type) : Type :=
  | Ok : A -> result A
  | Throw : error -> result A.
Arguments Ok {A} _.
Arguments Throw {A} _.

Definition rbind {A B : Type} (r : result A) (k : A -> result B) : result B :=
  match r with
  | Ok a => k a
  | Throw e => Throw e
  end.

Declare Scope js_scope.
Delimit Scope js_scope with js.
Notation "x <- e ;; k" := (rbind e (fun x => k))
  (at level 20, e at level 99, k at level 200, only parsing) : js_scope.

(** [v ? a : b], [if (v)], [v && ...]: ToBoolean. *)
Definition truthy (v : jsval) : bool :=
  match v with
  | None => false
  | Some JNull => false
  | Some (JBool b) => b
  | Some (JNum n) => negb (Z.eqb n 0)
  | Some (JStr s) => negb (String.eqb s "")
  | Some (JArr _) => true
  | Some (JObj _) => true
  end.

Fixpoint assoc (k : string) (fields : list (string * json)) : jsval :=
  match fields with
  | [] => None
  | (k', v) :: rest => if String.eqb k k' then Some v else assoc k rest
  end.

(** [o.k] for one of the field names the driver reads ([t], [tag], [pack],
    [cid], [name], [ver], [key], [cols], [dat], [opt], [val], [p]): none of
    them is a property of a primitive or of [Array.prototype], so only an
    object can hold it; reading it off [null] or [undefined] throws. *)
Definition get (o : jsval) (k : string) : result jsval :=
  match o with
  | None => Throw TypeError
  | Some JNull => Throw TypeError
  | Some (JObj fields) => Ok (assoc k fields)
  | Some _ => Ok None
  end.

(** [v === 'lit'] *)
Definition is_str (v : jsval) (lit : string) : bool :=
  match v with
  | Some (JStr s) => String.eqb s lit
  | _ => false
  end.

(** An object literal as [JSON.stringify] sees it: a field whose value is
    [undefined] is left out. *)
Definition object (fields : list (string * jsval)) : json :=
  JObj (omap (fun kv => match snd kv with Some v => Some (fst kv, v) | None => None end) fields).

(** ** What Node provides

    The driver calls [JSON], [Buffer] and [crypto]; none of them is code of
    the repository. They are taken as an interface.

    [cipher.update(s, 'utf8', 'base64') + cipher.final('base64')] is the
    base64 text of the whole ciphertext (Node keeps the bytes that do not fill
    a base64 group between the two calls), and likewise
    [decipher.update(p, 'base64', 'utf8') + decipher.final('utf8')] is the
    whole plaintext; so a cipher is modelled by the function from the whole
    input to the whole output. Creating a cipher with a key of the wrong
    length, and [final] on a bad padding or a bad tag, throw: the functions
    return a [result]. (Node checks the length of the key when the cipher is
    created, before it looks at the data; here that check is part of the
    call that processes the data, so when both the key and the data are
    unusable the exception reported may be the other one. No property below
    depends on which exception is thrown.) *)
Class Runtime : Type := {
  JSON_parse : string -> result json;
  JSON_stringify : json -> string;
  base64_encode : list byte -> string;
  base64_decode : string -> list byte;
  (** ['aes-128-ecb'], key then data *)
  aes_128_ecb_encrypt : list byte -> list byte -> result (list byte);
  aes_128_ecb_decrypt : list byte -> list byte -> result (list byte);
  (** ['aes-128-gcm'], key, iv, additional data, then data; encryption
      returns the ciphertext and [getAuthTag()], decryption takes the tag
      given to [setAuthTag] *)
  aes_128_gcm_encrypt :
    list byte -> list byte -> list byte -> list byte -> result (list byte * list byte);
  aes_128_gcm_decrypt :
    list byte -> list byte -> list byte -> list byte -> list byte -> result (list byte);
}.

(** The contracts of these functions that the round-trip properties use. *)
Class RuntimeLaws (R : Runtime) : Prop := {
  base64_decode_encode : forall b, base64_decode (base64_encode b) = b;
  aes_128_ecb_encrypt_ok : forall k m,
    length k = 16%nat -> exists c, aes_128_ecb_encrypt k m = Ok c;
  aes_128_ecb_decrypt_encrypt : forall k m c,
    aes_128_ecb_encrypt k m = Ok c -> aes_128_ecb_decrypt k c = Ok m;
  aes_128_gcm_encrypt_ok : forall k iv aad m,
    length k = 16%nat -> length iv = 12%nat ->
    exists c t, aes_128_gcm_encrypt k iv aad m = Ok (c, t) /\ length t = 16%nat;
  aes_128_gcm_decrypt_encrypt : forall k iv aad m c t,
    aes_128_gcm_encrypt k iv aad m = Ok (c, t) ->
    aes_128_gcm_decrypt k iv aad t c = Ok m;
  (** a tag of the full length that is not the tag of the ciphertext is
      refused *)
  aes_128_gcm_decrypt_forged : forall k iv aad m c t t',
    aes_128_gcm_encrypt k iv aad m = Ok (c, t) ->
    length t' = 16%nat -> t' <> t ->
    exists e, aes_128_gcm_decrypt k iv aad t' c = Throw e;
}.

(** The lengths of a tag that [setAuthTag] accepts on an ['aes-128-gcm']
    decipher that was created without [authTagLength]: 4, 8, and 12 to 16
    bytes. *)
Definition valid_tag_length (n : nat) : bool :=
  Nat.eqb n 4 || Nat.eqb n 8 || (Nat.leb 12 n && Nat.leb n 16).

(** How such a decipher checks the tag: it takes the length of the tag from
    the tag it is given, and compares that many bytes. So it accepts a tag
    exactly when the tag has one of these lengths and is the beginning, of
    that length, of the tag of the ciphertext. *)
Class AuthTagLaws (R : Runtime) : Prop := {
  aes_128_gcm_decrypt_accepted : forall k iv aad m c t t',
    aes_128_gcm_encrypt k iv aad m = Ok (c, t) ->
    valid_tag_length (length t') = true ->
    t' = firstn (length t') t ->
    aes_128_gcm_decrypt k iv aad t' c = Ok m;
  aes_128_gcm_decrypt_refused : forall k iv aad m c t t',
    aes_128_gcm_encrypt k iv aad m = Ok (c, t) ->
    valid_tag_length (length t') = false \/ t' <> firstn (length t') t ->
    exists e, aes_128_gcm_decrypt k iv aad t' c = Throw e;
}.

(** [Buffer.from(s)] and [buf.toString()] for a string, under ['utf8']. *)
Definition utf8_encode (s : string) : list byte := list_byte_of_string s.
Definition utf8_decode (b : list byte) : string := string_of_list_byte b.

(** A key or a ciphertext handed to [crypto], or a tag handed to
    [Buffer.from], is used when it is a string; JSON has no [Buffer], and
    Node rejects [null], a number or a boolean with a [TypeError]. (An array
    or an object as [tag], which [Buffer.from] would read as bytes, is
    outside the model: it is rejected like them.) *)
Definition string_arg (v : jsval) : result string :=
  match v with
  | Some (JStr s) => Ok s
  | _ => Throw TypeError
  end.

(** ** app/encryptionService.js *)

Module encryptionService.
Section encryptionService.
Context {R : Runtime}.
Open Scope js_scope.

Definition iv_v2 : list byte :=
  [x54; x40; x78; x44; x49; x67; x5a; x51; x6c; x5e; x63; x13]%byte.
Definition aad_v2 : list byte := utf8_encode "qualcomm-test".

(** The parameters of the exported factory, at their defaults
    ([deviceFactory.js] calls it without arguments). *)
Definition defaultKey : string := "a3K8Bx%2r8Y7#xDh".
Definition defaultKey_v2 : string := "{yxAHAY_Lm6pbC/<".

(** The identifiers that the bodies of the four functions can resolve:
    the two parameters of the factory. (The module-level [crypto], [iv_v2]
    and [aad_v2] are used directly above and below.) *)
Definition scope : list (string * json) :=
  [("defaultKey", JStr defaultKey); ("defaultKey_v2", JStr defaultKey_v2)].

(** Evaluating an identifier: a name that is bound nowhere raises a
    [ReferenceError] (the file is in strict mode and declares no global). *)
Definition ident (x : string) : result jsval :=
  match assoc x scope with
  | Some v => Ok (Some v)
  | None => Throw (ReferenceError x)
  end.

(** A parameter [key = dflt]: the default is evaluated when the argument is
    [undefined], on entry to the function. *)
Definition default_param (arg : jsval) (dflt : result jsval) : result jsval :=
  match arg with
  | Some _ => Ok arg
  | None => dflt
  end.

Definition decrypt (input : jsval) (key : jsval) : result json :=
  key <- default_param key (ident "defaultKey") ;;
  k <- string_arg key ;;
  pack <- get input "pack" ;;
  p <- string_arg pack ;;
  str <- aes_128_ecb_decrypt (utf8_encode k) (base64_decode p) ;;
  JSON_parse (utf8_decode str).

Definition encrypt (output : json) (key : jsval) : result string :=
  key <- default_param key (ident "defaultKey") ;;
  k <- string_arg key ;;
  c <- aes_128_ecb_encrypt (utf8_encode k) (utf8_encode (JSON_stringify output)) ;;
  Ok (base64_encode c).

Definition decrypt_v2 (input : jsval) (tag : jsval) (key : jsval) : result json :=
  key <- default_param key (ident "genericKey_v2") ;;
  t <- string_arg tag ;;
  let tagbuffer := base64_decode t in
  k <- string_arg key ;;
  pack <- get input "pack" ;;
  p <- string_arg pack ;;
  str <- aes_128_gcm_decrypt (utf8_encode k) iv_v2 aad_v2 tagbuffer (base64_decode p) ;;
  JSON_parse (utf8_decode str).

Definition encrypt_v2 (output : json) (key : jsval) : result (string * string) :=
  key <- default_param key (ident "genericKey_v2") ;;
  let str := JSON_stringify output in
  k <- string_arg key ;;
  ct <- aes_128_gcm_encrypt (utf8_encode k) iv_v2 aad_v2 (utf8_encode str) ;;
  let pack := base64_encode (fst ct) in
  let tag := base64_encode (snd ct) in
  Ok (pack, tag).

End encryptionService.
End encryptionService.

(** ** app/deviceFactory.js: the state of a [Device] *)

(** [this.device]. [id] and [name] come from the handshake and [key] from the
    bind acknowledgement, as whatever JSON value the peer sent. *)
Module device.
Record t : Type := mk {
  id : jsval;
  name : jsval;
  address : option string;
  port : option Z;
  bound : bool;
  props : gmap string jsval;
  key : jsval;
  encryptionV2 : bool;
}.
End device.

(** The [rinfo] of a received datagram. *)
Module rinfo.
Record t : Type := mk { address : string; port : Z }.
End rinfo.

(** [this.options], without the callbacks (their calls are recorded in
    [called]) and without the local port. *)
Record options : Type := mk_options {
  host : string;
  updateInterval : Z;
}.

(** A call of one of the callbacks of [this.options], with the device as the
    callback sees it at that moment. *)
Inductive callback : Type :=
  | onStatus : device.t -> callback
  | onUpdate : device.t -> callback
  | onConnected : device.t -> callback
  | onError : device.t -> callback
  | onDisconnected : device.t -> callback.

(** A call of [this.socket.send]. *)
Record datagram : Type := mk_datagram {
  payload : string;
  to_port : Z;
  to_address : option string;
}.

(** A [Device] and what it did so far: the datagrams it sent, the callbacks
    it called, the timers it started with [setInterval] (each runs
    [_requestDeviceStatus], the entry is the period in ms) and its log. *)
Record Device : Type := mk_Device {
  this_options : options;
  this_device : device.t;
  sent : list datagram;
  called : list callback;
  intervals : list Z;
  logged : list string;
}.

Definition with_device (d : device.t) (s : Device) : Device :=
  mk_Device (this_options s) d (sent s) (called s) (intervals s) (logged s).
Definition with_sent (l : list datagram) (s : Device) : Device :=
  mk_Device (this_options s) (this_device s) l (called s) (intervals s) (logged s).
Definition with_called (l : list callback) (s : Device) : Device :=
  mk_Device (this_options s) (this_device s) (sent s) l (intervals s) (logged s).
Definition with_intervals (l : list Z) (s : Device) : Device :=
  mk_Device (this_options s) (this_device s) (sent s) (called s) l (logged s).
Definition with_logged (l : list string) (s : Device) : Device :=
  mk_Device (this_options s) (this_device s) (sent s) (called s) (intervals s) l.

(** A method of [Device]: it runs on the object, mutates it, and returns or
    throws. What was mutated before a throw stays mutated. *)
Definition M (A : Type) : Type := Device -> result A * Device.

Definition ret {A : Type} (a : A) : M A := fun s => (Ok a, s).
Definition bind {A B : Type} (m : M A) (k : A -> M B) : M B :=
  fun s => match m s with
           | (Ok a, s') => k a s'
           | (Throw e, s') => (Throw e, s')
           end.
Definition lift {A : Type} (r : result A) : M A := fun s => (r, s).
(** [try { m } catch (err) { h }] *)
Definition try_catch {A : Type} (m : M A) (h : error -> M A) : M A :=
  fun s => match m s with
           | (Ok a, s') => (Ok a, s')
           | (Throw e, s') => h e s'
           end.

Declare Scope method_scope.
Delimit Scope method_scope with method.
Notation "x <- e ;; k" := (bind e (fun x => k))
  (at level 20, e at level 99, k at level 200, only parsing) : method_scope.
Notation "e ;;; k" := (bind e (fun _ => k))
  (at level 99, k at level 200, right associativity, only parsing) : method_scope.

Definition get_device : M device.t := fun s => (Ok (this_device s), s).
Definition get_options : M options := fun s => (Ok (this_options s), s).
Definition modify_device (f : device.t -> device.t) : M unit :=
  fun s => (Ok tt, with_device (f (this_device s)) s).
Definition log (msg : string) : M unit :=
  fun s => (Ok tt, with_logged (logged s ++ [msg]) s).
Definition call (cb : device.t -> callback) : M unit :=
  fun s => (Ok tt, with_called (called s ++ [cb (this_device s)]) s).
Definition setInterval (period : Z) : M unit :=
  fun s => (Ok tt, with_intervals (intervals s ++ [period]) s).
(** [socket.send(buf, 0, buf.length, port, address)]: a port that is not a
    number in 1..65535 (here: [undefined]) is refused with an exception. (The
    ports of the model are 7000 and the source ports of the datagrams
    received, which are in that range.) *)
Definition socket_send (buf : string) (port : option Z) (address : option string) : M unit :=
  fun s => match port with
           | Some p => (Ok tt, with_sent (sent s ++ [mk_datagram buf p address]) s)
           | None => (Throw RangeError, s)
           end.

(** ** What [require('./commandEnums')] provides

    The table of command codes is not part of the driver; the driver reads
    the [code] of some of its entries, the list of all codes, and one named
    constant. *)
Record commandEnums : Type := mk_commandEnums {
  power_code : string;
  mode_code : string;
  temperatureUnit_code : string;
  temperatureUnit_value_celsius : json;
  temperature_code : string;
  fanSpeed_code : string;
  swingVert_code : string;
  TemSen_code : string;
  (** [Object.keys(cmd).map(key => cmd[key].code)] *)
  all_codes : list string;
}.

(** ** Values used as property keys and read by index *)

(** [String(v)], as [props[v]] converts its key. A primitive has its text
    (an integer its decimal digits, as JavaScript prints the integers below
    10^21). An array is joined with commas, [null] giving the empty string.
    An object is converted by its [toString], then its [valueOf]: the
    inherited ones give ["[object Object]"], but an object that JSON built
    with a [toString] of its own has a value there that cannot be called,
    [valueOf] (its own, or the inherited one, which returns the object) gives
    no primitive either, and the conversion throws a [TypeError]. *)
Fixpoint ToString (v : json) : result string :=
  match v with
  | JNull => Ok "null"
  | JBool true => Ok "true"
  | JBool false => Ok "false"
  | JNum n => Ok (pretty n)
  | JStr s => Ok s
  | JArr l =>
      (fix join (l : list json) : result string :=
         let item (e : json) :=
           match e with
           | JNull => Ok ""
           | _ => ToString e
           end in
         match l with
         | [] => Ok ""
         | [e] => item e
         | e :: rest =>
             (first <- item e ;; others <- join rest ;;
              Ok (first ++ "," ++ others)%string)%js
         end) l
  | JObj fields =>
      match assoc "toString" fields with
      | Some _ => Throw TypeError
      | None => Ok "[object Object]"
      end
  end.

(** [v[i]] for an index [i] of [forEach], when [v] is neither [null] nor
    [undefined]: an element of an array, a character of a string (of ASCII
    text: the strings of the model are made of bytes), a field of an
    object. *)
Definition elem (v : jsval) (i : nat) : jsval :=
  match v with
  | Some (JArr l) => l !! i
  | Some (JStr s) =>
      match String.get i s with
      | Some c => Some (JStr (String c ""))
      | None => None
      end
  | Some (JObj fields) => assoc (pretty i) fields
  | _ => None
  end.

(** [v[i]]: reading off [null] or [undefined] throws. *)
Definition index (v : jsval) (i : nat) : result jsval :=
  match v with
  | None => Throw TypeError
  | Some JNull => Throw TypeError
  | _ => Ok (elem v i)
  end.

(** [v.forEach(...)] needs an array: nothing else that JSON can hold has a
    callable [forEach]. *)
Definition array_arg (v : jsval) : result (list json) :=
  match v with
  | Some (JArr l) => Ok l
  | _ => Throw TypeError
  end.

(** [ver.startsWith('V2.')] for a truthy [ver]: only a string has the
    method. *)
Definition startsWith (v : jsval) (p : string) : result bool :=
  match v with
  | Some (JStr s) => Ok (String.prefix p s)
  | _ => Throw TypeError
  end.

(** The condition [ver && ver.startsWith('V2.')]. *)
Definition announces_v2 (ver : jsval) : result bool :=
  if truthy ver then startsWith ver "V2." else Ok false.

Fixpoint forEach {A : Type} (l : list A) (i : nat) (f : A -> nat -> M unit) : M unit :=
  match l with
  | [] => ret tt
  | x :: rest => bind (f x i) (fun _ => forEach rest (S i) f)
  end.

(** [this.device.encryptionV2 = b], [this.device.bound = b],
    [this.device.key = k] and [this.device.props[k] = v]. *)
Definition set_encryptionV2 (b : bool) (d : device.t) : device.t :=
  device.mk (device.id d) (device.name d) (device.address d) (device.port d)
    (device.bound d) (device.props d) (device.key d) b.
Definition set_bound (b : bool) (d : device.t) : device.t :=
  device.mk (device.id d) (device.name d) (device.address d) (device.port d)
    b (device.props d) (device.key d) (device.encryptionV2 d).
Definition set_key (k : jsval) (d : device.t) : device.t :=
  device.mk (device.id d) (device.name d) (device.address d) (device.port d)
    (device.bound d) (device.props d) k (device.encryptionV2 d).
(** [props] is used as the map of the properties that were assigned. (The key
    [__proto__] is no property of a JavaScript object: assigning to it
    changes, or leaves, the prototype that every other key is looked up in.
    The map keeps it like any key; the properties about the assignments of a
    status or command response are stated for responses without it.) *)
Definition set_prop (k : string) (v : jsval) (d : device.t) : device.t :=
  device.mk (device.id d) (device.name d) (device.address d) (device.port d)
    (device.bound d) (<[k := v]> (device.props d)) (device.key d) (device.encryptionV2 d).
Definition set_props (m : gmap string jsval) (d : device.t) : device.t :=
  device.mk (device.id d) (device.name d) (device.address d) (device.port d)
    (device.bound d) m (device.key d) (device.encryptionV2 d).
(** [props[k]], for a key that was assigned or that no object has without
    it being assigned (the codes of the commands are such keys): a key that
    was not assigned reads as [undefined]. *)
Definition get_prop (d : device.t) (k : string) : jsval :=
  match device.props d !! k with
  | Some v => v
  | None => None
  end.

(** ** app/deviceFactory.js: the methods of [Device] *)

Section Device.
Context {R : Runtime} (cmd : commandEnums).
Import encryptionService.
Open Scope method_scope.

(** The scan message that the callback of [socket.bind] sends to port 7000
    of the host. *)
Definition scan (host : string) : datagram :=
  mk_datagram (JSON_stringify (JObj [("t", JStr "scan")])) 7000 (Some host).

(** The constructor, once the socket is bound and the callback of
    [socket.bind] has sent the scan message, which is before the first
    datagram can arrive. [updateInterval] falls back to 10000 ms when the
    option is missing or 0. *)
Definition new_Device (host : string) (updateInterval : option Z) : Device :=
  mk_Device
    (mk_options host
       (match updateInterval with
        | Some n => if Z.eqb n 0 then 10000 else n
        | None => 10000
        end))
    (device.mk None None None None false ∅ None false)
    [scan host] [] []
    ["Connecting new C&H AC device"; "host: %s"; "port: %s";
     "Sent scan message to identify devices"].

Definition _setDevice (id name : jsval) (address : string) (port : Z) : M unit :=
  modify_device (fun d =>
    device.mk id name (Some address) (Some port) false ∅
      (device.key d) (device.encryptionV2 d)) ;;;
  log "Device identified %s, %s, %s, %s".

(** The envelope of a request; [tag] is added when it is truthy. *)
Definition request (i : Z) (pack : string) (tag : jsval) : json :=
  object ([("cid", Some (JStr "app")); ("i", Some (JNum i)); ("t", Some (JStr "pack"));
           ("uid", Some (JNum 0)); ("pack", Some (JStr pack))]
          ++ (if truthy tag then [("tag", tag)] else [])).

Definition _sendBindRequest : M unit :=
  device <- get_device ;;
  let message :=
    object [("mac", device.id device); ("t", Some (JStr "bind")); ("uid", Some (JNum 0))] in
  encryptedBoundMessage <- lift (encrypt message None) ;;
  sealed <- (if device.encryptionV2 device
             then encrypted <- lift (encrypt_v2 message None) ;;
                  ret (fst encrypted, Some (JStr (snd encrypted)))
             else ret (encryptedBoundMessage, Some JNull)) ;;
  let toSend := JSON_stringify (request 1 (fst sealed) (snd sealed)) in
  log "Sending bind with message: %s request: %s" ;;;
  socket_send toSend (device.port device) (device.address device) ;;;
  log "Sent bind request".

Definition _confirmBinding (id key : jsval) : M unit :=
  modify_device (set_bound true) ;;;
  modify_device (set_key key) ;;;
  log "Binding confirmed".

Definition _sendRequest (message : json) (address : option string) (port : option Z)
    : M unit :=
  device <- get_device ;;
  let address := match address with Some a => Some a | None => device.address device end in
  let port := match port with Some p => Some p | None => device.port device end in
  sealed <- (if device.encryptionV2 device
             then encrypted <- lift (encrypt_v2 message (device.key device)) ;;
                  ret (fst encrypted, Some (JStr (snd encrypted)))
             else encryptedMessage <- lift (encrypt message (device.key device)) ;;
                  ret (encryptedMessage, Some JNull)) ;;
  let serializedRequest := JSON_stringify (request 0 (fst sealed) (snd sealed)) in
  socket_send serializedRequest port address.

(** Called by the timer with [this.device], the same object as the one the
    other methods mutate. *)
Definition _requestDeviceStatus : M unit :=
  device <- get_device ;;
  let message :=
    object [("cols", Some (JArr (List.map JStr (all_codes cmd)))); ("mac", device.id device);
            ("t", Some (JStr "status"))] in
  _sendRequest message (device.address device) (device.port device).

(** The callbacks of the two [forEach] loops of [_handleResponse]:
    [(col, i) => { this.device.props[col] = pack.dat[i]; }] and
    [(opt, i) => { this.device.props[opt] = pack.val ? pack.val[i] : pack.p[i]; }].
    Reading the value and converting the key can both throw, a [TypeError]
    each and before anything is assigned, so that their order does not
    show. *)
Definition dat_callback (pack : jsval) (col : json) (i : nat) : M unit :=
  dat <- lift (get pack "dat") ;;
  v <- lift (index dat i) ;;
  key <- lift (ToString col) ;;
  modify_device (set_prop key v).

Definition res_callback (pack : jsval) (opt : json) (i : nat) : M unit :=
  val <- lift (get pack "val") ;;
  v <- (if truthy val
        then lift (index val i)
        else p <- lift (get pack "p") ;; lift (index p i)) ;;
  key <- lift (ToString opt) ;;
  modify_device (set_prop key v).

(** The body of the [try] block of [_handleResponse], after the package has
    been decrypted. *)
Definition handle_pack (message : json) (pack : json) (ri : rinfo.t) : M unit :=
  let pack := Some pack in
  log "Received message with packet %s" ;;;
  t <- lift (get pack "t") ;;
  device <- get_device ;;
  if is_str t "dev" then
    ver <- lift (get pack "ver") ;;
    v2 <- lift (announces_v2 ver) ;;
    cid <- (if v2 : bool
            then modify_device (set_encryptionV2 true) ;;; lift (get pack "cid")
            else lift (get (Some message) "cid")) ;;
    name <- lift (get pack "name") ;;
    _setDevice cid name (rinfo.address ri) (rinfo.port ri) ;;;
    _sendBindRequest
  else if is_str t "bindok" && truthy (device.id device) then
    cid <- lift (get (Some message) "cid") ;;
    key <- lift (get pack "key") ;;
    _confirmBinding cid key ;;;
    options <- get_options ;;
    setInterval (updateInterval options) ;;;
    log "Sent first device status request" ;;;
    call onConnected
  else if is_str t "dat" && device.bound device then
    cols <- lift (get pack "cols") ;;
    cols <- lift (array_arg cols) ;;
    forEach cols 0 (dat_callback pack) ;;;
    call onStatus
  else if is_str t "res" && device.bound device then
    opt <- lift (get pack "opt") ;;
    opt <- lift (array_arg opt) ;;
    forEach opt 0 (res_callback pack) ;;;
    call onUpdate
  else
    call onError.

(** The first statement of the [try] block: the package, decrypted with the
    key of the device (or the default one), by the scheme that the presence
    of [tag] selects. *)
Definition decrypt_pack (device : device.t) (message : json) : result json :=
  (tag <- get (Some message) "tag" ;;
   match tag with
   | None => decrypt (Some message) (device.key device)
   | Some _ => decrypt_v2 (Some message) tag (device.key device)
   end)%js.

Definition _handleResponse (msg : string) (ri : rinfo.t) : M unit :=
  options <- get_options ;;
  if negb (String.eqb (rinfo.address ri) (host options)) then
    log "Received response from unexpected address %s"
  else
    message <- lift (JSON_parse msg) ;;
    log "Received message: " ;;;
    try_catch
      (device <- get_device ;;
       pack <- lift (decrypt_pack device message) ;;
       handle_pack message pack ri)
      (fun err => call onError).

Definition _sendCommand (commands values : list json) : M unit :=
  let message :=
    object [("opt", Some (JArr commands)); ("p", Some (JArr values));
            ("t", Some (JStr "cmd"))] in
  _sendRequest message None None.

Definition setPower (value : jsval) : M unit :=
  _sendCommand [JStr (power_code cmd)] [JNum (if truthy value then 1 else 0)].
Definition getPower (d : device.t) : jsval := get_prop d (power_code cmd).

Definition setTemp (value : json) (unit : jsval) : M Datatypes.unit :=
  let unit := match unit with Some u => u | None => temperatureUnit_value_celsius cmd end in
  _sendCommand [JStr (temperatureUnit_code cmd); JStr (temperature_code cmd)] [unit; value].
Definition getTemp (d : device.t) : jsval := get_prop d (temperature_code cmd).

Definition setMode (value : json) : M unit :=
  _sendCommand [JStr (mode_code cmd)] [value].
Definition getMode (d : device.t) : jsval := get_prop d (mode_code cmd).

Definition setFanSpeed (value : json) : M unit :=
  _sendCommand [JStr (fanSpeed_code cmd)] [value].
Definition getFanSpeed (d : device.t) : jsval := get_prop d (fanSpeed_code cmd).

Definition setSwingVert (value : json) : M unit :=
  _sendCommand [JStr (swingVert_code cmd)] [value].
Definition getSwingVert (d : device.t) : jsval := get_prop d (swingVert_code cmd).

Definition getRoomTemp (d : device.t) : jsval := get_prop d (TemSen_code cmd).

(** The states of a [Device]: the one the constructor builds, and those that
    a datagram, a tick of a timer that was started, or a call of a setter
    leads to. (A method that throws leaves the object as it was at the
    throw.) *)
Inductive reachable : Device -> Prop :=
  | reachable_new (host : string) (updateInterval : option Z) :
      reachable (new_Device host updateInterval)
  | reachable_message (msg : string) (ri : rinfo.t) (s : Device) :
      reachable s -> reachable (snd (_handleResponse msg ri s))
  | reachable_tick (s : Device) :
      reachable s -> intervals s <> [] -> reachable (snd (_requestDeviceStatus s))
  | reachable_setPower (value : jsval) (s : Device) :
      reachable s -> reachable (snd (setPower value s))
  | reachable_setTemp (value : json) (unit : jsval) (s : Device) :
      reachable s -> reachable (snd (setTemp value unit s))
  | reachable_setMode (value : json) (s : Device) :
      reachable s -> reachable (snd (setMode value s))
  | reachable_setFanSpeed (value : json) (s : Device) :
      reachable s -> reachable (snd (setFanSpeed value s))
  | reachable_setSwingVert (value : json) (s : Device) :
      reachable s -> reachable (snd (setSwingVert value s)).

End Device.

(** ** app/deviceFactory.js: the local port of the socket

    The constructor computes
    [port: 8000 + parseInt(options.host.split('.')[3])] for [this.options]
    and has [_connectToDevice] bind the socket to it. *)

(** [s.split('.')]: the pieces of [s] between its dots. *)
Fixpoint split_dots (s : string) : list string :=
  match s with
  | EmptyString => [EmptyString]
  | String c rest =>
      if Ascii.eqb c "." then EmptyString :: split_dots rest
      else match split_dots rest with
           | part :: parts => String c part :: parts
           | [] => [String c EmptyString]
           end
  end.

(** The white space and the line terminators that [parseInt] skips, in
    UTF-8: U+0009 to U+000D, U+0020, U+00A0, U+1680, U+2000 to U+200A,
    U+2028, U+2029, U+202F, U+205F, U+3000 and U+FEFF. *)
Definition white_space_1 (a : ascii) : bool :=
  let n := N_of_ascii a in
  ((9 <=? n) && (n <=? 13) || (n =? 32))%N.
Definition white_space_2 (a b : ascii) : bool :=
  ((N_of_ascii a =? 194) && (N_of_ascii b =? 160))%N.
Definition white_space_3 (a b c : ascii) : bool :=
  let '(x, y, z) := (N_of_ascii a, N_of_ascii b, N_of_ascii c) in
  ((x =? 225) && (y =? 154) && (z =? 128)
   || (x =? 226) && (y =? 128)
      && ((128 <=? z) && (z <=? 138) || (z =? 168) || (z =? 169) || (z =? 175))
   || (x =? 226) && (y =? 129) && (z =? 159)
   || (x =? 227) && (y =? 128) && (z =? 128)
   || (x =? 239) && (y =? 187) && (z =? 191))%N.

Fixpoint skip_white_space (s : string) : string :=
  match s with
  | String a r1 =>
      if white_space_1 a then skip_white_space r1
      else match r1 with
           | String b r2 =>
               if white_space_2 a b then skip_white_space r2
               else match r2 with
                    | String c r3 =>
                        if white_space_3 a b c then skip_white_space r3 else s
                    | EmptyString => s
                    end
           | EmptyString => s
           end
  | EmptyString => s
  end.

(** The value of a digit in a radix up to 36. *)
Definition digit_value (radix : Z) (a : ascii) : option Z :=
  let n := Z.of_N (N_of_ascii a) in
  let v := if ((48 <=? n) && (n <=? 57))%Z then Some (n - 48)
           else if ((97 <=? n) && (n <=? 122))%Z then Some (n - 87)
           else if ((65 <=? n) && (n <=? 90))%Z then Some (n - 55)
           else None in
  match v with
  | Some d => if (d <? radix)%Z then Some d else None
  | None => None
  end.

(** The digits at the start of [s]. *)
Fixpoint digits (radix : Z) (s : string) : list Z :=
  match s with
  | String a rest =>
      match digit_value radix a with
      | Some d => d :: digits radix rest
      | None => []
      end
  | EmptyString => []
  end.

Definition number (radix : Z) (ds : list Z) : Z :=
  fold_left (fun acc d => acc * radix + d) ds 0.

(** [parseInt(s)], without a radix: [None] is [NaN]. The number is the
    integer that the digits denote, which is what JavaScript computes up to
    2^53; from there on JavaScript rounds to a double, and the numerals
    beyond are outside the model. *)
Definition parseInt (input : string) : option Z :=
  let s := skip_white_space input in
  let '(sign, s) := match s with
                    | String "-" rest => (-1, rest)
                    | String "+" rest => (1, rest)
                    | _ => (1, s)
                    end in
  let '(radix, s) := match s with
                     | String "0" (String "x" rest) | String "0" (String "X" rest) =>
                         (16, rest)
                     | _ => (10, s)
                     end in
  match digits radix s with
  | [] => None
  | ds => Some (sign * number radix ds)
  end.

(** [8000 + parseInt(host.split('.')[3])]; a piece that is missing is
    [undefined], which [parseInt] reads as the string ["undefined"]. (The
    sum is that of JavaScript as long as it stays within 2^53.) *)
Definition local_port (host : string) : option Z :=
  let piece := match split_dots host !! 3%nat with
               | Some p => p
               | None => "undefined"
               end in
  match parseInt piece with
  | Some n => Some (8000 + n)
  | None => None
  end.

(** * An executable model of the runtime

    [JSON.stringify] and [JSON.parse] (integers are the only numbers),
    base64, AES-128 (FIPS 197), ECB with PKCS#7 padding and GCM (NIST SP
    800-38D), written out so that the driver can be run on concrete
    datagrams. *)

Module NodeModel.
Local Open Scope N_scope.

Definition dquote : ascii := "034"%char.
Definition backslash : ascii := "092"%char.

Definition hex_digit (n : N) : ascii :=
  match String.get (N.to_nat n) "0123456789abcdef" with
  | Some c => c
  | None => "0"%char
  end.

(** The characters that [JSON.stringify] escapes in a string. *)
Definition escape_char (c : ascii) : string :=
  let n := N_of_ascii c in
  if Ascii.eqb c dquote then String backslash (String dquote "")
  else if Ascii.eqb c backslash then String backslash (String backslash "")
  else if N.eqb n 8 then String backslash "b"
  else if N.eqb n 9 then String backslash "t"
  else if N.eqb n 10 then String backslash "n"
  else if N.eqb n 12 then String backslash "f"
  else if N.eqb n 13 then String backslash "r"
  else if N.ltb n 32 then
    String backslash
      (String "u" (String "0" (String "0"
         (String (hex_digit (n / 16)) (String (hex_digit (n mod 16)) "")))))
  else String c "".

Fixpoint escape (s : string) : string :=
  match s with
  | EmptyString => EmptyString
  | String c rest => (escape_char c ++ escape rest)%string
  end.

Definition quote (s : string) : string :=
  String dquote (escape s ++ String dquote "")%string.

Fixpoint stringify (v : json) : string :=
  match v with
  | JNull => "null"
  | JBool true => "true"
  | JBool false => "false"
  | JNum n => pretty n
  | JStr s => quote s
  | JArr l => ("[" ++ String.concat "," (List.map stringify l) ++ "]")%string
  | JObj fields =>
      ("{" ++ String.concat ","
                (List.map (fun kv => match kv with
                                     | (k, v) => (quote k ++ ":" ++ stringify v)%string
                                     end) fields)
           ++ "}")%string
  end.

(** UTF-8 of a code point. *)
Definition utf8_of_code_point (cp : N) : list ascii :=
  let a := ascii_of_N in
  if N.ltb cp 128 then [a cp]
  else if N.ltb cp 2048 then [a (192 + cp / 64); a (128 + cp mod 64)]
  else if N.ltb cp 65536 then
    [a (224 + cp / 4096); a (128 + (cp / 64) mod 64); a (128 + cp mod 64)]
  else
    [a (240 + cp / 262144); a (128 + (cp / 4096) mod 64);
     a (128 + (cp / 64) mod 64); a (128 + cp mod 64)].

Definition hex_value (c : ascii) : option N :=
  let n := N_of_ascii c in
  if N.leb 48 n && N.leb n 57 then Some (n - 48)
  else if N.leb 97 n && N.leb n 102 then Some (n - 87)
  else if N.leb 65 n && N.leb n 70 then Some (n - 55)
  else None.

Definition hex4 (a b c d : ascii) : option N :=
  match hex_value a, hex_value b, hex_value c, hex_value d with
  | Some x, Some y, Some z, Some w => Some (((x * 16 + y) * 16 + z) * 16 + w)
  | _, _, _, _ => None
  end.

(** The characters of a string literal after its opening quote, up to the
    closing one; [acc] holds what was read, in reverse. A lone surrogate
    escape becomes U+FFFD, as it does when the string is encoded. *)
Fixpoint parse_chars (s : list ascii) (acc : list ascii) : option (string * list ascii) :=
  match s with
  | [] => None
  | c :: r =>
      if Ascii.eqb c dquote then Some (string_of_list_ascii (rev acc), r)
      else if Ascii.eqb c backslash then
        match r with
        | [] => None
        | e :: r1 =>
            let simple (x : N) := parse_chars r1 (ascii_of_N x :: acc) in
            if Ascii.eqb e dquote then simple 34%N
            else if Ascii.eqb e backslash then simple 92%N
            else if Ascii.eqb e "/" then simple 47%N
            else if Ascii.eqb e "b" then simple 8%N
            else if Ascii.eqb e "f" then simple 12%N
            else if Ascii.eqb e "n" then simple 10%N
            else if Ascii.eqb e "r" then simple 13%N
            else if Ascii.eqb e "t" then simple 9%N
            else if Ascii.eqb e "u" then
              match r1 with
              | h1 :: h2 :: h3 :: h4 :: r2 =>
                  match hex4 h1 h2 h3 h4 with
                  | None => None
                  | Some u =>
                      if N.leb 55296 u && N.leb u 56319 then
                        match r2 with
                        | b1 :: u1 :: l1 :: l2 :: l3 :: l4 :: r3 =>
                            match (if Ascii.eqb b1 backslash && Ascii.eqb u1 "u"
                                   then hex4 l1 l2 l3 l4 else None) with
                            | Some lo =>
                                if N.leb 56320 lo && N.leb lo 57343 then
                                  parse_chars r3
                                    (rev (utf8_of_code_point
                                            (65536 + (u - 55296) * 1024 + (lo - 56320)))
                                     ++ acc)
                                else parse_chars r2 (rev (utf8_of_code_point 65533) ++ acc)
                            | None => parse_chars r2 (rev (utf8_of_code_point 65533) ++ acc)
                            end
                        | _ => parse_chars r2 (rev (utf8_of_code_point 65533) ++ acc)
                        end
                      else if N.leb 56320 u && N.leb u 57343 then
                        parse_chars r2 (rev (utf8_of_code_point 65533) ++ acc)
                      else parse_chars r2 (rev (utf8_of_code_point u) ++ acc)
                  end
              | _ => None
              end
            else None
        end
      else if N.ltb (N_of_ascii c) 32 then None
      else parse_chars r (c :: acc)
  end.

Definition is_ws (c : ascii) : bool :=
  let n := N_of_ascii c in
  N.eqb n 32 || N.eqb n 9 || N.eqb n 10 || N.eqb n 13.

Fixpoint skip_ws (s : list ascii) : list ascii :=
  match s with
  | c :: r => if is_ws c then skip_ws r else s
  | [] => []
  end.

Definition is_digit (c : ascii) : bool :=
  let n := N_of_ascii c in N.leb 48 n && N.leb n 57.

Fixpoint parse_digits (s : list ascii) (acc : N) : N * list ascii :=
  match s with
  | c :: r => if is_digit c then parse_digits r (acc * 10 + (N_of_ascii c - 48)) else (acc, s)
  | [] => (acc, [])
  end.

(** What may not follow an integer: a fraction or an exponent (outside the
    model), or a digit after a leading zero. *)
Definition number_continues (s : list ascii) : bool :=
  match s with
  | c :: _ => is_digit c || Ascii.eqb c "." || Ascii.eqb c "e" || Ascii.eqb c "E"
  | [] => false
  end.

(** An integer: an optional minus sign, then 0 or digits that do not start
    with 0. *)
Definition parse_number (s : list ascii) : option (Z * list ascii) :=
  let (neg, s) := match s with
                  | c :: r => if Ascii.eqb c "-" then (true, r) else (false, s)
                  | [] => (false, s)
                  end in
  match s with
  | c :: r =>
      if Ascii.eqb c "0" then
        if number_continues r then None else Some (0%Z, r)
      else if is_digit c then
        let (n, r') := parse_digits s 0 in
        if number_continues r' then None
        else Some (if neg : bool then Z.opp (Z.of_N n) else Z.of_N n, r')
      else None
  | [] => None
  end.

Fixpoint starts_with (p s : list ascii) : option (list ascii) :=
  match p, s with
  | [], _ => Some s
  | a :: p', b :: s' => if Ascii.eqb a b then starts_with p' s' else None
  | _ :: _, [] => None
  end.

(** A later occurrence of a key replaces the value of the earlier one. *)
Fixpoint set_field (k : string) (v : json) (fields : list (string * json))
    : list (string * json) :=
  match fields with
  | [] => [(k, v)]
  | (k', v') :: rest =>
      if String.eqb k k' then (k, v) :: rest else (k', v') :: set_field k v rest
  end.

(** What the parser is reading: a value, the rest of an array, or the rest
    of an object. *)
Inductive mode : Type :=
  | Value : mode
  | Elements : list json -> mode
  | Members : list (string * json) -> mode.

Fixpoint parse (fuel : nat) (m : mode) (s : list ascii) : option (json * list ascii) :=
  match fuel with
  | O => None
  | S fuel =>
      match m with
      | Value =>
          match skip_ws s with
          | [] => None
          | c :: r =>
              if Ascii.eqb c "[" then
                match skip_ws r with
                | c' :: r' =>
                    if Ascii.eqb c' "]" then Some (JArr [], r')
                    else parse fuel (Elements []) r
                | [] => None
                end
              else if Ascii.eqb c "{" then
                match skip_ws r with
                | c' :: r' =>
                    if Ascii.eqb c' "}" then Some (JObj [], r')
                    else parse fuel (Members []) r
                | [] => None
                end
              else if Ascii.eqb c dquote then
                match parse_chars r [] with
                | Some (str, r') => Some (JStr str, r')
                | None => None
                end
              else if Ascii.eqb c "n" then
                option_map (pair JNull) (starts_with (list_ascii_of_string "ull") r)
              else if Ascii.eqb c "t" then
                option_map (pair (JBool true)) (starts_with (list_ascii_of_string "rue") r)
              else if Ascii.eqb c "f" then
                option_map (pair (JBool false)) (starts_with (list_ascii_of_string "alse") r)
              else
                match parse_number (c :: r) with
                | Some (n, r') => Some (JNum n, r')
                | None => None
                end
          end
      | Elements acc =>
          match parse fuel Value s with
          | Some (v, r) =>
              match skip_ws r with
              | c :: r' =>
                  if Ascii.eqb c "," then parse fuel (Elements (v :: acc)) r'
                  else if Ascii.eqb c "]" then Some (JArr (rev (v :: acc)), r')
                  else None
              | [] => None
              end
          | None => None
          end
      | Members acc =>
          match skip_ws s with
          | c :: r =>
              if Ascii.eqb c dquote then
                match parse_chars r [] with
                | Some (k, r1) =>
                    match skip_ws r1 with
                    | c1 :: r2 =>
                        if Ascii.eqb c1 ":" then
                          match parse fuel Value r2 with
                          | Some (v, r3) =>
                              match skip_ws r3 with
                              | c3 :: r4 =>
                                  if Ascii.eqb c3 ","
                                  then parse fuel (Members (set_field k v acc)) r4
                                  else if Ascii.eqb c3 "}"
                                  then Some (JObj (set_field k v acc), r4)
                                  else None
                              | [] => None
                              end
                          | None => None
                          end
                        else None
                    | [] => None
                    end
                | None => None
                end
              else None
          | [] => None
          end
      end
  end.

(** [JSON.parse]: one value, and nothing but white space after it. *)
Definition JSON_parse (s : string) : result json :=
  let l := list_ascii_of_string s in
  match parse (2 * length l + 2) Value l with
  | Some (v, r) =>
      match skip_ws r with
      | [] => Ok v
      | _ :: _ => Throw SyntaxError
      end
  | None => Throw SyntaxError
  end.

(** ** base64 *)

Definition base64_char (n : N) : ascii :=
  match String.get (N.to_nat n)
          "ABCDEFGHIJKLMNOPQRSTUVWXYZabcdefghijklmnopqrstuvwxyz0123456789+/" with
  | Some c => c
  | None => "="%char
  end.

(** The value of a character of the alphabet; [-] and [_] stand for [+] and
    [/], as Node reads them. *)
Definition base64_value (c : ascii) : option N :=
  let n := N_of_ascii c in
  if N.leb 65 n && N.leb n 90 then Some (n - 65)
  else if N.leb 97 n && N.leb n 122 then Some (n - 71)
  else if N.leb 48 n && N.leb n 57 then Some (n + 4)
  else if N.eqb n 43 || N.eqb n 45 then Some 62
  else if N.eqb n 47 || N.eqb n 95 then Some 63
  else None.

Fixpoint sextets_of_bytes (b : list byte) : list N :=
  match b with
  | [] => []
  | [x] => let x := Byte.to_N x in [x / 4; (x mod 4) * 16]
  | [x; y] =>
      let x := Byte.to_N x in
      let y := Byte.to_N y in
      [x / 4; (x mod 4) * 16 + y / 16; (y mod 16) * 4]
  | x :: y :: z :: rest =>
      let x := Byte.to_N x in
      let y := Byte.to_N y in
      let z := Byte.to_N z in
      x / 4 :: (x mod 4) * 16 + y / 16 :: (y mod 16) * 4 + z / 64 :: z mod 64
        :: sextets_of_bytes rest
  end.

Definition padding (n : nat) : list ascii :=
  match Nat.modulo n 3 with
  | 1%nat => ["="%char; "="%char]
  | 2%nat => ["="%char]
  | _ => []
  end.

Definition base64_encode (b : list byte) : string :=
  string_of_list_ascii (List.map base64_char (sextets_of_bytes b) ++ padding (length b)).

Definition byte_of_N (n : N) : byte :=
  match Byte.of_N n with
  | Some b => b
  | None => x00
  end.

Fixpoint bytes_of_sextets (l : list N) : list byte :=
  match l with
  | a :: b :: c :: d :: rest =>
      byte_of_N (a * 4 + b / 16) :: byte_of_N ((b mod 16) * 16 + c / 4)
        :: byte_of_N ((c mod 4) * 64 + d) :: bytes_of_sextets rest
  | [a; b; c] => [byte_of_N (a * 4 + b / 16); byte_of_N ((b mod 16) * 16 + c / 4)]
  | [a; b] => [byte_of_N (a * 4 + b / 16)]
  | _ => []
  end.

(** The values of the characters up to the first [=]; a character outside
    the alphabet is skipped. *)
Fixpoint sextets_of_chars (s : list ascii) : list N :=
  match s with
  | [] => []
  | c :: r =>
      if Ascii.eqb c "=" then []
      else match base64_value c with
           | Some n => n :: sextets_of_chars r
           | None => sextets_of_chars r
           end
  end.

Definition base64_decode (s : string) : list byte :=
  bytes_of_sextets (sextets_of_chars (list_ascii_of_string s)).

(** ** Exclusive or of bytes *)

Definition bits8 : Type := bool * (bool * (bool * (bool * (bool * (bool * (bool * bool)))))).

Definition xor8 (a b : bits8) : bits8 :=
  let '(a0, (a1, (a2, (a3, (a4, (a5, (a6, a7))))))) := a in
  let '(b0, (b1, (b2, (b3, (b4, (b5, (b6, b7))))))) := b in
  (xorb a0 b0, (xorb a1 b1, (xorb a2 b2, (xorb a3 b3,
   (xorb a4 b4, (xorb a5 b5, (xorb a6 b6, xorb a7 b7))))))).

Definition xor_byte (a b : byte) : byte :=
  Byte.of_bits (xor8 (Byte.to_bits a) (Byte.to_bits b)).

Local Infix "(+)" := xor_byte (at level 50, left associativity).

(** [a] xor-ed with as much of [b] as it needs; what [b] does not cover stays
    as it is. *)
Fixpoint xor_bytes (a b : list byte) : list byte :=
  match a, b with
  | x :: a', y :: b' => xor_byte x y :: xor_bytes a' b'
  | _, _ => a
  end.

(** ** AES-128 (FIPS 197) *)

(** Multiplication by x in GF(2^8) modulo x^8 + x^4 + x^3 + x + 1. *)
Definition xtime8 (a : bits8) : bits8 :=
  let '(a0, (a1, (a2, (a3, (a4, (a5, (a6, a7))))))) := a in
  (a7, (xorb a0 a7, (a1, (xorb a2 a7, (xorb a3 a7, (a4, (a5, a6))))))).

Definition xtime (a : byte) : byte := Byte.of_bits (xtime8 (Byte.to_bits a)).

Definition mul2 (a : byte) : byte := xtime a.
Definition mul3 (a : byte) : byte := xtime a (+) a.
Definition mul9 (a : byte) : byte := xtime (xtime (xtime a)) (+) a.
Definition mul11 (a : byte) : byte := xtime (xtime (xtime a)) (+) xtime a (+) a.
Definition mul13 (a : byte) : byte := xtime (xtime (xtime a)) (+) xtime (xtime a) (+) a.
Definition mul14 (a : byte) : byte := xtime (xtime (xtime a)) (+) xtime (xtime a) (+) xtime a.

(** The product in GF(2^8), by shift and add over the bits of [b]. *)
Fixpoint gf_mul_loop (n : nat) (a : byte) (b : N) : byte :=
  match n with
  | O => x00
  | S n =>
      let rest := gf_mul_loop n (xtime a) (N.div2 b) in
      if N.odd b then a (+) rest else rest
  end.
Definition gf_mul (a b : byte) : byte := gf_mul_loop 8 a (Byte.to_N b).

Fixpoint gf_pow (a : byte) (n : nat) : byte :=
  match n with
  | O => x01
  | S n => gf_mul a (gf_pow a n)
  end.

Definition rotl8 (a : bits8) : bits8 :=
  let '(a0, (a1, (a2, (a3, (a4, (a5, (a6, a7))))))) := a in
  (a7, (a0, (a1, (a2, (a3, (a4, (a5, a6))))))).

(** The S-box: the inverse in the field (0 for 0), then the affine map. *)
Definition sbox_of (a : byte) : byte :=
  let i := Byte.to_bits (gf_pow a 254) in
  let r1 := rotl8 i in
  let r2 := rotl8 r1 in
  let r3 := rotl8 r2 in
  let r4 := rotl8 r3 in
  Byte.of_bits (xor8 (xor8 (xor8 (xor8 (xor8 i r1) r2) r3) r4) (Byte.to_bits x63)).

Definition all_bytes : list byte :=
  Eval vm_compute in
    List.map (fun n => byte_of_N (N.of_nat n)) (seq 0 256).

Definition sbox_table : list byte := Eval vm_compute in List.map sbox_of all_bytes.

Definition sbox (a : byte) : byte := nth (N.to_nat (Byte.to_N a)) sbox_table x00.

Definition inv_sbox_table : list byte :=
  Eval vm_compute in
    List.map (fun y => match List.find (fun x => Byte.eqb (sbox x) y) all_bytes with
                       | Some x => x
                       | None => x00
                       end) all_bytes.

Definition inv_sbox (a : byte) : byte := nth (N.to_nat (Byte.to_N a)) inv_sbox_table x00.


(** The state is the block, column after column. *)
Definition sub_bytes (s : list byte) : list byte := List.map sbox s.
Definition inv_sub_bytes (s : list byte) : list byte := List.map inv_sbox s.

Definition shift_rows (s : list byte) : list byte :=
  match s with
  | [s0; s1; s2; s3; s4; s5; s6; s7; s8; s9; s10; s11; s12; s13; s14; s15] =>
      [s0; s5; s10; s15; s4; s9; s14; s3; s8; s13; s2; s7; s12; s1; s6; s11]
  | _ => s
  end.

Definition inv_shift_rows (s : list byte) : list byte :=
  match s with
  | [s0; s1; s2; s3; s4; s5; s6; s7; s8; s9; s10; s11; s12; s13; s14; s15] =>
      [s0; s13; s10; s7; s4; s1; s14; s11; s8; s5; s2; s15; s12; s9; s6; s3]
  | _ => s
  end.

Definition mix_column (a b c d : byte) : list byte :=
  [mul2 a (+) mul3 b (+) c (+) d; a (+) mul2 b (+) mul3 c (+) d;
   a (+) b (+) mul2 c (+) mul3 d; mul3 a (+) b (+) c (+) mul2 d].

Definition inv_mix_column (a b c d : byte) : list byte :=
  [mul14 a (+) mul11 b (+) mul13 c (+) mul9 d; mul9 a (+) mul14 b (+) mul11 c (+) mul13 d;
   mul13 a (+) mul9 b (+) mul14 c (+) mul11 d; mul11 a (+) mul13 b (+) mul9 c (+) mul14 d].

Definition mix_columns (s : list byte) : list byte :=
  match s with
  | [s0; s1; s2; s3; s4; s5; s6; s7; s8; s9; s10; s11; s12; s13; s14; s15] =>
      mix_column s0 s1 s2 s3 ++ mix_column s4 s5 s6 s7
        ++ mix_column s8 s9 s10 s11 ++ mix_column s12 s13 s14 s15
  | _ => s
  end.

Definition inv_mix_columns (s : list byte) : list byte :=
  match s with
  | [s0; s1; s2; s3; s4; s5; s6; s7; s8; s9; s10; s11; s12; s13; s14; s15] =>
      inv_mix_column s0 s1 s2 s3 ++ inv_mix_column s4 s5 s6 s7
        ++ inv_mix_column s8 s9 s10 s11 ++ inv_mix_column s12 s13 s14 s15
  | _ => s
  end.

(** The next round key, from the previous one and the round constant. *)
Definition next_round_key (rcon : byte) (k : list byte) : list byte :=
  match k with
  | [k0; k1; k2; k3; k4; k5; k6; k7; k8; k9; k10; k11; k12; k13; k14; k15] =>
      let w0 := xor_bytes [k0; k1; k2; k3] [sbox k13 (+) rcon; sbox k14; sbox k15; sbox k12] in
      let w1 := xor_bytes [k4; k5; k6; k7] w0 in
      let w2 := xor_bytes [k8; k9; k10; k11] w1 in
      let w3 := xor_bytes [k12; k13; k14; k15] w2 in
      w0 ++ w1 ++ w2 ++ w3
  | _ => k
  end.

Fixpoint expand_key (rounds : nat) (rcon : byte) (k : list byte) : list (list byte) :=
  match rounds with
  | O => []
  | S n => let k' := next_round_key rcon k in k' :: expand_key n (xtime rcon) k'
  end.

(** The eleven round keys of a 128-bit key. *)
Definition round_keys (key : list byte) : list (list byte) :=
  key :: expand_key 10 x01 key.

Fixpoint rounds (ks : list (list byte)) (s : list byte) : list byte :=
  match ks with
  | [] => s
  | [k] => xor_bytes (shift_rows (sub_bytes s)) k
  | k :: rest => rounds rest (xor_bytes (mix_columns (shift_rows (sub_bytes s))) k)
  end.

Fixpoint inv_rounds (ks : list (list byte)) (s : list byte) : list byte :=
  match ks with
  | [] => s
  | [k] => inv_sub_bytes (inv_shift_rows (xor_bytes s k))
  | k :: rest =>
      inv_sub_bytes (inv_shift_rows (inv_mix_columns (xor_bytes (inv_rounds rest s) k)))
  end.

Definition cipher (ks : list (list byte)) (block : list byte) : list byte :=
  match ks with
  | [] => block
  | k :: rest => rounds rest (xor_bytes block k)
  end.

Definition inv_cipher (ks : list (list byte)) (block : list byte) : list byte :=
  match ks with
  | [] => block
  | k :: rest => xor_bytes (inv_rounds rest block) k
  end.

(** ** The block cipher modes

    ECB with PKCS#7 padding, over a cipher on 16-byte blocks. *)

(** The [n] blocks of 16 bytes at the start of [l]. *)
Fixpoint blocks (n : nat) (l : list byte) : list (list byte) :=
  match n with
  | O => []
  | S n => firstn 16 l :: blocks n (skipn 16 l)
  end.

Definition pkcs7_pad (m : list byte) : list byte :=
  let n := (16 - Nat.modulo (length m) 16)%nat in
  m ++ repeat (byte_of_N (N.of_nat n)) n.

Definition pkcs7_unpad (p : list byte) : option (list byte) :=
  let b := List.last p x00 in
  let n := N.to_nat (Byte.to_N b) in
  if ((1 <=? n) && (n <=? 16) && (n <=? length p))%nat then
    if forallb (Byte.eqb b) (skipn (length p - n) p)
    then Some (firstn (length p - n) p)
    else None
  else None.

Definition ecb_encrypt (enc : list byte -> list byte) (m : list byte) : list byte :=
  let p := pkcs7_pad m in
  concat (List.map enc (blocks (Nat.div (length p) 16) p)).

Definition ecb_decrypt (dec : list byte -> list byte) (c : list byte)
    : result (list byte) :=
  if (Nat.eqb (Nat.modulo (length c) 16) 0 && negb (Nat.eqb (length c) 0))%nat then
    match pkcs7_unpad (concat (List.map dec (blocks (Nat.div (length c) 16) c))) with
    | Some m => Ok m
    | None => Throw (CryptoError "bad decrypt")
    end
  else Throw (CryptoError "wrong final block length").

(** ** Galois/Counter mode (NIST SP 800-38D), with a 96-bit IV *)

(** A string of bytes as a big-endian number, and back, on [n] bytes. *)
Definition N_of_bytes (b : list byte) : N :=
  fold_left (fun acc x => acc * 256 + Byte.to_N x) b 0.

Fixpoint bytes_of_N (n : nat) (v : N) : list byte :=
  match n with
  | O => []
  | S n => bytes_of_N n (v / 256) ++ [byte_of_N (v mod 256)]
  end.

(** The product of two blocks in GF(2^128): bit [i] of a block, counted from
    the left, is bit [127 - i] of its number. *)
Fixpoint gf128_mul_loop (i : nat) (x z v : N) : N :=
  match i with
  | O => z
  | S i =>
      let z := if N.testbit x (N.of_nat i) then N.lxor z v else z in
      let v := if N.testbit v 0
               then N.lxor (N.shiftr v 1) (N.shiftl 225 120)
               else N.shiftr v 1 in
      gf128_mul_loop i x z v
  end.

Definition gf128_mul (x y : N) : N := gf128_mul_loop 128 x 0 y.

Definition zero_pad (b : list byte) : list byte :=
  b ++ repeat x00 (Nat.modulo (16 - Nat.modulo (length b) 16) 16).

Definition ghash (h : N) (data : list byte) : N :=
  fold_left (fun y block => gf128_mul (N.lxor y (N_of_bytes block)) h)
    (blocks (Nat.div (length data) 16) data) 0.

(** The key stream of the blocks [from], [from + 1], ... of the counter. *)
Fixpoint counter_stream (enc : list byte -> list byte) (iv : list byte)
    (from : N) (n : nat) : list byte :=
  match n with
  | O => []
  | S n => enc (iv ++ bytes_of_N 4 from) ++ counter_stream enc iv (from + 1) n
  end.

Definition gctr (enc : list byte -> list byte) (iv : list byte) (data : list byte)
    : list byte :=
  xor_bytes data (counter_stream enc iv 2 (S (Nat.div (length data) 16))).

Definition gcm_tag (enc : list byte -> list byte) (iv aad c : list byte) : list byte :=
  let h := N_of_bytes (enc (repeat x00 16)) in
  let lengths :=
    bytes_of_N 8 (N.of_nat (8 * length aad)) ++ bytes_of_N 8 (N.of_nat (8 * length c)) in
  let s := ghash h (zero_pad aad ++ zero_pad c ++ lengths) in
  xor_bytes (bytes_of_N 16 s) (enc (iv ++ bytes_of_N 4 1)).

Definition gcm_encrypt (enc : list byte -> list byte) (iv aad m : list byte)
    : list byte * list byte :=
  let c := gctr enc iv m in
  (c, gcm_tag enc iv aad c).

Fixpoint bytes_eqb (a b : list byte) : bool :=
  match a, b with
  | [], [] => true
  | x :: a', y :: b' => Byte.eqb x y && bytes_eqb a' b'
  | _, _ => false
  end.

(** The decipher is given a tag of any of the lengths that [setAuthTag]
    accepts, and [final] compares it with the beginning of the tag of the
    ciphertext. *)
Definition gcm_decrypt (enc : list byte -> list byte) (iv aad tag c : list byte)
    : result (list byte) :=
  if valid_tag_length (length tag) then
    if bytes_eqb tag (firstn (length tag) (gcm_tag enc iv aad c)) then Ok (gctr enc iv c)
    else Throw (CryptoError "Unsupported state or unable to authenticate data")
  else Throw TypeError.

(** ** The four ciphers *)

Definition cipher_block (key block : list byte) : list byte :=
  cipher (round_keys key) block.
Definition inv_cipher_block (key block : list byte) : list byte :=
  inv_cipher (round_keys key) block.

Definition aes_128_ecb_encrypt (key m : list byte) : result (list byte) :=
  if Nat.eqb (length key) 16 then Ok (ecb_encrypt (cipher_block key) m)
  else Throw (CryptoError "Invalid key length").

Definition aes_128_ecb_decrypt (key c : list byte) : result (list byte) :=
  if Nat.eqb (length key) 16 then ecb_decrypt (inv_cipher_block key) c
  else Throw (CryptoError "Invalid key length").

Definition aes_128_gcm_encrypt (key iv aad m : list byte)
    : result (list byte * list byte) :=
  if Nat.eqb (length key) 16 then
    if Nat.eqb (length iv) 12 then Ok (gcm_encrypt (cipher_block key) iv aad m)
    else Throw (CryptoError "Invalid initialization vector")
  else Throw (CryptoError "Invalid key length").

Definition aes_128_gcm_decrypt (key iv aad tag c : list byte) : result (list byte) :=
  if Nat.eqb (length key) 16 then
    if Nat.eqb (length iv) 12 then gcm_decrypt (cipher_block key) iv aad tag c
    else Throw (CryptoError "Invalid initialization vector")
  else Throw (CryptoError "Invalid key length").


(** Bytes written in hexadecimal, for the test vectors. *)
Fixpoint bytes_of_hex (l : list ascii) : list byte :=
  match l with
  | a :: b :: rest =>
      match hex_value a, hex_value b with
      | Some x, Some y => byte_of_N (x * 16 + y) :: bytes_of_hex rest
      | _, _ => []
      end
  | _ => []
  end.

Definition hex (s : string) : list byte := bytes_of_hex (list_ascii_of_string s).

End NodeModel.

(** The model as an instance of the interface. *)
Definition node_model : Runtime :=
  Build_Runtime NodeModel.JSON_parse NodeModel.stringify
    NodeModel.base64_encode NodeModel.base64_decode
    NodeModel.aes_128_ecb_encrypt NodeModel.aes_128_ecb_decrypt
    NodeModel.aes_128_gcm_encrypt NodeModel.aes_128_gcm_decrypt.

(** * A session with the model

    The inputs at which the properties below are exercised. *)

(** Modelled from the spec: the table of command codes ([commandEnums.js] is
    not among the sources). The spec names the codes [Pow] and [Mod]; the
    other entries have the same shape. *)
Definition commands : commandEnums :=
  mk_commandEnums "Pow" "Mod" "TemUn" (JNum 0) "SetTem" "WdSpd" "SwUpDn" "TemSen"
    ["Pow"; "Mod"; "TemUn"; "SetTem"; "WdSpd"; "SwUpDn"; "TemSen"].

Module Session.
Import encryptionService.

Definition device_host : string := "192.168.1.20".
Definition from_device : rinfo.t := rinfo.mk device_host 7000.
Definition from_elsewhere : rinfo.t := rinfo.mk "192.168.1.66" 7000.
Definition session_key : string := "Kp4#sT9qLm2xZv7b".

(** A datagram of the device: the envelope around [pack], encrypted by the
    legacy scheme. *)
Definition envelope (pack : json) (key : jsval) : json :=
  JObj [("t", JStr "pack"); ("i", JNum 1); ("uid", JNum 0); ("cid", JStr "f4911e7aca59");
        ("tcid", JStr "");
        ("pack", JStr (match encrypt (R := node_model) pack key with
                       | Ok p => p
                       | Throw _ => ""
                       end))].

Definition datagram_of (pack : json) (key : jsval) : string :=
  JSON_stringify (Runtime := node_model) (envelope pack key).

Definition dev_pack (ver : string) : json :=
  JObj [("t", JStr "dev"); ("cid", JStr "f4911e7aca59"); ("name", JStr "AC");
        ("ver", JStr ver)].
Definition bindok_pack : json :=
  JObj [("t", JStr "bindok"); ("mac", JStr "f4911e7aca59"); ("key", JStr session_key);
        ("r", JNum 200)].
Definition dat_pack : json :=
  JObj [("t", JStr "dat"); ("mac", JStr "f4911e7aca59"); ("r", JNum 200);
        ("cols", JArr [JStr "Pow"; JStr "Mod"]); ("dat", JArr [JNum 1; JNum 2])].
Definition res_p_pack : json :=
  JObj [("t", JStr "res"); ("mac", JStr "f4911e7aca59"); ("r", JNum 200);
        ("opt", JArr [JStr "Pow"]); ("p", JArr [JNum 0])].

(** The states of a legacy session: as constructed, after the handshake,
    after the bind acknowledgement. *)
Definition at_start : Device := new_Device (R := node_model) device_host None.
Definition after_handshake : Device :=
  snd (_handleResponse (R := node_model) (datagram_of (dev_pack "V1.1.13") None)
         from_device at_start).
Definition after_bind : Device :=
  snd (_handleResponse (R := node_model) (datagram_of bindok_pack None)
         from_device after_handshake).

(** The session once the handshake reply of a version 2 firmware has been
    handled, and once that device has acknowledged a bind request all the
    same. *)
Definition after_handshake_v2 : Device :=
  snd (_handleResponse (R := node_model) (datagram_of (dev_pack "V2.1.0") None)
         from_device at_start).

(** A bind acknowledgement whose key is [null]. *)
Definition bindok_null_pack : json :=
  JObj [("t", JStr "bindok"); ("mac", JStr "f4911e7aca59"); ("key", JNull); ("r", JNum 200)].
Definition after_bind_null : Device :=
  snd (_handleResponse (R := node_model) (datagram_of bindok_null_pack None)
         from_device after_handshake).

(** A status reply without its values, and the reply to a status request for
    all codes. *)
Definition dat_pack_without_dat : json :=
  JObj [("t", JStr "dat"); ("mac", JStr "f4911e7aca59"); ("r", JNum 200);
        ("cols", JArr [JStr "Pow"; JStr "Mod"])].
Definition status_pack : json :=
  JObj [("t", JStr "dat"); ("mac", JStr "f4911e7aca59"); ("r", JNum 200);
        ("cols", JArr (List.map JStr (all_codes commands)));
        ("dat", JArr [JNum 1; JNum 4; JNum 0; JNum 24; JNum 3; JNum 1; JNum 26])].

(** A handshake reply whose [ver] is a number, and command responses whose
    [val] is [null] and is 1. *)
Definition dev_pack_number : json :=
  JObj [("t", JStr "dev"); ("cid", JStr "f4911e7aca59"); ("name", JStr "AC");
        ("ver", JNum 2)].

(** A command response whose [val] is present and is 0, and a status reply
    whose second key is an object with a [toString] field. *)
Definition res_zero_pack : json :=
  JObj [("t", JStr "res"); ("mac", JStr "f4911e7aca59"); ("r", JNum 200);
        ("opt", JArr [JStr "Pow"]); ("p", JArr [JNum 1]); ("val", JNum 0)].
Definition dat_bad_key_pack : json :=
  JObj [("t", JStr "dat"); ("mac", JStr "f4911e7aca59"); ("r", JNum 200);
        ("cols", JArr [JStr "Pow"; JObj [("toString", JNum 1)]]);
        ("dat", JArr [JNum 1; JNum 2])].

(** What [encrypt_v2] makes of the bind acknowledgement under the session
    key, and the tag cut down to its first four bytes. *)
Definition sealed_v2 : string * string :=
  match encrypt_v2 (R := node_model) bindok_pack (Some (JStr session_key)) with
  | Ok sealed => sealed
  | Throw _ => ("", "")
  end.
Definition short_tag : string :=
  base64_encode (Runtime := node_model)
    (firstn 4 (base64_decode (Runtime := node_model) (snd sealed_v2))).

(** The session after [setPower(true)] on the bound device. *)
Definition after_command : Device :=
  snd (setPower (R := node_model) commands (Some (JBool true)) after_bind).

End Session.

(** * The vocabulary of the properties *)

(** The assignments [props[keys[j]] = src[i + j]], in order. *)
Fixpoint assign (keys : list string) (i : nat) (src : jsval) (d : device.t) : device.t :=
  match keys with
  | [] => d
  | k :: rest => assign rest (S i) src (set_prop k (elem src i) d)
  end.

(** [v[i]] can be read: [v] is neither [null] nor [undefined]. *)
Definition indexable (v : jsval) : bool :=
  match v with
  | None | Some JNull => false
  | _ => true
  end.

(** The array that the [res] loop reads: [val] when it is truthy, [p]
    otherwise. *)
Definition res_source (val p : jsval) : jsval := if truthy val then val else p.

(** [s'] differs from [s] at most in the properties of the device. *)
Definition only_props (s s' : Device) : Prop :=
  exists m, s' = with_device (set_props m (this_device s)) s.

(** [s'] differs from [s] at most in the datagrams sent and in the log. *)
Definition only_io (s s' : Device) : Prop :=
  this_options s' = this_options s /\ this_device s' = this_device s /\
  called s' = called s /\ intervals s' = intervals s.

(** The outcomes of handling a package that was decrypted, from [s] to [s']:
    it is rejected, it is a handshake reply, it is the bind acknowledgement
    of an identified device, or it updates the properties of a bound
    device. *)
Inductive handled (s s' : Device) : Prop :=
  | handled_rejected :
      this_device s' = this_device s ->
      sent s' = sent s ->
      called s' = called s ++ [onError (this_device s')] ->
      intervals s' = intervals s ->
      handled s s'
  | handled_dev :
      device.bound (this_device s') = false ->
      called s' = called s \/ called s' = called s ++ [onError (this_device s')] ->
      intervals s' = intervals s ->
      handled s s'
  | handled_bindok (key : jsval) :
      truthy (device.id (this_device s)) = true ->
      this_device s' = set_key key (set_bound true (this_device s)) ->
      sent s' = sent s ->
      called s' = called s ++ [onConnected (this_device s')] ->
      intervals s' = intervals s ++ [updateInterval (this_options s)] ->
      handled s s'
  | handled_update (m : gmap string jsval) (cb : device.t -> callback) :
      device.bound (this_device s) = true ->
      this_device s' = set_props m (this_device s) ->
      sent s' = sent s ->
      called s' = called s ++ [cb (this_device s')] ->
      intervals s' = intervals s ->
      handled s s'.

(** [s'] is [s] up to the log. *)
Definition idle (s s' : Device) : Prop :=
  this_device s' = this_device s /\ sent s' = sent s /\
  called s' = called s /\ intervals s' = intervals s.

(** [bound] implies that the handshake gave the device an identity. *)
Definition identified_when_bound (s : Device) : Prop :=
  device.bound (this_device s) = true -> truthy (device.id (this_device s)) = true.

(** The bind request, as [_sendBindRequest] builds it. *)
Definition bind_message (d : device.t) : json :=
  object [("mac", device.id d); ("t", Some (JStr "bind")); ("uid", Some (JNum 0))].

(** The device after [_setDevice]. *)
Definition identified (cid name : jsval) (ri : rinfo.t) (v2 : bool) (d : device.t)
    : device.t :=
  device.mk cid name (Some (rinfo.address ri)) (Some (rinfo.port ri)) false ∅
    (device.key d) v2.



(** The envelope of a request of the operational phase: [tag] is [None]
    under the legacy scheme. *)
Definition sealed_request (pack : string) (tag : option string) : json :=
  JObj ([("cid", JStr "app"); ("i", JNum 0); ("t", JStr "pack"); ("uid", JNum 0);
         ("pack", JStr pack)]
        ++ match tag with Some t => [("tag", JStr t)] | None => [] end).

(** The status request, as [_requestDeviceStatus] builds it. *)
Definition status_message (cmd : commandEnums) (d : device.t) : json :=
  object [("cols", Some (JArr (List.map JStr (all_codes cmd)))); ("mac", device.id d);
          ("t", Some (JStr "status"))].

Section Outcome.
Context {R : Runtime}.

(** What handling one datagram from [ri] does to a [Device], from [s] to
    [s']: the datagram is ignored (it came from elsewhere, or is not JSON);
    it is rejected with [onError]; it is a handshake reply whose bind request
    could not be sent; it is a handshake reply, answered by the bind request;
    it is the bind acknowledgement of an identified device; or it is a
    status or command response to a bound device, which changes at most the
    properties and is reported by [onStatus] or [onUpdate], or by [onError]
    when the loop of assignments threw. *)
Inductive outcome (ri : rinfo.t) (s s' : Device) : Prop :=
  | outcome_ignored :
      idle s s' -> outcome ri s s'
  | outcome_rejected :
      this_device s' = this_device s ->
      sent s' = sent s ->
      called s' = called s ++ [onError (this_device s')] ->
      intervals s' = intervals s ->
      outcome ri s s'
  | outcome_handshake_failed (cid name : jsval) (v2 : bool) :
      rinfo.address ri = host (this_options s) ->
      this_device s' = identified cid name ri v2 (this_device s) ->
      (device.encryptionV2 (this_device s) = true -> v2 = true) ->
      sent s' = sent s ->
      called s' = called s ++ [onError (this_device s')] ->
      intervals s' = intervals s ->
      outcome ri s s'
  | outcome_handshake (cid name : jsval) (pack : string) :
      rinfo.address ri = host (this_options s) ->
      device.encryptionV2 (this_device s) = false ->
      this_device s' = identified cid name ri false (this_device s) ->
      encryptionService.encrypt (bind_message (this_device s')) None = Ok pack ->
      sent s' = sent s ++ [mk_datagram (JSON_stringify (request 1 pack (Some JNull)))
                             (rinfo.port ri) (Some (rinfo.address ri))] ->
      called s' = called s ->
      intervals s' = intervals s ->
      outcome ri s s'
  | outcome_bindok (key : jsval) :
      truthy (device.id (this_device s)) = true ->
      this_device s' = set_key key (set_bound true (this_device s)) ->
      sent s' = sent s ->
      called s' = called s ++ [onConnected (this_device s')] ->
      intervals s' = intervals s ++ [updateInterval (this_options s)] ->
      outcome ri s s'
  | outcome_update (m : gmap string jsval) (cb : device.t -> callback) :
      device.bound (this_device s) = true ->
      this_device s' = set_props m (this_device s) ->
      sent s' = sent s ->
      cb = onStatus \/ cb = onUpdate \/ cb = onError ->
      called s' = called s ++ [cb (this_device s')] ->
      intervals s' = intervals s ->
      outcome ri s s'.


End Outcome.

(** A request goes to the device as the handshake recorded it: [s'] has sent
    what [s] has, and at most one datagram more, to the address and port of
    the device. *)
Definition request_step (s s' : Device) : Prop :=
  sent s' = sent s \/
  exists (buf : string) (port : Z),
    device.port (this_device s) = Some port /\
    sent s' = sent s ++ [mk_datagram buf port (device.address (this_device s))].

(** A call of one of the setters of a [Device]. *)
Inductive setter : Type :=
  | call_setPower (value : jsval)
  | call_setTemp (value : json) (unit : jsval)
  | call_setMode (value : json)
  | call_setFanSpeed (value : json)
  | call_setSwingVert (value : json).

(** The method that the call runs. *)
Definition perform {R : Runtime} (cmd : commandEnums) (c : setter) : M unit :=
  match c with
  | call_setPower value => setPower cmd value
  | call_setTemp value unit => setTemp cmd value unit
  | call_setMode value => setMode cmd value
  | call_setFanSpeed value => setFanSpeed cmd value
  | call_setSwingVert value => setSwingVert cmd value
  end.



(** The getters of a [Device], each with the code of the property that it
    reads. *)
Definition getters (cmd : commandEnums) : list (string * (device.t -> jsval)) :=
  [(power_code cmd, getPower cmd); (temperature_code cmd, getTemp cmd);
   (mode_code cmd, getMode cmd); (fanSpeed_code cmd, getFanSpeed cmd);
   (swingVert_code cmd, getSwingVert cmd); (TemSen_code cmd, getRoomTemp cmd)].

(** The callbacks that report a connection. *)
Definition is_onConnected (c : callback) : bool :=
  match c with
  | onConnected _ => true
  | _ => false
  end.

(** What a callback that reports a connection or new properties is given: a
    bound device with an identity, at the configured address. *)
Definition reports_bound_device (host : string) (c : callback) : Prop :=
  match c with
  | onStatus d | onUpdate d | onConnected d =>
      device.bound d = true /\ truthy (device.id d) = true /\
      device.address d = Some host
  | onError _ | onDisconnected _ => True
  end.

(** The device has an address and a port as soon as it has an identity, and
    the address is the configured one. *)
Definition placed (s : Device) : Prop :=
  (truthy (device.id (this_device s)) = true ->
   exists port, device.port (this_device s) = Some port) /\
  (forall port, device.port (this_device s) = Some port ->
   device.address (this_device s) = Some (host (this_options s))).

(** No dot occurs in [s]. *)
Fixpoint dotless (s : string) : bool :=
  match s with
  | String c rest => negb (Ascii.eqb c ".") && dotless rest
  | EmptyString => true
  end.

(** The decimal digits. *)
Definition decimal_digit (a : ascii) : bool :=
  let n := N_of_ascii a in ((48 <=? n) && (n <=? 57))%N.

Fixpoint all_decimal (s : string) : bool :=
  match s with
  | String c rest => decimal_digit c && all_decimal rest
  | EmptyString => true
  end.

(** * Properties *)

Section Properties.
Context {R : Runtime} (cmd : commandEnums).
Import encryptionService.

(** ** The sender filter *)

Lemma handleResponse_other_sender (msg : string) (ri : rinfo.t) (s : Device) :
  rinfo.address ri <> host (this_options s) ->
  _handleResponse msg ri s =
    (Ok tt, with_logged (logged s ++ ["Received response from unexpected address %s"]) s).
Proof.
  intros Hne. unfold _handleResponse, bind, get_options. simpl.
  apply String.eqb_neq in Hne. rewrite Hne. reflexivity.
Qed.

(** ** A datagram of the device that cannot be read *)

Lemma handleResponse_outer_parse (msg : string) (ri : rinfo.t) (s : Device) (e : error) :
  rinfo.address ri = host (this_options s) ->
  JSON_parse msg = Throw e ->
  _handleResponse msg ri s = (Throw e, s).
Proof.
  intros Heq Hparse. unfold _handleResponse, bind, get_options, lift. simpl.
  rewrite Heq, String.eqb_refl, Hparse. reflexivity.
Qed.

Lemma handleResponse_decrypt_failure
    (msg : string) (ri : rinfo.t) (s : Device) (message : json) (e : error) :
  rinfo.address ri = host (this_options s) ->
  JSON_parse msg = Ok message ->
  decrypt_pack (this_device s) message = Throw e ->
  _handleResponse msg ri s =
    (Ok tt,
     with_called (called s ++ [onError (this_device s)])
       (with_logged (logged s ++ ["Received message: "]) s)).
Proof.
  intros Heq Hparse Hdec.
  unfold _handleResponse, bind, get_options, lift, try_catch, get_device, log, call. simpl.
  rewrite Heq, String.eqb_refl, Hparse. simpl. rewrite Hdec. reflexivity.
Qed.

(** ** The two [forEach] loops *)

Lemma index_indexable (v : jsval) (i : nat) :
  indexable v = true -> index v i = Ok (elem v i).
Proof. destruct v as [[]|]; simpl; congruence. Qed.

Lemma index_not_indexable (v : jsval) (i : nat) :
  indexable v = false -> index v i = Throw TypeError.
Proof. destruct v as [[]|]; simpl; congruence. Qed.

Lemma truthy_indexable (v : jsval) : truthy v = true -> indexable v = true.
Proof. destruct v as [[]|]; simpl; congruence. Qed.

Lemma with_device_this (s : Device) : with_device (this_device s) s = s.
Proof. destruct s; reflexivity. Qed.

Lemma with_device_twice (d d' : device.t) (s : Device) :
  with_device d' (with_device d s) = with_device d' s.
Proof. reflexivity. Qed.

(** The loop over keys that are strings: it assigns them in order, and goes
    on with what follows them. *)
Lemma forEach_dat_callback_strings (pack dat : jsval) (keys : list string)
    (rest : list json) (i : nat) (s : Device) :
  get pack "dat" = Ok dat ->
  indexable dat = true ->
  forEach (List.map JStr keys ++ rest) i (dat_callback pack) s =
    forEach rest (i + length keys) (dat_callback pack)
      (with_device (assign keys i dat (this_device s)) s).
Proof.
  intros Hdat Hidx. revert i s.
  induction keys as [|key keys IH]; intros i s; cbn [List.map app forEach length assign].
  - rewrite Nat.add_0_r, with_device_this. reflexivity.
  - unfold bind at 1. unfold dat_callback at 1. unfold bind, lift, modify_device.
    rewrite Hdat, (index_indexable _ _ Hidx). cbn [ToString]. rewrite IH.
    cbn [this_device with_device]. rewrite with_device_twice.
    replace (S i + length keys)%nat with (i + S (length keys))%nat by lia. reflexivity.
Qed.

Lemma forEach_dat_callback (pack dat : jsval) (keys : list string) (i : nat) (s : Device) :
  get pack "dat" = Ok dat ->
  indexable dat = true ->
  forEach (List.map JStr keys) i (dat_callback pack) s =
    (Ok tt, with_device (assign keys i dat (this_device s)) s).
Proof.
  intros Hdat Hidx. rewrite <- (app_nil_r (List.map JStr keys)).
  rewrite (forEach_dat_callback_strings _ _ _ _ _ _ Hdat Hidx). reflexivity.
Qed.






Lemma forEach_res_callback_throw (pack val p : jsval) (o : json) (opt : list json)
    (i : nat) (s : Device) :
  get pack "val" = Ok val ->
  get pack "p" = Ok p ->
  indexable (res_source val p) = false ->
  forEach (o :: opt) i (res_callback pack) s = (Throw TypeError, s).
Proof.
  intros Hval Hp Hidx. simpl. unfold bind at 1. unfold res_callback at 1.
  unfold bind, lift. rewrite Hval. unfold res_source in *.
  destruct (truthy val) eqn:Hty.
  - apply truthy_indexable in Hty. congruence.
  - rewrite Hp, (index_not_indexable _ _ Hidx). reflexivity.
Qed.

(** ** The branches of [_handleResponse] *)

Ltac run :=
  unfold handle_pack, _setDevice, _confirmBinding, try_catch, bind, lift, get_device, log,
    call, get_options, modify_device, setInterval, ret;
  cbn [fst snd this_options this_device sent called intervals logged
       with_device with_sent with_called with_intervals with_logged].

Lemma get_object (fields : list (string * json)) (k : string) :
  get (Some (JObj fields)) k = Ok (assoc k fields).
Proof. reflexivity. Qed.

(** A value one field of which could be read and was not [undefined] is an
    object. *)
Lemma get_Some_object (o v : json) (k : string) :
  get (Some o) k = Ok (Some v) -> exists fields, o = JObj fields.
Proof. destruct o; simpl; intros H; try discriminate. eauto. Qed.

Lemma decrypt_pack_object (d : device.t) (message pack : json) :
  decrypt_pack d message = Ok pack -> exists fields, message = JObj fields.
Proof.
  unfold decrypt_pack, decrypt, decrypt_v2, rbind. intros H.
  destruct message; simpl in H; try discriminate; eauto;
    destruct (default_param _ _) as [k|]; try discriminate;
    destruct (string_arg k); discriminate.
Qed.

Lemma handleResponse_decrypted
    (msg : string) (ri : rinfo.t) (s : Device) (message pack : json) :
  rinfo.address ri = host (this_options s) ->
  JSON_parse msg = Ok message ->
  decrypt_pack (this_device s) message = Ok pack ->
  _handleResponse msg ri s =
    try_catch (handle_pack message pack ri) (fun _ => call onError)
      (with_logged (logged s ++ ["Received message: "]) s).
Proof.
  intros Heq Hparse Hdec. unfold _handleResponse. run.
  rewrite Heq, String.eqb_refl, Hparse. cbn [negb]. rewrite Hdec. reflexivity.
Qed.

(** A package that no branch accepts. *)
Lemma handle_pack_unexpected (message pack : json) (ri : rinfo.t) (s : Device) (t : jsval) :
  get (Some pack) "t" = Ok t ->
  is_str t "dev" = false ->
  is_str t "bindok" && truthy (device.id (this_device s)) = false ->
  is_str t "dat" && device.bound (this_device s) = false ->
  is_str t "res" && device.bound (this_device s) = false ->
  try_catch (handle_pack message pack ri) (fun _ => call onError) s =
    (Ok tt,
     with_called (called s ++ [onError (this_device s)])
       (with_logged (logged s ++ ["Received message with packet %s"]) s)).
Proof.
  intros Ht Hdev Hbindok Hdat Hres. run.
  rewrite Ht, Hdev, Hbindok, Hdat, Hres. reflexivity.
Qed.

(** The bind acknowledgement. *)
Lemma handle_pack_bindok (fields : list (string * json)) (pack : json) (ri : rinfo.t)
    (s : Device) (key : jsval) :
  get (Some pack) "t" = Ok (Some (JStr "bindok")) ->
  truthy (device.id (this_device s)) = true ->
  get (Some pack) "key" = Ok key ->
  try_catch (handle_pack (JObj fields) pack ri) (fun _ => call onError) s =
    let d := set_key key (set_bound true (this_device s)) in
    (Ok tt,
     mk_Device (this_options s) d (sent s) (called s ++ [onConnected d])
       (intervals s ++ [updateInterval (this_options s)])
       (((logged s ++ ["Received message with packet %s"]) ++ ["Binding confirmed"])
          ++ ["Sent first device status request"])).
Proof.
  intros Ht Hid Hkey. run. rewrite Ht, Hkey, get_object.
  cbn [is_str String.eqb Ascii.eqb Bool.eqb andb]. rewrite Hid. reflexivity.
Qed.

(** ** What a method leaves alone *)

Lemma only_props_refl (s : Device) : only_props s s.
Proof. exists (device.props (this_device s)). destruct s as [o []]; reflexivity. Qed.

Lemma only_props_trans (s1 s2 s3 : Device) :
  only_props s1 s2 -> only_props s2 s3 -> only_props s1 s3.
Proof.
  intros [m1 ->] [m2 ->]. exists m2. destruct s1 as [o []]; reflexivity.
Qed.

Lemma only_props_set_prop (k : string) (v : jsval) (s : Device) :
  only_props s (with_device (set_prop k v (this_device s)) s).
Proof. eexists. reflexivity. Qed.

Lemma dat_callback_only_props (pack : jsval) (col : json) (i : nat) (s : Device) :
  only_props s (dat_callback pack col i s).2.
Proof.
  unfold dat_callback. run.
  destruct (get pack "dat") as [dat|]; cbn [snd]; [|apply only_props_refl].
  destruct (index dat i); cbn [snd]; [|apply only_props_refl].
  destruct (ToString col); cbn [snd]; [apply only_props_set_prop|apply only_props_refl].
Qed.

Lemma res_callback_only_props (pack : jsval) (opt : json) (i : nat) (s : Device) :
  only_props s (res_callback pack opt i s).2.
Proof.
  unfold res_callback. run.
  destruct (get pack "val") as [val|]; cbn [snd]; [|apply only_props_refl].
  destruct (truthy val); cbn [snd].
  - destruct (index val i); cbn [snd]; [|apply only_props_refl].
    destruct (ToString opt); cbn [snd]; [apply only_props_set_prop|apply only_props_refl].
  - destruct (get pack "p") as [p|]; cbn [snd]; [|apply only_props_refl].
    destruct (index p i); cbn [snd]; [|apply only_props_refl].
    destruct (ToString opt); cbn [snd]; [apply only_props_set_prop|apply only_props_refl].
Qed.

Lemma forEach_only_props {A : Type} (f : A -> nat -> M unit) (l : list A) :
  (forall x i s, only_props s (f x i s).2) ->
  forall i s, only_props s (forEach l i f s).2.
Proof.
  intros Hf. induction l as [|x l IH]; intros i s; simpl.
  - apply only_props_refl.
  - unfold bind. pose proof (Hf x i s) as H1. destruct (f x i s) as [[[]|e] s1]; cbn [snd] in *.
    + eapply only_props_trans; [exact H1|apply IH].
    + exact H1.
Qed.

Lemma only_io_refl (s : Device) : only_io s s.
Proof. repeat split. Qed.

Lemma socket_send_only_io (buf : string) (p : option Z) (a : option string) (s : Device) :
  only_io s (socket_send buf p a s).2.
Proof. unfold socket_send. destruct p; repeat split. Qed.

Lemma sendBindRequest_only_io (s : Device) : only_io s (_sendBindRequest s).2.
Proof.
  unfold _sendBindRequest. run.
  destruct (encrypt _ None); cbn [snd]; [|apply only_io_refl].
  destruct (device.encryptionV2 (this_device s)); run.
  - destruct (encrypt_v2 _ None); run; [|apply only_io_refl].
    unfold socket_send. destruct (device.port (this_device s)); repeat split.
  - unfold socket_send. destruct (device.port (this_device s)); repeat split.
Qed.

Lemma sendRequest_only_io (message : json) (a : option string) (p : option Z) (s : Device) :
  only_io s (_sendRequest message a p s).2.
Proof.
  unfold _sendRequest. run.
  destruct (device.encryptionV2 (this_device s)); run.
  - destruct (encrypt_v2 _ _); run; [|apply only_io_refl]. apply socket_send_only_io.
  - destruct (encrypt _ _); run; [|apply only_io_refl]. apply socket_send_only_io.
Qed.

(** ** The outcomes of handling a decrypted package *)

Lemma is_str_true (v : jsval) (lit : string) : is_str v lit = true -> v = Some (JStr lit).
Proof.
  destruct v as [[]|]; simpl; try discriminate.
  intros H. apply String.eqb_eq in H. congruence.
Qed.

Lemma handle_pack_handled (mf : list (string * json)) (pack : json) (ri : rinfo.t)
    (s : Device) :
  let s' := (try_catch (handle_pack (JObj mf) pack ri) (fun _ => call onError) s).2 in
  this_options s' = this_options s /\ handled s s'.
Proof.
  run. destruct (get (Some pack) "t") as [t|e] eqn:Ht; run;
    [|split; [reflexivity|apply handled_rejected; reflexivity]].
  destruct (is_str t "dev") eqn:Hdev.
  { apply is_str_true in Hdev. subst t. destruct (get_Some_object _ _ _ Ht) as [pf ->].
    rewrite !get_object.
    assert (Hbind : forall X : Device,
      device.bound (this_device X) = false ->
      called X = called s -> intervals X = intervals s -> this_options X = this_options s ->
      let s' := (let (r, s') := _sendBindRequest X in
                 match r with
                 | Ok a => (Ok a, s')
                 | Throw _ => (Ok tt, with_called (called s' ++ [onError (this_device s')]) s')
                 end).2 in
      this_options s' = this_options s /\ handled s s').
    { intros X Hb Hc Hi Ho. pose proof (sendBindRequest_only_io X) as (Ho' & Hd' & Hc' & Hi').
      destruct (_sendBindRequest X) as [[[]|e] s1]; cbn [snd] in *.
      - split; [congruence|]. apply handled_dev; [congruence|left; congruence|congruence].
      - split; [cbn; congruence|].
        apply handled_dev; cbn; [congruence|right; congruence|congruence]. }
    destruct (announces_v2 (assoc "ver" pf)) as [[|]|e]; run.
    - apply Hbind; reflexivity.
    - apply Hbind; reflexivity.
    - split; [reflexivity|apply handled_rejected; reflexivity]. }
  destruct (is_str t "bindok" && truthy (device.id (this_device s))) eqn:Hbindok.
  { apply andb_prop in Hbindok as [Hb Hid]. apply is_str_true in Hb. subst t.
    destruct (get_Some_object _ _ _ Ht) as [pf ->]. rewrite !get_object. run.
    split; [reflexivity|]. eapply handled_bindok; [exact Hid|reflexivity..]. }
  destruct (is_str t "dat" && device.bound (this_device s)) eqn:Hdat.
  { apply andb_prop in Hdat as [_ Hb].
    destruct (get (Some pack) "cols") as [cols|e]; run;
      [|split; [reflexivity|apply handled_rejected; reflexivity]].
    destruct (array_arg cols) as [l|e]; run;
      [|split; [reflexivity|apply handled_rejected; reflexivity]].
    match goal with |- context [forEach l 0 ?f ?X] =>
      pose proof (forEach_only_props f l (dat_callback_only_props _) 0 X) as [m Hm];
      destruct (forEach l 0 f X) as [[[]|e] s1]; cbn [snd] in *; subst s1
    end.
    - split; [reflexivity|]. eapply (handled_update _ _ m onStatus); [exact Hb|reflexivity..].
    - split; [reflexivity|]. eapply (handled_update _ _ m onError); [exact Hb|reflexivity..]. }
  destruct (is_str t "res" && device.bound (this_device s)) eqn:Hres.
  { apply andb_prop in Hres as [_ Hb].
    destruct (get (Some pack) "opt") as [opt|e]; run;
      [|split; [reflexivity|apply handled_rejected; reflexivity]].
    destruct (array_arg opt) as [l|e]; run;
      [|split; [reflexivity|apply handled_rejected; reflexivity]].
    match goal with |- context [forEach l 0 ?f ?X] =>
      pose proof (forEach_only_props f l (res_callback_only_props _) 0 X) as [m Hm];
      destruct (forEach l 0 f X) as [[[]|e] s1]; cbn [snd] in *; subst s1
    end.
    - split; [reflexivity|]. eapply (handled_update _ _ m onUpdate); [exact Hb|reflexivity..].
    - split; [reflexivity|]. eapply (handled_update _ _ m onError); [exact Hb|reflexivity..]. }
  split; [reflexivity|apply handled_rejected; reflexivity].
Qed.

(** ** Every way a datagram can be handled *)

Lemma handleResponse_handled (msg : string) (ri : rinfo.t) (s : Device) :
  let s' := (_handleResponse msg ri s).2 in
  this_options s' = this_options s /\ (idle s s' \/ handled s s').
Proof.
  destruct (String.eqb (rinfo.address ri) (host (this_options s))) eqn:Haddr.
  - apply String.eqb_eq in Haddr.
    destruct (JSON_parse msg) as [message|e] eqn:Hparse.
    + destruct (decrypt_pack (this_device s) message) as [pack|e] eqn:Hdec.
      * rewrite (handleResponse_decrypted _ _ _ _ _ Haddr Hparse Hdec).
        destruct (decrypt_pack_object _ _ _ Hdec) as [mf ->].
        pose proof (handle_pack_handled mf pack ri
                      (with_logged (logged s ++ ["Received message: "]) s)) as [Ho Hh].
        cbn zeta in Ho, Hh. split; [exact Ho|right].
        destruct Hh as [H1 H2 H3 H4|H1 H2 H3|k H1 H2 H3 H4 H5|m cb H1 H2 H3 H4 H5].
        -- apply handled_rejected; assumption.
        -- apply handled_dev; assumption.
        -- eapply handled_bindok; eassumption.
        -- eapply handled_update; eassumption.
      * rewrite (handleResponse_decrypt_failure _ _ _ _ _ Haddr Hparse Hdec).
        split; [reflexivity|right; apply handled_rejected; reflexivity].
    + rewrite (handleResponse_outer_parse _ _ _ _ Haddr Hparse).
      split; [reflexivity|left; repeat split].
  - apply String.eqb_neq in Haddr. rewrite (handleResponse_other_sender _ _ _ Haddr).
    split; [reflexivity|left; repeat split].
Qed.

Lemma handleResponse_identified_when_bound (msg : string) (ri : rinfo.t) (s : Device) :
  identified_when_bound s -> identified_when_bound (_handleResponse msg ri s).2.
Proof.
  intros HI. pose proof (handleResponse_handled msg ri s) as [_ H]. cbn zeta in H.
  unfold identified_when_bound in *.
  destruct H as [(Hd & _)|[H1 _ _ _|H1 _ _|k H1 H2 _ _ _|m cb H1 H2 _ _ _]].
  - rewrite Hd. exact HI.
  - rewrite H1. exact HI.
  - rewrite H1. discriminate.
  - rewrite H2. intros _. exact H1.
  - rewrite H2. cbn. intros _. auto.
Qed.

Lemma only_io_identified_when_bound (s s' : Device) :
  only_io s s' -> identified_when_bound s -> identified_when_bound s'.
Proof. intros (_ & Hd & _) HI. unfold identified_when_bound. rewrite Hd. exact HI. Qed.

(** ** The invariant of the reachable states *)

Lemma reachable_identified_when_bound (s : Device) :
  reachable cmd s -> identified_when_bound s.
Proof.
  induction 1 as [h u|msg ri s _ IH|s _ IH _|v s _ IH|v u s _ IH|v s _ IH|v s _ IH|v s _ IH].
  - unfold identified_when_bound. cbn. discriminate.
  - apply handleResponse_identified_when_bound, IH.
  - eapply only_io_identified_when_bound; [|exact IH].
    unfold _requestDeviceStatus, bind, get_device. apply sendRequest_only_io.
  - eapply only_io_identified_when_bound; [apply sendRequest_only_io|exact IH].
  - eapply only_io_identified_when_bound; [apply sendRequest_only_io|exact IH].
  - eapply only_io_identified_when_bound; [apply sendRequest_only_io|exact IH].
  - eapply only_io_identified_when_bound; [apply sendRequest_only_io|exact IH].
  - eapply only_io_identified_when_bound; [apply sendRequest_only_io|exact IH].
Qed.

(** ** What the assignments of a loop leave in [props] *)


(** A key that the loop does not assign keeps its value. *)
Lemma assign_props_other (keys : list string) (i : nat) (src : jsval) (d : device.t)
    (k : string) :
  k ∉ keys ->
  device.props (assign keys i src d) !! k = device.props d !! k.
Proof.
  revert i d. induction keys as [|c keys IH]; intros i d Hk; simpl; [reflexivity|].
  apply not_elem_of_cons in Hk as [Hne Hk].
  rewrite IH by exact Hk. cbn. apply lookup_insert_ne. congruence.
Qed.

(** The key at position [j] holds the element at position [j], unless a later
    position assigns the same key again. *)
Lemma assign_props_at (keys : list string) (i : nat) (src : jsval) (d : device.t)
    (j : nat) (key : string) :
  keys !! j = Some key ->
  (forall j', (j < j')%nat -> keys !! j' <> Some key) ->
  device.props (assign keys i src d) !! key = Some (elem src (i + j)).
Proof.
  revert i d j. induction keys as [|c keys IH]; intros i d j Hj Hlast; [discriminate|].
  destruct j as [|j]; simpl in *.
  - injection Hj as ->. rewrite assign_props_other.
    + cbn. rewrite Nat.add_0_r. apply lookup_insert_eq.
    + intros Hin. apply list_elem_of_lookup in Hin as [j' Hj'].
      apply (Hlast (S j')); [lia|exact Hj'].
  - replace (i + S j)%nat with (S i + j)%nat by lia. apply IH; [exact Hj|].
    intros j' Hlt Hj'. apply (Hlast (S j')); [lia|exact Hj'].
Qed.

(** ** The [dat] and [res] branches *)

Lemma handle_pack_dat (message : json) (pack : json) (ri : rinfo.t) (s : Device)
    (cols : list string) (dat : jsval) :
  get (Some pack) "t" = Ok (Some (JStr "dat")) ->
  device.bound (this_device s) = true ->
  get (Some pack) "cols" = Ok (Some (JArr (List.map JStr cols))) ->
  get (Some pack) "dat" = Ok dat ->
  indexable dat = true ->
  try_catch (handle_pack message pack ri) (fun _ => call onError) s =
    let d := assign cols 0 dat (this_device s) in
    (Ok tt,
     mk_Device (this_options s) d (sent s) (called s ++ [onStatus d]) (intervals s)
       (logged s ++ ["Received message with packet %s"])).
Proof.
  intros Ht Hb Hcols Hdat Hidx. run. rewrite Ht, Hcols.
  cbn [is_str String.eqb Ascii.eqb Bool.eqb andb array_arg]. rewrite Hb.
  rewrite (forEach_dat_callback _ _ _ _ _ Hdat Hidx). reflexivity.
Qed.




(** ** The handshake *)

(** [encrypt_v2] and [decrypt_v2] cannot be called without a key: the default
    of their parameter is an identifier that nothing binds. *)
Lemma encrypt_v2_no_key (output : json) :
  encrypt_v2 output None = Throw (ReferenceError "genericKey_v2").
Proof. reflexivity. Qed.

Lemma decrypt_v2_no_key (input tag : jsval) :
  decrypt_v2 input tag None = Throw (ReferenceError "genericKey_v2").
Proof. reflexivity. Qed.

Lemma sendBindRequest_v2 (s : Device) :
  device.encryptionV2 (this_device s) = true ->
  exists e, _sendBindRequest s = (Throw e, s).
Proof.
  intros Hv2. unfold _sendBindRequest. run.
  destruct (encrypt _ None) as [m|e]; [|eauto].
  rewrite Hv2. run. rewrite encrypt_v2_no_key. eauto.
Qed.

Lemma sendBindRequest_legacy (s : Device) (pack : string) (p : Z) :
  device.encryptionV2 (this_device s) = false ->
  encrypt (bind_message (this_device s)) None = Ok pack ->
  device.port (this_device s) = Some p ->
  _sendBindRequest s =
    (Ok tt,
     mk_Device (this_options s) (this_device s)
       (sent s ++ [mk_datagram (JSON_stringify (request 1 pack (Some JNull))) p
                     (device.address (this_device s))])
       (called s) (intervals s)
       ((logged s ++ ["Sending bind with message: %s request: %s"]) ++ ["Sent bind request"])).
Proof.
  intros Hv2 Henc Hport. unfold _sendBindRequest. run.
  fold (bind_message (this_device s)). rewrite Henc, Hv2. run.
  unfold socket_send. rewrite Hport. reflexivity.
Qed.

(** A handshake reply that announces a version 2 firmware: the flag is set
    and the device registered, then the bind request fails. *)
Lemma handle_pack_dev_v2 (message : json) (pf : list (string * json)) (ri : rinfo.t)
    (s : Device) (ver : string) :
  assoc "t" pf = Some (JStr "dev") ->
  assoc "ver" pf = Some (JStr ver) ->
  String.prefix "V2." ver = true ->
  try_catch (handle_pack message (JObj pf) ri) (fun _ => call onError) s =
    let d := identified (assoc "cid" pf) (assoc "name" pf) ri true (this_device s) in
    (Ok tt,
     mk_Device (this_options s) d (sent s) (called s ++ [onError d]) (intervals s)
       ((logged s ++ ["Received message with packet %s"])
          ++ ["Device identified %s, %s, %s, %s"])).
Proof.
  intros Ht Hver Hpre. run. rewrite !get_object, Ht, Hver.
  cbn [is_str String.eqb Ascii.eqb Bool.eqb].
  assert (Hv2 : announces_v2 (Some (JStr ver)) = Ok true).
  { unfold announces_v2. cbn [startsWith]. rewrite Hpre.
    destruct ver; [discriminate|reflexivity]. }
  rewrite Hv2. cbn [set_encryptionV2 device.key device.encryptionV2].
  match goal with |- context [_sendBindRequest ?X] =>
    destruct (sendBindRequest_v2 X eq_refl) as [e ->] end.
  reflexivity.
Qed.

(** A handshake reply of a version 1 firmware, or one without [ver]. *)
Lemma handle_pack_dev_legacy (mf pf : list (string * json)) (ri : rinfo.t)
    (s : Device) (pack : string) :
  assoc "t" pf = Some (JStr "dev") ->
  announces_v2 (assoc "ver" pf) = Ok false ->
  device.encryptionV2 (this_device s) = false ->
  let d := identified (assoc "cid" mf) (assoc "name" pf) ri false (this_device s) in
  encrypt (bind_message d) None = Ok pack ->
  try_catch (handle_pack (JObj mf) (JObj pf) ri) (fun _ => call onError) s =
    (Ok tt,
     mk_Device (this_options s) d
       (sent s ++ [mk_datagram (JSON_stringify (request 1 pack (Some JNull)))
                     (rinfo.port ri) (Some (rinfo.address ri))])
       (called s) (intervals s)
       ((((logged s ++ ["Received message with packet %s"])
            ++ ["Device identified %s, %s, %s, %s"])
           ++ ["Sending bind with message: %s request: %s"]) ++ ["Sent bind request"])).
Proof.
  intros Ht Hver Hv2 d Henc. subst d. run. rewrite !get_object, Ht.
  cbn [is_str String.eqb Ascii.eqb Bool.eqb].
  rewrite Hver. cbn beta iota.
  match goal with |- context [_sendBindRequest ?X] =>
    rewrite (sendBindRequest_legacy X pack (rinfo.port ri))
  end.
  - run. unfold identified. rewrite Hv2. reflexivity.
  - exact Hv2.
  - run. unfold identified in Henc. rewrite Hv2. exact Henc.
  - reflexivity.
Qed.


(** ** What [_sendRequest] sends *)

Lemma sendRequest_legacy (message : json) (s : Device) (pack : string) (p : Z) :
  device.encryptionV2 (this_device s) = false ->
  encrypt message (device.key (this_device s)) = Ok pack ->
  device.port (this_device s) = Some p ->
  _sendRequest message None None s =
    (Ok tt,
     with_sent (sent s ++ [mk_datagram (JSON_stringify (sealed_request pack None)) p
                             (device.address (this_device s))]) s).
Proof.
  intros Hv2 Henc Hport. unfold _sendRequest. run. rewrite Hv2, Henc. run.
  unfold socket_send. rewrite Hport. reflexivity.
Qed.

Lemma sendRequest_v2 (message : json) (s : Device) (pack tag : string) (p : Z) :
  device.encryptionV2 (this_device s) = true ->
  encrypt_v2 message (device.key (this_device s)) = Ok (pack, tag) ->
  tag <> "" ->
  device.port (this_device s) = Some p ->
  _sendRequest message None None s =
    (Ok tt,
     with_sent (sent s ++ [mk_datagram (JSON_stringify (sealed_request pack (Some tag))) p
                             (device.address (this_device s))]) s).
Proof.
  intros Hv2 Henc Htag Hport. unfold _sendRequest. run. rewrite Hv2, Henc. run.
  unfold socket_send. rewrite Hport. unfold request, sealed_request. cbn [fst snd truthy].
  destruct (String.eqb_spec tag ""); [contradiction|]. reflexivity.
Qed.

(** A tick of the timer sends the status request to the device. *)
Lemma requestDeviceStatus_legacy (s : Device) (pack : string) (p : Z) :
  device.encryptionV2 (this_device s) = false ->
  encrypt (status_message cmd (this_device s)) (device.key (this_device s)) = Ok pack ->
  device.port (this_device s) = Some p ->
  _requestDeviceStatus cmd s =
    (Ok tt,
     with_sent (sent s ++ [mk_datagram (JSON_stringify (sealed_request pack None)) p
                             (device.address (this_device s))]) s).
Proof.
  intros Hv2 Henc Hport. unfold _requestDeviceStatus. run.
  fold (status_message cmd (this_device s)).
  unfold _sendRequest. run. rewrite Hv2, Henc, Hport. run.
  destruct (device.address (this_device s)); reflexivity.
Qed.

(** * The claims *)

(** C9. A datagram whose sender address differs from the configured device
    address is discarded: the handler returns, and apart from one more line
    in the log the [Device] is as it was: no field of [this.device] is
    written, nothing is sent, no callback is called, no timer is started,
    whatever the datagram contains. *)
Theorem C9_other_sender_discarded (msg : string) (ri : rinfo.t) (s : Device) :
  rinfo.address ri <> host (this_options s) ->
  let r := _handleResponse msg ri s in
  fst r = Ok tt /\
  this_options (snd r) = this_options s /\
  this_device (snd r) = this_device s /\
  sent (snd r) = sent s /\
  called (snd r) = called s /\
  intervals (snd r) = intervals s /\
  logged (snd r) = logged s ++ ["Received response from unexpected address %s"].
Proof.
  intros Hne. cbn zeta. rewrite (handleResponse_other_sender _ _ _ Hne).
  repeat split.
Qed.

(** C10. In every reachable state a bound device has an identity (a truthy
    [id], which only [_setDevice] writes, and it unbinds); and a [bindok]
    package that arrives while [device.id] is not set changes nothing in the
    device (so [bound] and [key] stay), sends nothing, starts no timer, and
    calls [onError]. *)
Theorem C10_bound_implies_identified :
  (forall s : Device,
     reachable cmd s ->
     device.bound (this_device s) = true ->
     truthy (device.id (this_device s)) = true) /\
  (forall (s : Device) (msg : string) (ri : rinfo.t) (message pack : json),
     rinfo.address ri = host (this_options s) ->
     JSON_parse msg = Ok message ->
     decrypt_pack (this_device s) message = Ok pack ->
     get (Some pack) "t" = Ok (Some (JStr "bindok")) ->
     truthy (device.id (this_device s)) = false ->
     let r := _handleResponse msg ri s in
     fst r = Ok tt /\
     this_device (snd r) = this_device s /\
     sent (snd r) = sent s /\
     intervals (snd r) = intervals s /\
     called (snd r) = called s ++ [onError (this_device s)]).
Proof.
  split.
  - intros s Hs. apply (reachable_identified_when_bound s Hs).
  - intros s msg ri message pack Haddr Hparse Hdec Ht Hid. cbn zeta.
    rewrite (handleResponse_decrypted _ _ _ _ _ Haddr Hparse Hdec).
    rewrite (handle_pack_unexpected _ _ _ _ _ Ht); cbn [this_device with_logged];
      rewrite ?Hid; try reflexivity.
    repeat split.
Qed.



(** C1. What the handler does with a datagram of the device that it cannot
    read. When the package cannot be decrypted or its plaintext is not JSON,
    the handler calls [onError], changes nothing else, and returns. When the
    datagram itself is not JSON, [JSON.parse] runs before the [try] block:
    the exception leaves the handler, and [onError] is not called. *)
Theorem C1_unreadable_datagram (s : Device) (msg : string) (ri : rinfo.t) :
  rinfo.address ri = host (this_options s) ->
  let r := _handleResponse msg ri s in
  (forall (message : json) (e : error),
     JSON_parse msg = Ok message ->
     decrypt_pack (this_device s) message = Throw e ->
     fst r = Ok tt /\
     this_device (snd r) = this_device s /\
     sent (snd r) = sent s /\
     intervals (snd r) = intervals s /\
     called (snd r) = called s ++ [onError (this_device s)]) /\
  (forall e : error,
     JSON_parse msg = Throw e ->
     fst r = Throw e /\ snd r = s).
Proof.
  intros Haddr. cbn zeta. split.
  - intros message e Hparse Hdec.
    rewrite (handleResponse_decrypt_failure _ _ _ _ _ Haddr Hparse Hdec). repeat split.
  - intros e Hparse. rewrite (handleResponse_outer_parse _ _ _ _ Haddr Hparse). split; reflexivity.
Qed.

(** C2. Under the authenticated scheme there is no default key: the default
    of the [key] parameter of [encrypt_v2] and [decrypt_v2] is the identifier
    [genericKey_v2], which is bound nowhere (the parameter of the factory is
    [defaultKey_v2]), so a call without a key throws a [ReferenceError]. The
    legacy pair does fall back to its default key. *)
Theorem C2_no_default_key_v2 :
  (forall output : json,
     encrypt_v2 output None = Throw (ReferenceError "genericKey_v2")) /\
  (forall input tag : jsval,
     decrypt_v2 input tag None = Throw (ReferenceError "genericKey_v2")) /\
  assoc "defaultKey_v2" scope = Some (JStr defaultKey_v2) /\
  assoc "genericKey_v2" scope = None /\
  (forall output : json,
     encrypt output None = encrypt output (Some (JStr defaultKey))) /\
  (forall input : jsval,
     decrypt input None = decrypt input (Some (JStr defaultKey))).
Proof. repeat split. Qed.

(** C3. On a [bindok] package, with the identity established, the handler
    sets [bound], stores [pack.key], starts one timer of period
    [updateInterval] (10000 ms unless configured) and calls [onConnected].
    It sends nothing: the first status request is the first tick of the
    timer, although the log says that it has been sent. A tick runs
    [_requestDeviceStatus], which (on a legacy session) sends the status
    request for all codes to the device. *)
Theorem C3_bindok_starts_timer_only
    (s : Device) (msg : string) (ri : rinfo.t) (message pack : json) (key : jsval) :
  rinfo.address ri = host (this_options s) ->
  JSON_parse msg = Ok message ->
  decrypt_pack (this_device s) message = Ok pack ->
  get (Some pack) "t" = Ok (Some (JStr "bindok")) ->
  get (Some pack) "key" = Ok key ->
  truthy (device.id (this_device s)) = true ->
  let r := _handleResponse msg ri s in
  fst r = Ok tt /\
  this_device (snd r) = set_key key (set_bound true (this_device s)) /\
  intervals (snd r) = intervals s ++ [updateInterval (this_options s)] /\
  sent (snd r) = sent s /\
  called (snd r) = called s ++ [onConnected (this_device (snd r))] /\
  logged (snd r) =
    logged s ++ ["Received message: "; "Received message with packet %s";
                 "Binding confirmed"; "Sent first device status request"] /\
  (forall host : string, updateInterval (this_options (new_Device host None)) = 10000) /\
  (forall (s1 : Device) (request : string) (p : Z),
     device.encryptionV2 (this_device s1) = false ->
     encrypt (status_message cmd (this_device s1)) (device.key (this_device s1))
     = Ok request ->
     device.port (this_device s1) = Some p ->
     _requestDeviceStatus cmd s1 =
       (Ok tt,
        with_sent (sent s1 ++ [mk_datagram (JSON_stringify (sealed_request request None)) p
                                 (device.address (this_device s1))]) s1)).
Proof.
  intros Haddr Hparse Hdec Ht Hkey Hid. cbn zeta.
  rewrite (handleResponse_decrypted _ _ _ _ _ Haddr Hparse Hdec).
  destruct (decrypt_pack_object _ _ _ Hdec) as [mf ->].
  rewrite (handle_pack_bindok mf pack ri (with_logged (logged s ++ ["Received message: "]) s)
             key Ht Hid Hkey).
  cbn [fst snd this_device with_logged called sent intervals logged this_options].
  rewrite <- !app_assoc. repeat split. apply requestDeviceStatus_legacy.
Qed.

(** C5. A handshake reply whose [ver] begins with ["V2."] sets
    [encryptionV2] and registers the device, and then the bind request is not
    sent: sealing it calls [encrypt_v2] without a key, which throws, and
    [onError] is called. A reply with another [ver], or none, leaves the flag
    as it is, and on a legacy session the bind request goes out to the sender
    of the reply, in an envelope without [tag]. Every later request goes
    through [_sendRequest]: with the flag set (and a key stored) its envelope
    carries the tag, without the flag it carries none. *)
Theorem C5_handshake_selects_scheme
    (s : Device) (msg : string) (ri : rinfo.t) (mf pf : list (string * json)) :
  rinfo.address ri = host (this_options s) ->
  JSON_parse msg = Ok (JObj mf) ->
  decrypt_pack (this_device s) (JObj mf) = Ok (JObj pf) ->
  assoc "t" pf = Some (JStr "dev") ->
  let r := _handleResponse msg ri s in
  (forall ver : string,
     assoc "ver" pf = Some (JStr ver) ->
     String.prefix "V2." ver = true ->
     fst r = Ok tt /\
     this_device (snd r) =
       identified (assoc "cid" pf) (assoc "name" pf) ri true (this_device s) /\
     sent (snd r) = sent s /\
     called (snd r) = called s ++ [onError (this_device (snd r))]) /\
  (forall pack : string,
     announces_v2 (assoc "ver" pf) = Ok false ->
     device.encryptionV2 (this_device s) = false ->
     let d := identified (assoc "cid" mf) (assoc "name" pf) ri false (this_device s) in
     encrypt (bind_message d) None = Ok pack ->
     fst r = Ok tt /\
     this_device (snd r) = d /\
     sent (snd r) =
       sent s ++ [mk_datagram
                    (JSON_stringify
                       (JObj [("cid", JStr "app"); ("i", JNum 1); ("t", JStr "pack");
                              ("uid", JNum 0); ("pack", JStr pack)]))
                    (rinfo.port ri) (Some (rinfo.address ri))] /\
     called (snd r) = called s) /\
  (forall (s1 : Device) (message : json) (pack tag : string) (p : Z),
     device.encryptionV2 (this_device s1) = true ->
     encrypt_v2 message (device.key (this_device s1)) = Ok (pack, tag) ->
     tag <> "" ->
     device.port (this_device s1) = Some p ->
     _sendRequest message None None s1 =
       (Ok tt,
        with_sent (sent s1 ++ [mk_datagram (JSON_stringify (sealed_request pack (Some tag)))
                                 p (device.address (this_device s1))]) s1)) /\
  (forall (s1 : Device) (message : json) (pack : string) (p : Z),
     device.encryptionV2 (this_device s1) = false ->
     encrypt message (device.key (this_device s1)) = Ok pack ->
     device.port (this_device s1) = Some p ->
     _sendRequest message None None s1 =
       (Ok tt,
        with_sent (sent s1 ++ [mk_datagram (JSON_stringify (sealed_request pack None))
                                 p (device.address (this_device s1))]) s1)).
Proof.
  intros Haddr Hparse Hdec Ht. cbn zeta.
  rewrite (handleResponse_decrypted _ _ _ _ _ Haddr Hparse Hdec).
  split; [|split; [|split; [intros s1 message pack tag p; apply sendRequest_v2
                           |intros s1 message pack p; apply sendRequest_legacy]]].
  - intros ver Hver Hpre. rewrite (handle_pack_dev_v2 _ _ _ (with_logged (logged s ++ ["Received message: "]) s)
               ver Ht Hver Hpre).
    repeat split.
  - intros pack Hver Hv2 Henc.
    rewrite (handle_pack_dev_legacy mf pf ri (with_logged (logged s ++ ["Received message: "]) s)
               pack Ht Hver Hv2 Henc). repeat split.
Qed.

(** ** Requests and responses while the device is not bound *)



(** ** The round trips of the two schemes *)

Section RoundTrip.
Context {L : RuntimeLaws R}.

Lemma utf8_decode_encode (s : string) : utf8_decode (utf8_encode s) = s.
Proof. apply string_of_list_byte_of_string. Qed.

(** C8. Under the legacy scheme, for every payload [P] that JSON can carry
    (parsing its serialization gives it back) and every key [K] of 128 bits,
    [encrypt(P, K)] returns a package, and [decrypt] of an envelope that
    holds this package, with the same key, returns [P]. *)
Theorem C8_legacy_round_trip (P : json) (K : string) :
  length (utf8_encode K) = 16%nat ->
  JSON_parse (JSON_stringify P) = Ok P ->
  exists pack : string,
    encrypt P (Some (JStr K)) = Ok pack /\
    forall input : jsval,
      get input "pack" = Ok (Some (JStr pack)) ->
      decrypt input (Some (JStr K)) = Ok P.
Proof.
  intros HK HP.
  destruct (aes_128_ecb_encrypt_ok (utf8_encode K) (utf8_encode (JSON_stringify P)) HK)
    as [c Hc].
  exists (base64_encode c). split.
  - unfold encrypt. cbn [default_param string_arg rbind]. rewrite Hc. reflexivity.
  - intros input Hin. unfold decrypt. cbn [default_param string_arg rbind].
    rewrite Hin. cbn [string_arg rbind]. rewrite base64_decode_encode.
    rewrite (aes_128_ecb_decrypt_encrypt _ _ _ Hc). cbn [rbind].
    rewrite utf8_decode_encode. exact HP.
Qed.

Context {T : AuthTagLaws R}.

(** C7. Under the authenticated scheme, for every payload [P] that JSON can
    carry and every key [K] of 128 bits, [encrypt_v2(P, K)] returns a package
    and a tag, and [decrypt_v2] of an envelope that holds this package, with
    this tag and the same key, returns [P]. With another tag it returns [P]
    as well when that tag decodes to the first 4, 8, 12, 13, 14 or 15 bytes
    of the tag ([decrypt_v2] does not fix the length of the tag); with any
    other tag, so with every other tag of the full length, it throws instead
    of returning a payload. *)
Theorem C7_authenticated_round_trip (P : json) (K : string) :
  length (utf8_encode K) = 16%nat ->
  JSON_parse (JSON_stringify P) = Ok P ->
  exists pack tag : string,
    encrypt_v2 P (Some (JStr K)) = Ok (pack, tag) /\
    length (base64_decode tag) = 16%nat /\
    forall input : jsval,
      get input "pack" = Ok (Some (JStr pack)) ->
      decrypt_v2 input (Some (JStr tag)) (Some (JStr K)) = Ok P /\
      forall tag' : string,
        let t := base64_decode tag in
        let t' := base64_decode tag' in
        (valid_tag_length (length t') = true ->
         t' = firstn (length t') t ->
         decrypt_v2 input (Some (JStr tag')) (Some (JStr K)) = Ok P) /\
        (valid_tag_length (length t') = false \/ t' <> firstn (length t') t ->
         exists e : error,
           decrypt_v2 input (Some (JStr tag')) (Some (JStr K)) = Throw e) /\
        (length t' = 16%nat -> t' <> t ->
         exists e : error,
           decrypt_v2 input (Some (JStr tag')) (Some (JStr K)) = Throw e).
Proof.
  intros HK HP.
  destruct (aes_128_gcm_encrypt_ok (utf8_encode K) iv_v2 aad_v2
              (utf8_encode (JSON_stringify P)) HK eq_refl) as (c & t & Hc & Ht).
  exists (base64_encode c), (base64_encode t). split; [|split].
  - unfold encrypt_v2. cbn [default_param string_arg rbind]. rewrite Hc. reflexivity.
  - rewrite base64_decode_encode. exact Ht.
  - intros input Hin. split.
    + unfold decrypt_v2. cbn [default_param string_arg rbind].
      rewrite Hin. cbn [string_arg rbind]. rewrite !base64_decode_encode.
      rewrite (aes_128_gcm_decrypt_encrypt _ _ _ _ _ _ Hc). cbn [rbind].
      rewrite utf8_decode_encode. exact HP.
    + intros tag'. cbn zeta. rewrite base64_decode_encode.
      assert (Hrefused : valid_tag_length (length (base64_decode tag')) = false \/
                         base64_decode tag' <> firstn (length (base64_decode tag')) t ->
                         exists e : error,
                           decrypt_v2 input (Some (JStr tag')) (Some (JStr K)) = Throw e).
      { intros Hbad.
        destruct (aes_128_gcm_decrypt_refused _ _ _ _ _ _ _ Hc Hbad) as [e He].
        exists e. unfold decrypt_v2. cbn [default_param string_arg rbind].
        rewrite Hin. cbn [string_arg rbind]. rewrite base64_decode_encode, He.
        reflexivity. }
      split; [|split].
      * intros Hlen Hpre. unfold decrypt_v2. cbn [default_param string_arg rbind].
        rewrite Hin. cbn [string_arg rbind]. rewrite base64_decode_encode.
        rewrite (aes_128_gcm_decrypt_accepted _ _ _ _ _ _ _ Hc Hlen Hpre). cbn [rbind].
        rewrite utf8_decode_encode. exact HP.
      * exact Hrefused.
      * intros Hlen Hne. apply Hrefused. right. rewrite Hlen, <- Ht, firstn_all.
        exact Hne.
Qed.

End RoundTrip.

End Properties.

(** * More properties of the driver *)

Section More.
Context {R : Runtime} (cmd : commandEnums).
Import encryptionService.

Ltac run :=
  unfold handle_pack, _setDevice, _confirmBinding, try_catch, bind, lift, get_device, log,
    call, get_options, modify_device, setInterval, ret;
  cbn [fst snd this_options this_device sent called intervals logged
       with_device with_sent with_called with_intervals with_logged].

(** ** What one datagram does *)

Lemma with_device_same (s : Device) :
  with_device (set_props (device.props (this_device s)) (this_device s)) s = s.
Proof. destruct s as [o [] ? ? ? ?]; reflexivity. Qed.

(** A loop of assignments changes at most the properties, whether it runs to
    its end or throws on the way. *)
Lemma forEach_dat_callback_cases (pack : jsval) (cols : list json) (s : Device) :
  exists r m, forEach cols 0 (dat_callback pack) s
              = (r, with_device (set_props m (this_device s)) s).
Proof.
  pose proof (forEach_only_props _ cols (dat_callback_only_props pack) 0%nat s) as [m Hm].
  destruct (forEach cols 0 (dat_callback pack) s) as [r s1]. cbn [snd] in Hm. subst s1.
  exists r, m. reflexivity.
Qed.

Lemma forEach_res_callback_cases (pack : jsval) (opt : list json) (s : Device) :
  exists r m, forEach opt 0 (res_callback pack) s
              = (r, with_device (set_props m (this_device s)) s).
Proof.
  pose proof (forEach_only_props _ opt (res_callback_only_props pack) 0%nat s) as [m Hm].
  destruct (forEach opt 0 (res_callback pack) s) as [r s1]. cbn [snd] in Hm. subst s1.
  exists r, m. reflexivity.
Qed.

(** The bind request, once the handshake has recorded where to send it. *)
Lemma sendBindRequest_cases (s : Device) (p : Z) :
  device.port (this_device s) = Some p ->
  (exists e, _sendBindRequest s = (Throw e, s)) \/
  (device.encryptionV2 (this_device s) = false /\
   exists pack,
     encrypt (bind_message (this_device s)) None = Ok pack /\
     _sendBindRequest s =
       (Ok tt,
        mk_Device (this_options s) (this_device s)
          (sent s ++ [mk_datagram (JSON_stringify (request 1 pack (Some JNull))) p
                        (device.address (this_device s))])
          (called s) (intervals s)
          ((logged s ++ ["Sending bind with message: %s request: %s"])
             ++ ["Sent bind request"]))).
Proof.
  intros Hport.
  destruct (device.encryptionV2 (this_device s)) eqn:Hv2.
  - left. apply sendBindRequest_v2. exact Hv2.
  - destruct (encrypt (bind_message (this_device s)) None) as [pack|e] eqn:Henc.
    + right. split; [reflexivity|]. exists pack. split; [reflexivity|].
      apply sendBindRequest_legacy; assumption.
    + left. exists e. unfold _sendBindRequest. run.
      fold (bind_message (this_device s)). rewrite Henc. reflexivity.
Qed.

Lemma handle_pack_outcome (mf : list (string * json)) (pack : json) (ri : rinfo.t)
    (s : Device) :
  rinfo.address ri = host (this_options s) ->
  let s' := (try_catch (handle_pack (JObj mf) pack ri) (fun _ => call onError) s).2 in
  this_options s' = this_options s /\ outcome ri s s'.
Proof.
  intros Haddr.
  run. destruct (get (Some pack) "t") as [t|e] eqn:Ht; run;
    [|split; [reflexivity|apply outcome_rejected; reflexivity]].
  destruct (is_str t "dev") eqn:Hdev.
  { apply is_str_true in Hdev. subst t. destruct (get_Some_object _ _ _ Ht) as [pf ->].
    rewrite !get_object.
    assert (Hbind : forall (cid name : jsval) (v2 : bool) (l : list string),
      (device.encryptionV2 (this_device s) = true -> v2 = true) ->
      let X := mk_Device (this_options s) (identified cid name ri v2 (this_device s))
                 (sent s) (called s) (intervals s) l in
      let s' := (let (r, s') := _sendBindRequest X in
                 match r with
                 | Ok a => (Ok a, s')
                 | Throw _ => (Ok tt, with_called (called s' ++ [onError (this_device s')]) s')
                 end).2 in
      this_options s' = this_options s /\ outcome ri s s').
    { intros cid name v2 l Hv2 X.
      destruct (sendBindRequest_cases X (rinfo.port ri) eq_refl)
        as [[e ->]|(Hflag & bp & Henc & ->)]; cbn [snd].
      - split; [reflexivity|].
        apply (outcome_handshake_failed _ _ _ cid name v2); try reflexivity; assumption.
      - split; [reflexivity|]. cbn in Hflag. subst v2.
        apply (outcome_handshake _ _ _ cid name bp); try reflexivity; try assumption.
        destruct (device.encryptionV2 (this_device s)); [|reflexivity].
        discriminate (Hv2 eq_refl). }
    destruct (announces_v2 (assoc "ver" pf)) as [[|]|e]; run.
    - apply (Hbind (assoc "cid" pf) (assoc "name" pf) true). reflexivity.
    - pose proof (Hbind (assoc "cid" mf) (assoc "name" pf)
                    (device.encryptionV2 (this_device s))) as H.
      unfold identified in H. unfold identified. apply H. auto.
    - split; [reflexivity|apply outcome_rejected; reflexivity]. }
  destruct (is_str t "bindok" && truthy (device.id (this_device s))) eqn:Hbindok.
  { apply andb_prop in Hbindok as [Hb Hid]. apply is_str_true in Hb. subst t.
    destruct (get_Some_object _ _ _ Ht) as [pf ->]. rewrite !get_object. run.
    split; [reflexivity|]. eapply outcome_bindok; [exact Hid|reflexivity..]. }
  destruct (is_str t "dat" && device.bound (this_device s)) eqn:Hdat.
  { apply andb_prop in Hdat as [_ Hb].
    destruct (get (Some pack) "cols") as [cols|e]; run;
      [|split; [reflexivity|apply outcome_rejected; reflexivity]].
    destruct (array_arg cols) as [l|e]; run;
      [|split; [reflexivity|apply outcome_rejected; reflexivity]].
    match goal with |- context [forEach l 0 ?f ?X] =>
      destruct (forEach_dat_callback_cases (Some pack) l X) as ([[]|e] & m & ->)
    end; cbn [snd].
    - split; [reflexivity|].
      eapply (outcome_update _ _ _ m onStatus);
        [exact Hb|reflexivity|reflexivity|auto|reflexivity..].
    - split; [reflexivity|].
      eapply (outcome_update _ _ _ m onError);
        [exact Hb|reflexivity|reflexivity|auto|reflexivity..]. }
  destruct (is_str t "res" && device.bound (this_device s)) eqn:Hres.
  { apply andb_prop in Hres as [_ Hb].
    destruct (get (Some pack) "opt") as [opt|e]; run;
      [|split; [reflexivity|apply outcome_rejected; reflexivity]].
    destruct (array_arg opt) as [l|e]; run;
      [|split; [reflexivity|apply outcome_rejected; reflexivity]].
    match goal with |- context [forEach l 0 ?f ?X] =>
      destruct (forEach_res_callback_cases (Some pack) l X) as ([[]|e] & m & ->)
    end; cbn [snd].
    - split; [reflexivity|].
      eapply (outcome_update _ _ _ m onUpdate);
        [exact Hb|reflexivity|reflexivity|auto|reflexivity..].
    - split; [reflexivity|].
      eapply (outcome_update _ _ _ m onError);
        [exact Hb|reflexivity|reflexivity|auto|reflexivity..]. }
  split; [reflexivity|apply outcome_rejected; reflexivity].
Qed.

Lemma handleResponse_outcome (msg : string) (ri : rinfo.t) (s : Device) :
  let s' := (_handleResponse msg ri s).2 in
  this_options s' = this_options s /\ outcome ri s s'.
Proof.
  destruct (String.eqb (rinfo.address ri) (host (this_options s))) eqn:Haddr.
  - apply String.eqb_eq in Haddr.
    destruct (JSON_parse msg) as [message|e] eqn:Hparse.
    + destruct (decrypt_pack (this_device s) message) as [pack|e] eqn:Hdec.
      * rewrite (handleResponse_decrypted _ _ _ _ _ Haddr Hparse Hdec).
        destruct (decrypt_pack_object _ _ _ Hdec) as [mf ->].
        pose proof (handle_pack_outcome mf pack ri
                      (with_logged (logged s ++ ["Received message: "]) s) Haddr) as [Ho Hh].
        cbn zeta in Ho, Hh. split; [exact Ho|].
        destruct Hh as [H|H1 H2 H3 H4|c n v H0 H1 H2 H3 H4 H5|c n p H0 H1 H2 H3 H4 H5 H6
                       |k H1 H2 H3 H4 H5|m cb H1 H2 H3 H4 H5 H6].
        -- apply outcome_ignored. exact H.
        -- apply outcome_rejected; assumption.
        -- eapply outcome_handshake_failed; eassumption.
        -- eapply outcome_handshake; eassumption.
        -- eapply outcome_bindok; eassumption.
        -- eapply outcome_update; eassumption.
      * rewrite (handleResponse_decrypt_failure _ _ _ _ _ Haddr Hparse Hdec).
        split; [reflexivity|apply outcome_rejected; reflexivity].
    + rewrite (handleResponse_outer_parse _ _ _ _ Haddr Hparse).
      split; [reflexivity|apply outcome_ignored; repeat split].
  - apply String.eqb_neq in Haddr. rewrite (handleResponse_other_sender _ _ _ Haddr).
    split; [reflexivity|apply outcome_ignored; repeat split].
Qed.



(** X1. Whatever datagram it is given, the handler sends nothing, or exactly
    one datagram: the bind request, sealed by the legacy scheme with the
    default key, in an envelope without [tag], to the address and port that
    the datagram came from; and it does so only when the datagram came from
    the configured host and has left the device unbound, on the legacy
    scheme. *)
Theorem handler_sends_only_bind_requests (msg : string) (ri : rinfo.t) (s : Device) :
  let s' := snd (_handleResponse msg ri s) in
  sent s' = sent s \/
  exists pack : string,
    encrypt (bind_message (this_device s')) None = Ok pack /\
    sent s' =
      sent s ++ [mk_datagram
                   (JSON_stringify
                      (JObj [("cid", JStr "app"); ("i", JNum 1); ("t", JStr "pack");
                             ("uid", JNum 0); ("pack", JStr pack)]))
                   (rinfo.port ri) (Some (rinfo.address ri))] /\
    rinfo.address ri = host (this_options s) /\
    device.bound (this_device s') = false /\
    device.encryptionV2 (this_device s') = false.
Proof.
  cbn zeta. pose proof (handleResponse_outcome msg ri s) as [_ H]. cbn zeta in H.
  destruct H as [(_ & H & _)|_ H _ _|c n v _ _ _ H _ _|c n p H0 H1 H2 H3 H4 _ _
                |k _ _ H _ _|m cb _ _ H _ _ _]; try (left; exact H).
  right. exists p. split; [exact H3|]. split; [exact H4|]. split; [exact H0|].
  rewrite H2. split; reflexivity.
Qed.

(** X2. The flag [encryptionV2] is never cleared: once it is set, it stays
    set whatever datagram is handled (also a handshake reply of a version 1
    firmware), and from then on the handler sends nothing at all, since the
    bind request of such a session is never sent. *)
Theorem encryptionV2_is_never_cleared (msg : string) (ri : rinfo.t) (s : Device) :
  device.encryptionV2 (this_device s) = true ->
  let s' := snd (_handleResponse msg ri s) in
  device.encryptionV2 (this_device s') = true /\ sent s' = sent s.
Proof.
  intros Hv2. cbn zeta. pose proof (handleResponse_outcome msg ri s) as [_ H]. cbn zeta in H.
  destruct H as [(Hd & H & _)|Hd H _ _|c n v _ Hd Hv H _ _|c n p _ H1 _ _ _ _ _
                |k _ Hd H _ _|m cb _ Hd H _ _ _].
  - rewrite Hd. auto.
  - rewrite Hd. auto.
  - rewrite Hd. cbn. auto.
  - congruence.
  - rewrite Hd. cbn. auto.
  - rewrite Hd. cbn. auto.
Qed.



(** ** Requests *)

Lemma sendRequest_step (message : json) (a : option string) (p : option Z) (s : Device) :
  a = None \/ a = device.address (this_device s) ->
  p = None \/ p = device.port (this_device s) ->
  request_step s (snd (_sendRequest message a p s)).
Proof.
  intros Ha Hp. unfold _sendRequest. run.
  assert (Ha' : match a with Some a0 => Some a0 | None => device.address (this_device s) end
                = device.address (this_device s)).
  { destruct Ha as [-> | ->]; [reflexivity|]. destruct (device.address _); reflexivity. }
  assert (Hp' : match p with Some p0 => Some p0 | None => device.port (this_device s) end
                = device.port (this_device s)).
  { destruct Hp as [-> | ->]; [reflexivity|]. destruct (device.port _); reflexivity. }
  rewrite Ha', Hp'.
  assert (Hsend : forall buf,
            request_step s (snd (socket_send buf (device.port (this_device s))
                                   (device.address (this_device s)) s))).
  { intros buf. unfold socket_send. destruct (device.port (this_device s)) as [port|] eqn:Hport.
    - right. exists buf, port. split; [exact Hport|reflexivity].
    - left. reflexivity. }
  destruct (device.encryptionV2 (this_device s)); run.
  - destruct (encrypt_v2 _ _); run; [apply Hsend|left; reflexivity].
  - destruct (encrypt _ _); run; [apply Hsend|left; reflexivity].
Qed.

Lemma requestDeviceStatus_step (s : Device) :
  let s' := snd (_requestDeviceStatus cmd s) in
  only_io s s' /\ request_step s s'.
Proof.
  unfold _requestDeviceStatus, bind, get_device. cbn zeta. split.
  - apply sendRequest_only_io.
  - apply sendRequest_step; right; reflexivity.
Qed.

Lemma perform_step (c : setter) (s : Device) :
  let s' := snd (perform cmd c s) in
  only_io s s' /\ request_step s s'.
Proof.
  cbn zeta. destruct c; cbn [perform];
    unfold setPower, setTemp, setMode, setFanSpeed, setSwingVert, _sendCommand;
    (split; [apply sendRequest_only_io|apply sendRequest_step; left; reflexivity]).
Qed.

(** ** Invariants of the reachable states *)

(** Induction over the reachable states, by kind of step. *)
Lemma reachable_steps (P : Device -> Prop) :
  (forall h u, P (new_Device h u)) ->
  (forall msg ri s, reachable cmd s -> P s -> P (snd (_handleResponse msg ri s))) ->
  (forall s s', reachable cmd s -> P s -> only_io s s' -> request_step s s' -> P s') ->
  forall s, reachable cmd s -> P s.
Proof.
  intros Hnew Hmsg Hreq.
  induction 1 as [h u|msg ri s Hs IH|s Hs IH _|v s Hs IH|v u s Hs IH|v s Hs IH|v s Hs IH
                 |v s Hs IH].
  - apply Hnew.
  - apply Hmsg; assumption.
  - destruct (requestDeviceStatus_step s). eapply Hreq; eassumption.
  - destruct (perform_step (call_setPower v) s). eapply Hreq; eassumption.
  - destruct (perform_step (call_setTemp v u) s). eapply Hreq; eassumption.
  - destruct (perform_step (call_setMode v) s). eapply Hreq; eassumption.
  - destruct (perform_step (call_setFanSpeed v) s). eapply Hreq; eassumption.
  - destruct (perform_step (call_setSwingVert v) s). eapply Hreq; eassumption.
Qed.

Lemma reachable_placed (s : Device) : reachable cmd s -> placed s.
Proof.
  revert s. apply reachable_steps.
  - intros h u. split; cbn; [discriminate|discriminate].
  - intros msg ri s _ [Hid Hp]. pose proof (handleResponse_outcome msg ri s) as [Ho H].
    cbn zeta in *. unfold placed. rewrite Ho.
    destruct H as [(Hd & _)|Hd _ _ _|c n v Ha Hd _ _ _ _|c n p Ha _ Hd _ _ _ _
                  |k _ Hd _ _ _|m cb _ Hd _ _ _ _]; rewrite Hd; cbn.
    + split; assumption.
    + split; assumption.
    + split; [eauto|]. intros _ _. congruence.
    + split; [eauto|]. intros _ _. congruence.
    + split; assumption.
    + split; assumption.
  - intros s s' _ [Hid Hp] (Ho & Hd & _) _. unfold placed. rewrite Ho, Hd. split; assumption.
Qed.

Lemma reachable_options (s : Device) :
  reachable cmd s -> updateInterval (this_options s) <> 0.
Proof.
  revert s. apply reachable_steps.
  - intros h [u|]; cbn; [|discriminate]. destruct (Z.eqb_spec u 0); [discriminate|assumption].
  - intros msg ri s _ IH. pose proof (handleResponse_outcome msg ri s) as [Ho _].
    cbn zeta in Ho. rewrite Ho. exact IH.
  - intros s s' _ IH (Ho & _) _. rewrite Ho. exact IH.
Qed.

(** X4. In every reachable state, every datagram that the [Device] has sent
    (the scan message, bind requests, status requests, commands) went to the
    configured host. *)
Theorem every_datagram_goes_to_the_host (s : Device) :
  reachable cmd s ->
  Forall (fun d => to_address d = Some (host (this_options s))) (sent s).
Proof.
  revert s. apply reachable_steps.
  - intros h u. constructor; [reflexivity|constructor].
  - intros msg ri s _ IH. pose proof (handleResponse_outcome msg ri s) as [Ho H].
    cbn zeta in *. rewrite Ho.
    destruct H as [(_ & H & _)|_ H _ _|c n v _ _ _ H _ _|c n p Ha _ _ _ H _ _
                  |k _ _ H _ _|m cb _ _ H _ _ _]; rewrite H; try exact IH.
    apply Forall_app. split; [exact IH|]. constructor; [|constructor]. cbn. congruence.
  - intros s s' Hs IH (Ho & _) Hreq. rewrite Ho.
    destruct Hreq as [H|(buf & port & Hport & H)]; rewrite H; [exact IH|].
    apply Forall_app. split; [exact IH|]. constructor; [|constructor]. cbn.
    apply (proj2 (reachable_placed s Hs) port Hport).
Qed.

(** X5. In every reachable state there is exactly one timer for each call of
    [onConnected] so far (no timer is ever cleared, so a second bind
    acknowledgement adds a second one), every timer has the configured
    period, and that period is not 0. *)
Theorem one_timer_per_connection (s : Device) :
  reachable cmd s ->
  intervals s =
    replicate (length (List.filter is_onConnected (called s)))
      (updateInterval (this_options s)) /\
  updateInterval (this_options s) <> 0.
Proof.
  intros Hs. split; [|exact (reachable_options s Hs)]. revert s Hs.
  apply reachable_steps.
  - reflexivity.
  - intros msg ri s _ IH. pose proof (handleResponse_outcome msg ri s) as [Ho H].
    cbn zeta in *. rewrite Ho.
    destruct H as [(_ & _ & Hc & Hi)|_ _ Hc Hi|c n v _ _ _ _ Hc Hi|c n p _ _ _ _ _ Hc Hi
                  |k _ _ _ Hc Hi|m cb _ _ _ Hcb Hc Hi]; rewrite Hc, Hi, ?List.filter_app;
      cbn [List.filter is_onConnected]; rewrite ?app_nil_r; try exact IH.
    + rewrite length_app. cbn [length]. rewrite Nat.add_1_r, replicate_S_end, <- IH.
      reflexivity.
    + destruct Hcb as [-> | [-> | ->]]; cbn [List.filter is_onConnected];
        rewrite app_nil_r; exact IH.
  - intros s s' _ IH (Ho & _ & Hc & Hi) _. rewrite Ho, Hc, Hi. exact IH.
Qed.

(** X6. In every reachable state, each call of [onConnected], [onStatus] or
    [onUpdate] so far was given a device that was bound, had an identity and
    had the configured host as its address. *)
Theorem callbacks_see_a_bound_device (s : Device) :
  reachable cmd s ->
  Forall (reports_bound_device (host (this_options s))) (called s).
Proof.
  revert s. apply reachable_steps.
  - constructor.
  - intros msg ri s Hs IH. pose proof (handleResponse_outcome msg ri s) as [Ho H].
    pose proof (reachable_identified_when_bound cmd s Hs) as Hid.
    pose proof (reachable_placed s Hs) as [Hport Haddr].
    unfold identified_when_bound in Hid.
    cbn zeta in *. rewrite Ho.
    destruct H as [(_ & _ & Hc & _)|_ _ Hc _|c n v _ _ _ _ Hc _|c n p _ _ _ _ _ Hc _
                  |k Hk Hd _ Hc _|m cb Hb Hd _ Hcb Hc _]; rewrite Hc; try exact IH;
      apply Forall_app; (split; [exact IH|]); (constructor; [|constructor]);
      try exact I.
    + rewrite Hd. cbn. split; [reflexivity|]. split; [exact Hk|].
      destruct (Hport Hk) as [port Hp]. exact (Haddr port Hp).
    + rewrite Hd.
      assert (Hgoal : device.bound (this_device s) = true /\
                      truthy (device.id (this_device s)) = true /\
                      device.address (this_device s) = Some (host (this_options s))).
      { split; [exact Hb|]. split; [exact (Hid Hb)|].
        destruct (Hport (Hid Hb)) as [port Hp]. exact (Haddr port Hp). }
      destruct Hcb as [-> | [-> | ->]]; [exact Hgoal|exact Hgoal|exact I].
  - intros s s' _ IH (Ho & _ & Hc & _) _. rewrite Ho, Hc. exact IH.
Qed.

(** ** Setters *)

(** X7. A request only sends: a setter, and the status request of a timer,
    leave the device (so what every getter returns), the callbacks called
    and the timers as they are, and send nothing or one datagram, to the
    address and port of the device. *)
Theorem requests_only_send (s : Device) :
  let only_sends (s' : Device) :=
    this_device s' = this_device s /\
    called s' = called s /\
    intervals s' = intervals s /\
    (sent s' = sent s \/
     exists (buf : string) (port : Z),
       device.port (this_device s) = Some port /\
       sent s' = sent s ++ [mk_datagram buf port (device.address (this_device s))]) in
  (forall c : setter, only_sends (snd (perform cmd c s))) /\
  only_sends (snd (_requestDeviceStatus cmd s)).
Proof.
  cbn zeta. split.
  - intros c. destruct (perform_step c s) as [(_ & Hd & Hc & Hi) Hreq].
    repeat split; assumption.
  - destruct (requestDeviceStatus_step s) as [(_ & Hd & Hc & Hi) Hreq].
    repeat split; assumption.
Qed.

Lemma sendRequest_no_port (message : json) (s : Device) :
  device.port (this_device s) = None ->
  exists e, _sendRequest message None None s = (Throw e, s).
Proof.
  intros Hport. unfold _sendRequest. run. rewrite Hport.
  destruct (device.encryptionV2 (this_device s)); run.
  - destruct (encrypt_v2 _ _); run; eauto.
  - destruct (encrypt _ _); run; eauto.
Qed.

(** X8. While the device has no port, that is, before a handshake reply has
    been handled, every setter throws, and the [Device] is left exactly as
    it was: nothing is sent. *)
Theorem setters_throw_before_the_handshake (c : setter) (s : Device) :
  device.port (this_device s) = None ->
  exists e : error, perform cmd c s = (Throw e, s).
Proof.
  intros Hport. destruct c; cbn [perform];
    unfold setPower, setTemp, setMode, setFanSpeed, setSwingVert, _sendCommand;
    apply sendRequest_no_port; exact Hport.
Qed.

(** ** What writes [bound], [key] and [props] *)

(** X9. A bound device becomes unbound only when a handshake reply is
    handled: whenever handling a datagram turns [bound] from true to false,
    the datagram came from the configured host, the device has the address
    and port it came from, its properties are empty (every getter returns
    [undefined]), and it still has the key of the old session. *)
Theorem only_a_handshake_unbinds (msg : string) (ri : rinfo.t) (s : Device) :
  let s' := snd (_handleResponse msg ri s) in
  device.bound (this_device s) = true ->
  device.bound (this_device s') = false ->
  rinfo.address ri = host (this_options s) /\
  device.address (this_device s') = Some (rinfo.address ri) /\
  device.port (this_device s') = Some (rinfo.port ri) /\
  device.key (this_device s') = device.key (this_device s) /\
  device.props (this_device s') = ∅ /\
  getPower cmd (this_device s') = None /\
  getTemp cmd (this_device s') = None /\
  getMode cmd (this_device s') = None /\
  getFanSpeed cmd (this_device s') = None /\
  getSwingVert cmd (this_device s') = None /\
  getRoomTemp cmd (this_device s') = None.
Proof.
  cbn zeta. intros Hb Hb'.
  pose proof (handleResponse_outcome msg ri s) as [_ H]. cbn zeta in H.
  destruct H as [(Hd & _)|Hd _ _ _|c n v Ha Hd _ _ _ _|c n p Ha _ Hd _ _ _ _
                |k _ Hd _ _ _|m cb _ Hd _ _ _ _]; rewrite Hd in Hb' |- *;
    try (cbn in Hb'; congruence); repeat split; assumption.
Qed.

(** X10. The key of the device is written only when a bind acknowledgement
    is accepted: whenever handling a datagram changes [device.key], the
    device had an identity, it is bound afterwards, [onConnected] was called
    and one timer was started. *)
Theorem only_a_bind_acknowledgement_writes_the_key
    (msg : string) (ri : rinfo.t) (s : Device) :
  let s' := snd (_handleResponse msg ri s) in
  device.key (this_device s') <> device.key (this_device s) ->
  truthy (device.id (this_device s)) = true /\
  device.bound (this_device s') = true /\
  called s' = called s ++ [onConnected (this_device s')] /\
  intervals s' = intervals s ++ [updateInterval (this_options s)].
Proof.
  cbn zeta. intros Hk.
  pose proof (handleResponse_outcome msg ri s) as [_ H]. cbn zeta in H.
  destruct H as [(Hd & _)|Hd _ _ _|c n v Ha Hd _ _ _ _|c n p Ha _ Hd _ _ _ _
                |k Hid Hd _ Hc Hi|m cb _ Hd _ _ _ _];
    try (rewrite Hd in Hk; cbn in Hk; congruence).
  rewrite Hd at 1. repeat split; assumption.
Qed.

Lemma getters_get_prop (code : string) (read : device.t -> jsval) (d : device.t) :
  (code, read) ∈ getters cmd -> read d = get_prop d code.
Proof.
  unfold getters. rewrite !elem_of_cons, elem_of_nil.
  intros [H|[H|[H|[H|[H|[H|[]]]]]]]; injection H as -> ->; reflexivity.
Qed.

(** X11. In every reachable state an unbound device has no properties:
    [props] is empty and each of the six getters returns [undefined]. *)
Theorem an_unbound_device_has_no_properties (s : Device) :
  reachable cmd s ->
  device.bound (this_device s) = false ->
  device.props (this_device s) = ∅ /\
  forall (code : string) (read : device.t -> jsval),
    (code, read) ∈ getters cmd -> read (this_device s) = None.
Proof.
  intros Hs Hb.
  assert (H : device.props (this_device s) = ∅).
  { revert s Hs Hb.
    apply (reachable_steps
             (fun s => device.bound (this_device s) = false ->
                       device.props (this_device s) = ∅)).
    - reflexivity.
    - intros msg ri s _ IH. pose proof (handleResponse_outcome msg ri s) as [_ H].
      cbn zeta in *.
      destruct H as [(Hd & _)|Hd _ _ _|c n v _ Hd _ _ _ _|c n p _ _ Hd _ _ _ _
                    |k _ Hd _ _ _|m cb Hb Hd _ _ _ _]; rewrite Hd; cbn; try exact IH;
        try reflexivity; try discriminate.
      intros Hb'. rewrite Hb in Hb'. discriminate.
    - intros s s' _ IH (_ & Hd & _) _. rewrite Hd. exact IH. }
  split; [exact H|]. intros code read Hread.
  rewrite (getters_get_prop code read _ Hread). unfold get_prop. rewrite H. reflexivity.
Qed.

(** ** Edge cases of the handshake reply and of the command response *)

(** X12. A handshake reply whose [ver] is truthy and not a string (a number,
    say) is rejected before the device is registered: [onError] is called,
    and nothing else than the log changes; no bind request is sent. *)
Theorem a_version_that_is_no_string_is_rejected
    (s : Device) (msg : string) (ri : rinfo.t) (message : json)
    (pf : list (string * json)) (ver : json) :
  rinfo.address ri = host (this_options s) ->
  JSON_parse msg = Ok message ->
  decrypt_pack (this_device s) message = Ok (JObj pf) ->
  assoc "t" pf = Some (JStr "dev") ->
  assoc "ver" pf = Some ver ->
  truthy (Some ver) = true ->
  (forall str : string, ver <> JStr str) ->
  _handleResponse msg ri s =
    (Ok tt,
     with_called (called s ++ [onError (this_device s)])
       (with_logged
          (logged s ++ ["Received message: "; "Received message with packet %s"]) s)).
Proof.
  intros Haddr Hparse Hdec Ht Hver Hty Hstr.
  rewrite (handleResponse_decrypted _ _ _ _ _ Haddr Hparse Hdec). run.
  rewrite !get_object, Ht, Hver. cbn [is_str String.eqb Ascii.eqb Bool.eqb].
  unfold announces_v2. rewrite Hty.
  assert (Hs : startsWith (Some ver) "V2." = Throw TypeError).
  { destruct ver; try reflexivity. destruct (Hstr s0). reflexivity. }
  rewrite Hs. rewrite <- app_assoc. reflexivity.
Qed.



(** ** Keys that are not strings *)

Lemma encrypt_bad_key (output k : json) :
  (forall str, k <> JStr str) -> encrypt output (Some k) = Throw TypeError.
Proof. intros Hk. destruct k; try reflexivity. destruct (Hk s). reflexivity. Qed.

Lemma decrypt_bad_key (input : jsval) (k : json) :
  (forall str, k <> JStr str) -> decrypt input (Some k) = Throw TypeError.
Proof. intros Hk. destruct k; try reflexivity. destruct (Hk s). reflexivity. Qed.

Lemma encrypt_v2_bad_key (output k : json) :
  (forall str, k <> JStr str) -> encrypt_v2 output (Some k) = Throw TypeError.
Proof. intros Hk. destruct k; try reflexivity. destruct (Hk s). reflexivity. Qed.

Lemma decrypt_v2_bad_key (input tag : jsval) (k : json) :
  (forall str, k <> JStr str) -> decrypt_v2 input tag (Some k) = Throw TypeError.
Proof.
  intros Hk. unfold decrypt_v2. cbn [default_param rbind].
  destruct (string_arg tag) as [t|e] eqn:Ht; cbn [rbind].
  - destruct k; try reflexivity. destruct (Hk s). reflexivity.
  - destruct tag as [[]|]; cbn in Ht; congruence.
Qed.

(** X14. The default key stands in for a key that is [undefined] only: with
    a key that is given and is not a string ([null], a number, ...), each of
    [encrypt], [decrypt], [encrypt_v2] and [decrypt_v2] throws a
    [TypeError]. *)
Theorem a_key_must_be_a_string (k : json) :
  (forall str : string, k <> JStr str) ->
  (forall output : json, encrypt output (Some k) = Throw TypeError) /\
  (forall input : jsval, decrypt input (Some k) = Throw TypeError) /\
  (forall output : json, encrypt_v2 output (Some k) = Throw TypeError) /\
  (forall input tag : jsval, decrypt_v2 input tag (Some k) = Throw TypeError).
Proof.
  intros Hk. split; [|split; [|split]].
  - intros output. apply encrypt_bad_key, Hk.
  - intros input. apply decrypt_bad_key, Hk.
  - intros output. apply encrypt_v2_bad_key, Hk.
  - intros input tag. apply decrypt_v2_bad_key, Hk.
Qed.

Lemma decrypt_pack_bad_key (d : device.t) (message k : json) :
  device.key d = Some k -> (forall str, k <> JStr str) ->
  exists e, decrypt_pack d message = Throw e.
Proof.
  intros Hkey Hk. unfold decrypt_pack. rewrite Hkey.
  destruct (get (Some message) "tag") as [[t|]|e]; cbn [rbind].
  - rewrite decrypt_v2_bad_key by exact Hk. eauto.
  - rewrite decrypt_bad_key by exact Hk. eauto.
  - eauto.
Qed.

Lemma sendRequest_bad_key (message k : json) (a : option string) (p : option Z)
    (s : Device) :
  device.key (this_device s) = Some k -> (forall str, k <> JStr str) ->
  _sendRequest message a p s = (Throw TypeError, s).
Proof.
  intros Hkey Hk. unfold _sendRequest. run. rewrite Hkey.
  destruct (device.encryptionV2 (this_device s)); run.
  - rewrite encrypt_v2_bad_key by exact Hk. reflexivity.
  - rewrite encrypt_bad_key by exact Hk. reflexivity.
Qed.

(** X15. Once the device holds a key that is not a string (a bind
    acknowledgement stores whatever [pack.key] is), every setter and every
    status request throws a [TypeError] and leaves the [Device] as it was,
    and no datagram changes the device, sends anything or starts a timer:
    at most [onError] is called. *)
Theorem a_key_that_is_no_string_ends_the_session (k : json) (s : Device) :
  device.key (this_device s) = Some k ->
  (forall str : string, k <> JStr str) ->
  (forall c : setter, perform cmd c s = (Throw TypeError, s)) /\
  _requestDeviceStatus cmd s = (Throw TypeError, s) /\
  (forall (msg : string) (ri : rinfo.t),
     let s' := snd (_handleResponse msg ri s) in
     this_device s' = this_device s /\
     sent s' = sent s /\
     intervals s' = intervals s /\
     (called s' = called s \/ called s' = called s ++ [onError (this_device s)])).
Proof.
  intros Hkey Hk. split; [|split].
  - intros c. destruct c; cbn [perform];
      unfold setPower, setTemp, setMode, setFanSpeed, setSwingVert, _sendCommand;
      apply (sendRequest_bad_key _ k); assumption.
  - unfold _requestDeviceStatus, bind, get_device.
    apply (sendRequest_bad_key _ k); assumption.
  - intros msg ri. cbn zeta.
    destruct (String.eqb (rinfo.address ri) (host (this_options s))) eqn:Haddr.
    + apply String.eqb_eq in Haddr.
      destruct (JSON_parse msg) as [message|e] eqn:Hparse.
      * destruct (decrypt_pack_bad_key (this_device s) message k Hkey Hk) as [e Hdec].
        rewrite (handleResponse_decrypt_failure _ _ _ _ _ Haddr Hparse Hdec). cbn. auto.
      * rewrite (handleResponse_outer_parse _ _ _ _ Haddr Hparse). cbn. auto.
    + apply String.eqb_neq in Haddr. rewrite (handleResponse_other_sender _ _ _ Haddr).
      cbn. auto.
Qed.

(** ** Datagrams without a package *)

Lemma decrypt_pack_no_pack (d : device.t) (message : json) :
  (forall p, get (Some message) "pack" <> Ok (Some (JStr p))) ->
  exists e, decrypt_pack d message = Throw e.
Proof.
  intros Hpack.
  assert (Hp : exists e, (pack <- get (Some message) "pack" ;; string_arg pack)%js
                         = Throw e :> result string).
  { destruct (get (Some message) "pack") as [[[]|]|e] eqn:Hget; cbn [rbind string_arg]; eauto.
    destruct (Hpack s). reflexivity. }
  destruct Hp as [e0 Hp]. unfold decrypt_pack.
  destruct (get (Some message) "tag") as [[t|]|e]; cbn [rbind]; [| |eauto].
  - unfold decrypt_v2.
    destruct (default_param _ _) as [k|]; cbn [rbind]; [|eauto].
    destruct (string_arg (Some t)); cbn [rbind]; [|eauto].
    destruct (string_arg k); cbn [rbind]; [|eauto].
    destruct (get (Some message) "pack") as [v|]; cbn [rbind] in *; [|eauto].
    rewrite Hp. cbn [rbind]. eauto.
  - unfold decrypt.
    destruct (default_param _ _) as [k|]; cbn [rbind]; [|eauto].
    destruct (string_arg k); cbn [rbind]; [|eauto].
    destruct (get (Some message) "pack") as [v|]; cbn [rbind] in *; [|eauto].
    rewrite Hp. cbn [rbind]. eauto.
Qed.

(** X16. A datagram of the configured host that is JSON and has no string
    [pack] (a number, [null], an array, an object without [pack], ...) is
    answered by [onError]: the handler returns, and nothing else than the
    log changes. *)
Theorem a_datagram_without_a_package_is_an_error
    (msg : string) (ri : rinfo.t) (s : Device) (message : json) :
  rinfo.address ri = host (this_options s) ->
  JSON_parse msg = Ok message ->
  (forall p : string, get (Some message) "pack" <> Ok (Some (JStr p))) ->
  _handleResponse msg ri s =
    (Ok tt,
     with_called (called s ++ [onError (this_device s)])
       (with_logged (logged s ++ ["Received message: "]) s)).
Proof.
  intros Haddr Hparse Hpack.
  destruct (decrypt_pack_no_pack (this_device s) message Hpack) as [e Hdec].
  apply (handleResponse_decrypt_failure _ _ _ _ _ Haddr Hparse Hdec).
Qed.

(** ** The answer to a status request *)

(** X17. When a bound device answers a status request for all codes (the
    codes being distinct), each getter returns, after the answer has been
    handled, the value that the answer gives at the position of the
    getter's code ([undefined] if the answer is too short). *)
Theorem getters_read_the_answer_to_a_status_request
    (s : Device) (msg : string) (ri : rinfo.t) (message pack : json) (dat : list json)
    (code : string) (read : device.t -> jsval) (i : nat) :
  rinfo.address ri = host (this_options s) ->
  JSON_parse msg = Ok message ->
  decrypt_pack (this_device s) message = Ok pack ->
  device.bound (this_device s) = true ->
  get (Some pack) "t" = Ok (Some (JStr "dat")) ->
  get (Some pack) "cols" = Ok (Some (JArr (List.map JStr (all_codes cmd)))) ->
  get (Some pack) "dat" = Ok (Some (JArr dat)) ->
  NoDup (all_codes cmd) ->
  (code, read) ∈ getters cmd ->
  all_codes cmd !! i = Some code ->
  read (this_device (snd (_handleResponse msg ri s))) = dat !! i.
Proof.
  intros Haddr Hparse Hdec Hbound Ht Hcols Hdat Hnodup Hread Hi.
  rewrite (handleResponse_decrypted _ _ _ _ _ Haddr Hparse Hdec).
  rewrite (handle_pack_dat _ _ _ (with_logged (logged s ++ ["Received message: "]) s)
             (all_codes cmd) (Some (JArr dat)) Ht Hbound Hcols Hdat eq_refl).
  cbn [snd this_device with_logged].
  rewrite (getters_get_prop code read _ Hread). unfold get_prop.
  rewrite (assign_props_at _ 0 _ _ i code Hi).
  - reflexivity.
  - intros j Hlt Hj. pose proof (NoDup_lookup _ _ _ _ Hnodup Hi Hj). lia.
Qed.

(** ** The driver reads what it writes *)

Section Sealed.
Context {L : RuntimeLaws R}.

Lemma legacy_round_trip (P : json) (key input : jsval) (pack : string) :
  encrypt P key = Ok pack ->
  JSON_parse (JSON_stringify P) = Ok P ->
  get input "pack" = Ok (Some (JStr pack)) ->
  decrypt input key = Ok P.
Proof.
  unfold encrypt, decrypt. intros Henc HP Hin.
  destruct (default_param key (ident "defaultKey")) as [k|]; cbn [rbind] in *; [|discriminate].
  destruct (string_arg k) as [K|]; cbn [rbind] in *; [|discriminate].
  destruct (aes_128_ecb_encrypt _ _) as [c|] eqn:Hc; cbn [rbind] in *; [|discriminate].
  injection Henc as <-. rewrite Hin. cbn [rbind string_arg].
  rewrite base64_decode_encode, (aes_128_ecb_decrypt_encrypt _ _ _ Hc). cbn [rbind].
  rewrite utf8_decode_encode. exact HP.
Qed.

Lemma v2_round_trip (P : json) (key input : jsval) (pack tag : string) :
  encrypt_v2 P key = Ok (pack, tag) ->
  JSON_parse (JSON_stringify P) = Ok P ->
  get input "pack" = Ok (Some (JStr pack)) ->
  decrypt_v2 input (Some (JStr tag)) key = Ok P.
Proof.
  unfold encrypt_v2, decrypt_v2. intros Henc HP Hin.
  destruct (default_param key (ident "genericKey_v2")) as [k|]; cbn [rbind] in *;
    [|discriminate].
  destruct (string_arg k) as [K|]; cbn [rbind] in *; [|discriminate].
  destruct (aes_128_gcm_encrypt _ _ _ _) as [[c t]|] eqn:Hc; cbn [rbind fst snd] in *;
    [|discriminate].
  injection Henc as <- <-. rewrite Hin. cbn [rbind string_arg].
  rewrite !base64_decode_encode, (aes_128_gcm_decrypt_encrypt _ _ _ _ _ _ Hc). cbn [rbind].
  rewrite utf8_decode_encode. exact HP.
Qed.

(** X18. The handler opens what the driver seals: for a payload [P] that
    JSON can carry, a package that [encrypt] made of [P] with the key of the
    device (the default key if it has none), in an envelope without [tag],
    is decrypted to [P]; and so is a package that [encrypt_v2] made of [P]
    with the key of the device, in an envelope with the tag that
    [encrypt_v2] returned. *)
Theorem the_handler_opens_what_the_driver_seals
    (d : device.t) (mf : list (string * json)) (P : json) :
  JSON_parse (JSON_stringify P) = Ok P ->
  (forall pack : string,
     encrypt P (device.key d) = Ok pack ->
     assoc "pack" mf = Some (JStr pack) ->
     assoc "tag" mf = None ->
     decrypt_pack d (JObj mf) = Ok P) /\
  (forall pack tag : string,
     encrypt_v2 P (device.key d) = Ok (pack, tag) ->
     assoc "pack" mf = Some (JStr pack) ->
     assoc "tag" mf = Some (JStr tag) ->
     decrypt_pack d (JObj mf) = Ok P).
Proof.
  intros HP. split.
  - intros pack Henc Hpack Htag. unfold decrypt_pack. rewrite get_object, Htag. cbn [rbind].
    apply (legacy_round_trip P _ _ pack Henc HP). rewrite get_object, Hpack. reflexivity.
  - intros pack tag Henc Hpack Htag. unfold decrypt_pack. rewrite get_object, Htag.
    cbn [rbind].
    apply (v2_round_trip P _ _ pack tag Henc HP). rewrite get_object, Hpack. reflexivity.
Qed.







End Sealed.

End More.

(** ** The local port *)

Lemma split_dots_dotless (a : string) : dotless a = true -> split_dots a = [a].
Proof.
  induction a as [|c a IH]; cbn [split_dots dotless String.append]; [reflexivity|].
  intros H. apply andb_prop in H as [Hc Ha].
  destruct (Ascii.eqb c "."); [discriminate|]. rewrite (IH Ha). reflexivity.
Qed.

Lemma split_dots_app (a rest : string) :
  dotless a = true -> split_dots (a ++ "." ++ rest) = a :: split_dots rest.
Proof.
  induction a as [|c a IH]; [reflexivity|].
  change (String c a ++ "." ++ rest)%string with (String c (a ++ "." ++ rest))%string.
  cbn [split_dots dotless].
  intros H. apply andb_prop in H as [Hc Ha].
  destruct (Ascii.eqb c "."); [discriminate|]. rewrite (IH Ha). reflexivity.
Qed.

Lemma pretty_N_char_decimal (d : N) :
  (d < 10)%N ->
  decimal_digit (pretty_N_char d) = true /\
  digit_value 10 (pretty_N_char d) = Some (Z.of_N d).
Proof.
  intros Hd.
  assert (H : (d = 0 \/ d = 1 \/ d = 2 \/ d = 3 \/ d = 4 \/ d = 5 \/ d = 6 \/ d = 7
               \/ d = 8 \/ d = 9)%N) by lia.
  repeat (destruct H as [-> | H]; [split; reflexivity|]). subst d. split; reflexivity.
Qed.

Lemma pretty_N_go_decimal (x : N) (s : string) :
  all_decimal s = true -> all_decimal (pretty_N_go x s) = true.
Proof.
  revert s. induction (N.lt_wf_0 x) as [x _ IH]; intros s Hs.
  destruct (N.eq_dec x 0%N) as [-> | Hx]; [exact Hs|].
  rewrite pretty_N_go_step by lia. apply IH.
  - apply N.div_lt; lia.
  - cbn [all_decimal]. rewrite Hs, andb_true_r.
    apply pretty_N_char_decimal. apply N.mod_lt. lia.
Qed.

Lemma pretty_N_go_digits (x : N) :
  exists l : list Z,
    (forall s, digits 10 (pretty_N_go x s) = l ++ digits 10 s) /\
    number 10 l = Z.of_N x /\
    ((0 < x)%N -> l <> []).
Proof.
  induction (N.lt_wf_0 x) as [x _ IH].
  destruct (N.eq_dec x 0%N) as [-> | Hx].
  { exists []. split; [reflexivity|]. split; [reflexivity|]. lia. }
  destruct (IH (x / 10)%N) as (l & Hl & Hn & _); [apply N.div_lt; lia|].
  exists (l ++ [Z.of_N (x mod 10)]). split; [|split].
  - intros s. rewrite pretty_N_go_step by lia. rewrite Hl. cbn [digits].
    destruct (pretty_N_char_decimal (x mod 10)) as [_ ->]; [apply N.mod_lt; lia|].
    rewrite <- app_assoc. reflexivity.
  - unfold number in *. rewrite fold_left_app. cbn [fold_left]. rewrite Hn.
    pose proof (N.div_mod x 10). lia.
  - intros _ H. apply app_eq_nil in H as [_ H]. discriminate.
Qed.

Lemma decimal_digit_not_white (a : ascii) :
  decimal_digit a = true ->
  white_space_1 a = false /\ (forall b, white_space_2 a b = false) /\
  (forall b c, white_space_3 a b c = false) /\
  a <> "-"%char /\ a <> "+"%char /\ a <> "."%char.
Proof.
  unfold decimal_digit, white_space_1, white_space_2, white_space_3. intros H.
  apply andb_prop in H as [H1 H2]. apply N.leb_le in H1, H2.
  repeat split.
  - apply orb_false_intro; [apply andb_false_intro2|]; rewrite ?N.leb_gt, ?N.eqb_neq; lia.
  - intros b. apply andb_false_intro1. rewrite N.eqb_neq. lia.
  - intros b c.
    assert (Hx : forall k, (57 < k)%N -> (N_of_ascii a =? k)%N = false).
    { intros k Hk. rewrite N.eqb_neq. lia. }
    rewrite !Hx by lia. reflexivity.
  - intros ->. cbn in *. lia.
  - intros ->. cbn in *. lia.
  - intros ->. cbn in *. lia.
Qed.

Lemma all_decimal_dotless (s : string) : all_decimal s = true -> dotless s = true.
Proof.
  induction s as [|c s IH]; cbn; [reflexivity|].
  intros H. apply andb_prop in H as [Hc Hs]. rewrite (IH Hs), andb_true_r.
  apply negb_true_iff, Ascii.eqb_neq. apply decimal_digit_not_white. exact Hc.
Qed.

(** A string of decimal digits is read in radix 10, from its first
    character. *)
Lemma parseInt_decimal (s : string) :
  all_decimal s = true -> s <> "" ->
  parseInt s = Some (number 10 (digits 10 s)) /\ digits 10 s <> [].
Proof.
  destruct s as [|a r]; [congruence|]. intros H _.
  cbn [all_decimal] in H. apply andb_prop in H as [Ha Hr].
  destruct (decimal_digit_not_white a Ha) as (W1 & W2 & W3 & Hm & Hp & _).
  assert (Hskip : skip_white_space (String a r) = String a r).
  { cbn [skip_white_space]. rewrite W1. destruct r as [|b r]; [reflexivity|].
    rewrite W2. destruct r as [|c r]; [reflexivity|]. rewrite W3. reflexivity. }
  assert (Hd : exists d, digit_value 10 a = Some d).
  { unfold digit_value. unfold decimal_digit in Ha.
    apply andb_prop in Ha as [H1 H2]. apply N.leb_le in H1, H2.
    set (n := Z.of_N (N_of_ascii a)).
    assert (Hn : 48 <= n <= 57) by (subst n; lia).
    destruct (Z.leb_spec 48 n); [|lia]. destruct (Z.leb_spec n 57); [|lia]. cbn [andb].
    destruct (Z.ltb_spec (n - 48) 10); [eauto|lia]. }
  destruct Hd as [d Hd].
  assert (Hne : digits 10 (String a r) <> []).
  { cbn [digits]. rewrite Hd. discriminate. }
  split; [|exact Hne].
  unfold parseInt. rewrite Hskip.
  assert (Hsign : match String a r with
                  | String "-" rest => (-1, rest)
                  | String "+" rest => (1, rest)
                  | _ => (1, String a r)
                  end = (1, String a r)).
  { destruct a as [[] [] [] [] [] [] [] []]; try reflexivity; congruence. }
  rewrite Hsign.
  assert (Hradix : match String a r with
                   | String "0" (String "x" rest) | String "0" (String "X" rest) =>
                       (16, rest)
                   | _ => (10, String a r)
                   end = (10, String a r)).
  { destruct r as [|b r]; [destruct a as [[] [] [] [] [] [] [] []]; reflexivity|].
    cbn [all_decimal] in Hr. apply andb_prop in Hr as [Hb _].
    destruct a as [[] [] [] [] [] [] [] []]; try reflexivity;
      destruct b as [[] [] [] [] [] [] [] []]; try reflexivity; discriminate Hb. }
  rewrite Hradix.
  destruct (digits 10 (String a r)) as [|d0 ds]; [congruence|].
  rewrite Z.mul_1_l. reflexivity.
Qed.

Lemma pretty_N_decimal (n : N) :
  all_decimal (pretty n) = true /\ pretty n <> "" /\
  number 10 (digits 10 (pretty n)) = Z.of_N n.
Proof.
  unfold pretty, pretty_N. destruct (decide (n = 0%N)) as [-> | Hn].
  { repeat split. discriminate. }
  destruct (pretty_N_go_digits n) as (l & Hl & Hv & Hne).
  split; [apply pretty_N_go_decimal; reflexivity|].
  rewrite Hl. cbn [digits]. rewrite app_nil_r. split; [|exact Hv].
  intros H. specialize (Hl ""). rewrite H in Hl. cbn in Hl. rewrite app_nil_r in Hl.
  apply Hne; [lia|]. congruence.
Qed.

Lemma parseInt_pretty (n : N) : parseInt (pretty n) = Some (Z.of_N n).
Proof.
  destruct (pretty_N_decimal n) as (Hd & Hne & Hv).
  destruct (parseInt_decimal _ Hd Hne) as [-> _]. rewrite Hv. reflexivity.
Qed.

(** What [parseInt] makes of some strings. *)
Example parseInt_examples :
  List.map parseInt ["20"; "  42px"; "-7"; "+7"; "0x1F"; "0x"; ""; "px"; "08"; "1e3"]
  = [Some 20; Some 42; Some (-7); Some 7; Some 31; None; None; None; Some 8; Some 1].
Proof. reflexivity. Qed.

(** X22. For a host written as four pieces between dots, the last one the
    decimal numeral of [n], with [8000 + n] at most 2^53 (where the numbers
    of JavaScript are exact), the local port of the socket is [8000 + n]:
    8020 for 192.168.1.20, and a port from 8000 to 8255 for every IPv4
    address. *)
Theorem local_port_of_a_dotted_quad (a b c : string) (n : N) :
  dotless a = true -> dotless b = true -> dotless c = true ->
  8000 + Z.of_N n <= 2 ^ 53 ->
  local_port (a ++ "." ++ b ++ "." ++ c ++ "." ++ pretty n) = Some (8000 + Z.of_N n).
Proof.
  intros Ha Hb Hc _. unfold local_port.
  rewrite !split_dots_app by assumption.
  rewrite split_dots_dotless by (apply all_decimal_dotless, pretty_N_decimal).
  cbn [lookup list_lookup]. rewrite parseInt_pretty. reflexivity.
Qed.

(** X23. For a host with fewer than four pieces between dots (a host name
    such as [localhost], say) there is no fourth piece, [parseInt] reads
    [undefined], and the local port is [NaN]. *)
Theorem no_local_port_without_a_fourth_piece (a b c : string) :
  dotless a = true -> dotless b = true -> dotless c = true ->
  local_port a = None /\
  local_port (a ++ "." ++ b) = None /\
  local_port (a ++ "." ++ b ++ "." ++ c) = None.
Proof.
  intros Ha Hb Hc. unfold local_port.
  rewrite !split_dots_app, !split_dots_dotless by assumption.
  repeat split.
Qed.

(** * The model satisfies the laws *)

Module NodeModelLaws.
Import NodeModel.
Local Open Scope N_scope.

(** ** base64 *)

Lemma below_64 (check : N -> bool) :
  forallb check (List.map N.of_nat (seq 0 64)) = true ->
  forall n, n < 64 -> check n = true.
Proof.
  intros Hall n Hn. rewrite forallb_forall in Hall. apply Hall.
  rewrite <- (N2Nat.id n). apply in_map. apply in_seq. lia.
Qed.

Lemma base64_value_char (n : N) :
  n < 64 -> base64_value (base64_char n) = Some n /\ Ascii.eqb (base64_char n) "=" = false.
Proof.
  intros Hn.
  pose proof (below_64
    (fun n => match base64_value (base64_char n) with
              | Some m => N.eqb m n
              | None => false
              end && negb (Ascii.eqb (base64_char n) "="))%bool eq_refl n Hn) as H.
  cbn beta in H. apply andb_prop in H as [H1 H2].
  destruct (base64_value (base64_char n)) as [m|]; [|discriminate].
  apply N.eqb_eq in H1. subst m. split; [reflexivity|].
  destruct (Ascii.eqb (base64_char n) "="); [discriminate|reflexivity].
Qed.

Lemma sextets_of_chars_padding (n : nat) : sextets_of_chars (padding n) = [].
Proof. unfold padding. destruct (Nat.modulo n 3) as [|[|[|]]]; reflexivity. Qed.

Lemma sextets_of_chars_encoded (l : list N) (pad : list ascii) :
  Forall (fun n => n < 64) l ->
  sextets_of_chars (List.map base64_char l ++ pad) = l ++ sextets_of_chars pad.
Proof.
  induction 1 as [|n l Hn _ IH]; [reflexivity|]. cbn [List.map app sextets_of_chars].
  destruct (base64_value_char n Hn) as [-> ->]. rewrite IH. reflexivity.
Qed.

Lemma list_ind3 {A : Type} (P : list A -> Prop) :
  P [] -> (forall x, P [x]) -> (forall x y, P [x; y]) ->
  (forall x y z l, P l -> P (x :: y :: z :: l)) ->
  forall l, P l.
Proof.
  intros H0 H1 H2 H3 l.
  assert (H : P l /\ (forall x, P (x :: l)) /\ (forall x y, P (x :: y :: l))).
  { induction l as [|a l (IH0 & IH1 & IH2)]; [auto|].
    split; [apply IH1|]. split; [intros x; apply IH2|]. intros x y. apply H3, IH0. }
  apply H.
Qed.

Lemma byte_of_to_N (x : byte) : byte_of_N (Byte.to_N x) = x.
Proof. unfold byte_of_N. rewrite Byte.of_to_N. reflexivity. Qed.

Ltac bytes_arith :=
  repeat match goal with x : byte |- _ =>
    lazymatch goal with
    | H : Byte.to_N x <= 255 |- _ => fail
    | _ => pose proof (Byte.to_N_bounded x)
    end
  end;
  zify; Z.to_euclidean_division_equations; lia.

Ltac byte_is x :=
  transitivity (byte_of_N (Byte.to_N x)); [f_equal; bytes_arith|apply byte_of_to_N].

Lemma sextets_of_bytes_below (b : list byte) :
  Forall (fun n => n < 64) (sextets_of_bytes b).
Proof.
  induction b as [|x|x y|x y z l IH] using list_ind3; cbn [sextets_of_bytes].
  - constructor.
  - repeat constructor; bytes_arith.
  - repeat constructor; bytes_arith.
  - repeat (constructor; [bytes_arith|]). exact IH.
Qed.

Lemma bytes_of_sextets_of_bytes (b : list byte) :
  bytes_of_sextets (sextets_of_bytes b) = b.
Proof.
  induction b as [|x|x y|x y z l IH] using list_ind3; cbn [sextets_of_bytes].
  - reflexivity.
  - cbn [bytes_of_sextets]. f_equal. byte_is x.
  - cbn [bytes_of_sextets]. f_equal; [byte_is x|]. f_equal. byte_is y.
  - cbn [bytes_of_sextets]. rewrite IH.
    f_equal; [byte_is x|]. f_equal; [byte_is y|]. f_equal. byte_is z.
Qed.

Lemma base64_decode_encode (b : list byte) : base64_decode (base64_encode b) = b.
Proof.
  unfold base64_decode, base64_encode. rewrite list_ascii_of_string_of_list_ascii.
  rewrite (sextets_of_chars_encoded _ _ (sextets_of_bytes_below b)).
  rewrite sextets_of_chars_padding, app_nil_r. apply bytes_of_sextets_of_bytes.
Qed.

(** ** Exclusive or of bytes *)

Lemma to_N_byte_of_N (n : N) : n < 256 -> Byte.to_N (byte_of_N n) = n.
Proof.
  intros Hn. unfold byte_of_N. pose proof (Byte.to_of_N_option_map n) as H.
  destruct (Byte.of_N n) as [b|]; cbn in H.
  - destruct (N.leb n 255); congruence.
  - destruct (N.leb_spec n 255); [discriminate|lia].
Qed.

Lemma xor8_involutive (a b : bits8) : xor8 (xor8 a b) b = a.
Proof.
  destruct a as (a0 & a1 & a2 & a3 & a4 & a5 & a6 & a7).
  destruct b as (b0 & b1 & b2 & b3 & b4 & b5 & b6 & b7).
  cbn. repeat f_equal; btauto.
Qed.

Lemma xor_byte_involutive (a b : byte) : xor_byte (xor_byte a b) b = a.
Proof.
  unfold xor_byte. rewrite Byte.to_bits_of_bits, xor8_involutive.
  apply Byte.of_bits_to_bits.
Qed.

Lemma xor_bytes_involutive (a k : list byte) : xor_bytes (xor_bytes a k) k = a.
Proof.
  revert k. induction a as [|x a IH]; intros [|y k]; cbn; try reflexivity.
  rewrite xor_byte_involutive, IH. reflexivity.
Qed.

Lemma xor_bytes_length (a k : list byte) : length (xor_bytes a k) = length a.
Proof.
  revert k. induction a as [|x a IH]; intros [|y k]; cbn; try reflexivity.
  rewrite IH. reflexivity.
Qed.

Local Open Scope nat_scope.

(** ** The inverse cipher of AES undoes the cipher *)

Local Infix "(+)" := xor_byte (at level 50, left associativity).

Lemma inv_sbox_sbox (a : byte) : inv_sbox (sbox a) = a.
Proof. destruct a; reflexivity. Qed.

Lemma inv_sub_bytes_sub_bytes (s : list byte) : inv_sub_bytes (sub_bytes s) = s.
Proof.
  unfold inv_sub_bytes, sub_bytes.
  induction s as [|x s IH]; cbn [List.map]; [reflexivity|].
  rewrite inv_sbox_sbox, IH. reflexivity.
Qed.

Ltac list16 s :=
  destruct s as [|?s0 [|?s1 [|?s2 [|?s3 [|?s4 [|?s5 [|?s6 [|?s7 [|?s8 [|?s9 [|?s10 [|?s11
    [|?s12 [|?s13 [|?s14 [|?s15 [|?s16 ?s]]]]]]]]]]]]]]]]]; try reflexivity.

Lemma inv_shift_rows_shift_rows (s : list byte) : inv_shift_rows (shift_rows s) = s.
Proof. list16 s. Qed.

Lemma shift_rows_length (s : list byte) : length (shift_rows s) = length s.
Proof. list16 s. Qed.

Lemma mix_columns_length (s : list byte) : length (mix_columns s) = length s.
Proof. list16 s. Qed.

Lemma xor_byte_of_bits (a b : bits8) :
  xor_byte (Byte.of_bits a) (Byte.of_bits b) = Byte.of_bits (xor8 a b).
Proof. unfold xor_byte. rewrite !Byte.to_bits_of_bits. reflexivity. Qed.

Lemma xtime_of_bits (a : bits8) : xtime (Byte.of_bits a) = Byte.of_bits (xtime8 a).
Proof. unfold xtime. rewrite Byte.to_bits_of_bits. reflexivity. Qed.

Lemma inv_mix_column_mix_column (a b c d : byte) :
  inv_mix_column
    (mul2 a (+) mul3 b (+) c (+) d) (a (+) mul2 b (+) mul3 c (+) d)
    (a (+) b (+) mul2 c (+) mul3 d) (mul3 a (+) b (+) c (+) mul2 d)
  = [a; b; c; d].
Proof.
  rewrite <- (Byte.of_bits_to_bits a), <- (Byte.of_bits_to_bits b),
    <- (Byte.of_bits_to_bits c), <- (Byte.of_bits_to_bits d).
  destruct (Byte.to_bits a) as (a0 & a1 & a2 & a3 & a4 & a5 & a6 & a7).
  destruct (Byte.to_bits b) as (b0 & b1 & b2 & b3 & b4 & b5 & b6 & b7).
  destruct (Byte.to_bits c) as (c0 & c1 & c2 & c3 & c4 & c5 & c6 & c7).
  destruct (Byte.to_bits d) as (d0 & d1 & d2 & d3 & d4 & d5 & d6 & d7).
  unfold mix_column, inv_mix_column, mul2, mul3, mul9, mul11, mul13, mul14.
  repeat rewrite ?xtime_of_bits, ?xor_byte_of_bits.
  cbn [xtime8 xor8].
  repeat f_equal; btauto.
Qed.

Lemma inv_mix_columns_mix_columns (s : list byte) : inv_mix_columns (mix_columns s) = s.
Proof.
  list16 s. unfold mix_columns, mix_column. cbn [app inv_mix_columns].
  rewrite !inv_mix_column_mix_column. reflexivity.
Qed.

Lemma inv_rounds_rounds (ks : list (list byte)) (s : list byte) :
  inv_rounds ks (rounds ks s) = s.
Proof.
  revert s. induction ks as [|k ks IH]; intros s; [reflexivity|].
  destruct ks as [|k' ks].
  - cbn [rounds inv_rounds].
    rewrite xor_bytes_involutive, inv_shift_rows_shift_rows. apply inv_sub_bytes_sub_bytes.
  - change (inv_rounds (k :: k' :: ks) (rounds (k :: k' :: ks) s))
      with (inv_sub_bytes (inv_shift_rows (inv_mix_columns
              (xor_bytes
                 (inv_rounds (k' :: ks)
                    (rounds (k' :: ks)
                       (xor_bytes (mix_columns (shift_rows (sub_bytes s))) k))) k)))).
    rewrite IH, xor_bytes_involutive, inv_mix_columns_mix_columns,
      inv_shift_rows_shift_rows.
    apply inv_sub_bytes_sub_bytes.
Qed.

Lemma inv_cipher_cipher (ks : list (list byte)) (block : list byte) :
  inv_cipher ks (cipher ks block) = block.
Proof.
  destruct ks as [|k ks]; [reflexivity|]. cbn [cipher inv_cipher].
  rewrite inv_rounds_rounds. apply xor_bytes_involutive.
Qed.

Lemma sub_bytes_length (s : list byte) : length (sub_bytes s) = length s.
Proof. apply length_map. Qed.

Lemma rounds_length (ks : list (list byte)) (s : list byte) :
  length (rounds ks s) = length s.
Proof.
  revert s. induction ks as [|k ks IH]; intros s; [reflexivity|].
  destruct ks as [|k' ks].
  - cbn [rounds]. rewrite xor_bytes_length, shift_rows_length. apply sub_bytes_length.
  - change (rounds (k :: k' :: ks) s)
      with (rounds (k' :: ks) (xor_bytes (mix_columns (shift_rows (sub_bytes s))) k)).
    rewrite IH, xor_bytes_length, mix_columns_length, shift_rows_length.
    apply sub_bytes_length.
Qed.

Lemma cipher_length (ks : list (list byte)) (block : list byte) :
  length (cipher ks block) = length block.
Proof.
  destruct ks as [|k ks]; [reflexivity|]. cbn [cipher].
  rewrite rounds_length. apply xor_bytes_length.
Qed.

(** ** Blocks and padding *)

Lemma concat_blocks (n : nat) (l : list byte) :
  length l = 16 * n -> concat (blocks n l) = l.
Proof.
  revert l. induction n as [|n IH]; intros l Hl.
  - destruct l; [reflexivity|discriminate].
  - cbn [blocks concat]. rewrite IH.
    + apply firstn_skipn.
    + rewrite length_skipn. lia.
Qed.

Lemma blocks_length (n : nat) (l : list byte) :
  length l = 16 * n -> Forall (fun b => length b = 16) (blocks n l).
Proof.
  revert l. induction n as [|n IH]; intros l Hl; cbn [blocks]; constructor.
  - rewrite length_firstn. lia.
  - apply IH. rewrite length_skipn. lia.
Qed.

Lemma blocks_count (n : nat) (l : list byte) : length (blocks n l) = n.
Proof. revert l. induction n as [|n IH]; intros l; cbn; [reflexivity|]. rewrite IH. reflexivity. Qed.

Lemma concat_length_16 (bs : list (list byte)) :
  Forall (fun b => length b = 16) bs -> length (concat bs) = 16 * length bs.
Proof.
  induction 1 as [|b bs Hb _ IH]; [reflexivity|].
  cbn [concat length]. rewrite length_app, Hb, IH. lia.
Qed.

Lemma blocks_concat (bs : list (list byte)) :
  Forall (fun b => length b = 16) bs -> blocks (length bs) (concat bs) = bs.
Proof.
  induction 1 as [|b bs Hb _ IH]; [reflexivity|].
  cbn [concat length blocks].
  rewrite (take_app_length' b (concat bs) 16), (drop_app_length' b (concat bs) 16)
    by (symmetry; exact Hb).
  rewrite IH. reflexivity.
Qed.

Lemma pkcs7_pad_length (m : list byte) :
  length (pkcs7_pad m) = 16 * S (length m / 16).
Proof.
  unfold pkcs7_pad. rewrite length_app, repeat_length.
  pose proof (Nat.div_mod_eq (length m) 16).
  pose proof (Nat.mod_upper_bound (length m) 16). lia.
Qed.

Lemma pkcs7_unpad_pad (m : list byte) : pkcs7_unpad (pkcs7_pad m) = Some m.
Proof.
  unfold pkcs7_unpad, pkcs7_pad.
  pose proof (Nat.mod_upper_bound (length m) 16 ltac:(lia)) as Hmod.
  set (n := 16 - length m mod 16) in *.
  assert (Hn : 1 <= n <= 16) by lia.
  set (b := byte_of_N (N.of_nat n)).
  assert (Hb : N.to_nat (Byte.to_N b) = n).
  { unfold b. rewrite to_N_byte_of_N by lia. apply Nat2N.id. }
  assert (Hlast : List.last (m ++ repeat b n) x00 = b).
  { destruct n as [|n]; [lia|]. replace (S n) with (n + 1) by lia.
    rewrite repeat_app, app_assoc. cbn [repeat]. apply last_last. }
  rewrite Hlast, Hb, length_app, repeat_length.
  replace (length m + n - n) with (length m) by lia.
  rewrite (drop_app_length' m (repeat b n) (length m)), (take_app_length' m (repeat b n) (length m))
    by reflexivity.
  assert (Hall : forallb (Byte.eqb b) (repeat b n) = true).
  { apply forallb_forall. intros x Hx. apply repeat_spec in Hx. subst x.
    apply Byte.byte_dec_lb. reflexivity. }
  rewrite Hall.
  destruct (1 <=? n) eqn:H1; [|apply Nat.leb_gt in H1; lia].
  destruct (n <=? 16) eqn:H2; [|apply Nat.leb_gt in H2; lia].
  destruct (n <=? length m + n) eqn:H3; [|apply Nat.leb_gt in H3; lia].
  reflexivity.
Qed.

(** ** ECB over an invertible cipher on blocks *)

Section ECB.
Variables enc dec : list byte -> list byte.
Hypothesis enc_length : forall b, length b = 16 -> length (enc b) = 16.
Hypothesis dec_enc : forall b, length b = 16 -> dec (enc b) = b.

Lemma ecb_decrypt_encrypt (m : list byte) :
  ecb_decrypt dec (ecb_encrypt enc m) = Ok m.
Proof.
  unfold ecb_decrypt, ecb_encrypt.
  pose proof (pkcs7_pad_length m) as Hp.
  set (p := pkcs7_pad m) in *. set (n := S (length m / 16)) in *.
  assert (Hdiv : 16 * n / 16 = n) by (rewrite Nat.mul_comm; apply Nat.div_mul; lia).
  assert (Hmod : (16 * n) mod 16 = 0) by (rewrite Nat.mul_comm; apply Nat.Div0.mod_mul).
  rewrite Hp, Hdiv.
  pose proof (blocks_length n p Hp) as Hbs.
  assert (Hcs : Forall (fun b => length b = 16) (List.map enc (blocks n p))).
  { apply Forall_map. eapply Forall_impl; [exact Hbs|]. exact enc_length. }
  pose proof (concat_length_16 _ Hcs) as Hc. rewrite length_map, blocks_count in Hc.
  rewrite Hc.
  rewrite Hmod, Hdiv.
  replace (16 * n =? 0) with false by (symmetry; apply Nat.eqb_neq; lia).
  cbn [Nat.eqb andb negb].
  assert (Hn : length (List.map enc (blocks n p)) = n)
    by (rewrite length_map; apply blocks_count).
  rewrite <- Hn at 1. rewrite (blocks_concat _ Hcs), List.map_map.
  assert (Hid : List.map (fun b => dec (enc b)) (blocks n p) = blocks n p).
  { clear Hcs Hn. revert Hbs. generalize (blocks n p). intros bs Hbs.
    induction Hbs as [|b bs Hb _ IH]; [reflexivity|].
    cbn [List.map]. rewrite (dec_enc b Hb), IH. reflexivity. }
  rewrite Hid, (concat_blocks n p Hp). unfold p. rewrite pkcs7_unpad_pad. reflexivity.
Qed.

End ECB.

(** ** Galois/Counter mode *)

Lemma gctr_involutive (enc : list byte -> list byte) (iv m : list byte) :
  gctr enc iv (gctr enc iv m) = m.
Proof.
  unfold gctr. rewrite xor_bytes_length. apply xor_bytes_involutive.
Qed.

Lemma bytes_eqb_eq (a b : list byte) : bytes_eqb a b = true <-> a = b.
Proof.
  revert b. induction a as [|x a IH]; intros [|y b]; cbn; split; try congruence.
  - intros H. apply andb_prop in H as [Hxy Hab]. apply Byte.byte_dec_bl in Hxy.
    apply IH in Hab. congruence.
  - intros H. injection H as -> ->. apply andb_true_intro. split.
    + apply Byte.byte_dec_lb. reflexivity.
    + apply IH. reflexivity.
Qed.

Lemma bytes_of_N_length (n : nat) (v : N) : length (bytes_of_N n v) = n.
Proof.
  revert v. induction n as [|n IH]; intros v; cbn [bytes_of_N]; [reflexivity|].
  rewrite length_app, IH. cbn. lia.
Qed.

Lemma gcm_tag_length (enc : list byte -> list byte) (iv aad c : list byte) :
  length (gcm_tag enc iv aad c) = 16.
Proof. unfold gcm_tag. rewrite xor_bytes_length. apply bytes_of_N_length. Qed.

Lemma gcm_decrypt_accepted (enc : list byte -> list byte) (iv aad m c t t' : list byte) :
  gcm_encrypt enc iv aad m = (c, t) ->
  valid_tag_length (length t') = true ->
  t' = firstn (length t') t ->
  gcm_decrypt enc iv aad t' c = Ok m.
Proof.
  unfold gcm_decrypt, gcm_encrypt. intros [= <- <-] Hlen Hpre. rewrite Hlen.
  rewrite (proj2 (bytes_eqb_eq _ _) Hpre), gctr_involutive. reflexivity.
Qed.

Lemma gcm_decrypt_refused (enc : list byte -> list byte) (iv aad m c t t' : list byte) :
  gcm_encrypt enc iv aad m = (c, t) ->
  valid_tag_length (length t') = false \/ t' <> firstn (length t') t ->
  exists e, gcm_decrypt enc iv aad t' c = Throw e.
Proof.
  unfold gcm_decrypt, gcm_encrypt. intros [= <- <-] Hbad.
  destruct (valid_tag_length (length t')); [|eauto].
  destruct (bytes_eqb t' _) eqn:Heq; [|eauto].
  apply bytes_eqb_eq in Heq. destruct Hbad as [Hbad|Hbad]; [discriminate|contradiction].
Qed.

Lemma gcm_decrypt_encrypt (enc : list byte -> list byte) (iv aad m c t : list byte) :
  gcm_encrypt enc iv aad m = (c, t) -> gcm_decrypt enc iv aad t c = Ok m.
Proof.
  intros H. apply (gcm_decrypt_accepted _ _ _ _ _ _ _ H).
  - unfold gcm_encrypt in H. injection H as _ <-. rewrite gcm_tag_length. reflexivity.
  - rewrite firstn_all. reflexivity.
Qed.

Lemma gcm_decrypt_forged (enc : list byte -> list byte) (iv aad m c t t' : list byte) :
  gcm_encrypt enc iv aad m = (c, t) ->
  length t' = 16%nat ->
  t' <> t ->
  exists e, gcm_decrypt enc iv aad t' c = Throw e.
Proof.
  intros H Hlen Hne. apply (gcm_decrypt_refused _ _ _ _ _ _ _ H). right.
  assert (Ht : length t = 16%nat).
  { unfold gcm_encrypt in H. injection H as _ <-. apply gcm_tag_length. }
  rewrite Hlen, <- Ht, firstn_all. exact Hne.
Qed.

Lemma gcm_encrypt_tag_length (enc : list byte -> list byte) (iv aad m c t : list byte) :
  gcm_encrypt enc iv aad m = (c, t) -> length t = 16.
Proof. unfold gcm_encrypt. intros [= _ <-]. apply gcm_tag_length. Qed.

Lemma Ok_inj {A : Type} (x y : A) : Ok x = Ok y -> x = y.
Proof. congruence. Qed.

(** ** The four ciphers of the model *)

Lemma cipher_block_length (key b : list byte) :
  length b = 16 -> length (cipher_block key b) = 16.
Proof. intros Hb. unfold cipher_block. rewrite cipher_length. exact Hb. Qed.

Lemma inv_cipher_block_cipher_block (key b : list byte) :
  length b = 16 -> inv_cipher_block key (cipher_block key b) = b.
Proof. intros _. apply inv_cipher_cipher. Qed.

Lemma aes_128_ecb_encrypt_ok (k m : list byte) :
  length k = 16 -> exists c, aes_128_ecb_encrypt k m = Ok c.
Proof. intros Hk. unfold aes_128_ecb_encrypt. rewrite Hk. eauto. Qed.

Lemma aes_128_ecb_decrypt_encrypt (k m c : list byte) :
  aes_128_ecb_encrypt k m = Ok c -> aes_128_ecb_decrypt k c = Ok m.
Proof.
  unfold aes_128_ecb_encrypt, aes_128_ecb_decrypt.
  destruct (length k =? 16); [|discriminate]. intros H. apply Ok_inj in H. subst c.
  apply ecb_decrypt_encrypt.
  - apply cipher_block_length.
  - apply inv_cipher_block_cipher_block.
Qed.

Lemma aes_128_gcm_encrypt_ok (k iv aad m : list byte) :
  length k = 16 -> length iv = 12 ->
  exists c t, aes_128_gcm_encrypt k iv aad m = Ok (c, t) /\ length t = 16.
Proof.
  intros Hk Hiv. unfold aes_128_gcm_encrypt. rewrite Hk, Hiv. cbn [Nat.eqb].
  destruct (gcm_encrypt (cipher_block k) iv aad m) as [c t] eqn:Henc.
  exists c, t. split; [reflexivity|]. exact (gcm_encrypt_tag_length _ _ _ _ _ _ Henc).
Qed.

Lemma aes_128_gcm_decrypt_encrypt (k iv aad m c t : list byte) :
  aes_128_gcm_encrypt k iv aad m = Ok (c, t) ->
  aes_128_gcm_decrypt k iv aad t c = Ok m.
Proof.
  unfold aes_128_gcm_encrypt, aes_128_gcm_decrypt.
  destruct (length k =? 16); [|discriminate].
  destruct (length iv =? 12); [|discriminate].
  intros H. apply Ok_inj in H. exact (gcm_decrypt_encrypt _ _ _ _ _ _ H).
Qed.

Lemma aes_128_gcm_decrypt_forged (k iv aad m c t t' : list byte) :
  aes_128_gcm_encrypt k iv aad m = Ok (c, t) ->
  length t' = 16 -> t' <> t ->
  exists e, aes_128_gcm_decrypt k iv aad t' c = Throw e.
Proof.
  unfold aes_128_gcm_encrypt, aes_128_gcm_decrypt.
  destruct (length k =? 16); [|discriminate].
  destruct (length iv =? 12); [|discriminate].
  intros H Hlen Hne. apply Ok_inj in H.
  exact (gcm_decrypt_forged _ _ _ _ _ _ _ H Hlen Hne).
Qed.

Lemma aes_128_gcm_decrypt_accepted (k iv aad m c t t' : list byte) :
  aes_128_gcm_encrypt k iv aad m = Ok (c, t) ->
  valid_tag_length (length t') = true ->
  t' = firstn (length t') t ->
  aes_128_gcm_decrypt k iv aad t' c = Ok m.
Proof.
  unfold aes_128_gcm_encrypt, aes_128_gcm_decrypt.
  destruct (length k =? 16); [|discriminate].
  destruct (length iv =? 12); [|discriminate].
  intros H Hlen Hpre. apply Ok_inj in H.
  exact (gcm_decrypt_accepted _ _ _ _ _ _ _ H Hlen Hpre).
Qed.

Lemma aes_128_gcm_decrypt_refused (k iv aad m c t t' : list byte) :
  aes_128_gcm_encrypt k iv aad m = Ok (c, t) ->
  valid_tag_length (length t') = false \/ t' <> firstn (length t') t ->
  exists e, aes_128_gcm_decrypt k iv aad t' c = Throw e.
Proof.
  unfold aes_128_gcm_encrypt, aes_128_gcm_decrypt.
  destruct (length k =? 16); [|discriminate].
  destruct (length iv =? 12); [|discriminate].
  intros H Hbad. apply Ok_inj in H.
  exact (gcm_decrypt_refused _ _ _ _ _ _ _ H Hbad).
Qed.


(** ** Test vectors *)

(** FIPS 197, appendices B and C.1. *)
Example fips_197_appendix_b :
  cipher (round_keys (hex "2b7e151628aed2a6abf7158809cf4f3c"))
    (hex "3243f6a8885a308d313198a2e0370734")
  = hex "3925841d02dc09fbdc118597196a0b32".
Proof. vm_compute. reflexivity. Qed.

Example fips_197_appendix_c1 :
  cipher (round_keys (hex "000102030405060708090a0b0c0d0e0f"))
    (hex "00112233445566778899aabbccddeeff")
  = hex "69c4e0d86a7b0430d8cdb78070b4c55a".
Proof. vm_compute. reflexivity. Qed.

(** The GCM specification (McGrew and Viega), test cases 2 and 4. *)
Example gcm_test_case_2 :
  aes_128_gcm_encrypt (hex "00000000000000000000000000000000")
    (hex "000000000000000000000000") [] (hex "00000000000000000000000000000000")
  = Ok (hex "0388dace60b6a392f328c2b971b2fe78", hex "ab6e47d42cec13bdf53a67b21257bddf").
Proof. vm_compute. reflexivity. Qed.

Example gcm_test_case_4 :
  aes_128_gcm_encrypt (hex "feffe9928665731c6d6a8f9467308308")
    (hex "cafebabefacedbaddecaf888")
    (hex "feedfacedeadbeeffeedfacedeadbeefabaddad2")
    (hex ("d9313225f88406e5a55909c5aff5269a86a7a9531534f7da2e4c303d8a318a72"
          ++ "1c3c0c95956809532fcf0e2449a6b525b16aedf5aa0de657ba637b39"))
  = Ok (hex ("42831ec2217774244b7221b784d0d49ce3aa212f2c02a4e035c17e2329aca12e"
             ++ "21d514b25466931c7d8f6a5aac84aa051ba30b396a0aac973d58e091"),
        hex "5bc94fbc3221a5db94fae95ae7121a47").
Proof. vm_compute. reflexivity. Qed.

(** RFC 4648, section 10. *)
Example base64_rfc_4648 :
  List.map (fun s => base64_encode (list_byte_of_string s))
    [""; "f"; "fo"; "foo"; "foob"; "fooba"; "foobar"]
  = [""; "Zg=="; "Zm8="; "Zm9v"; "Zm9vYg=="; "Zm9vYmE="; "Zm9vYmFy"].
Proof. vm_compute. reflexivity. Qed.

End NodeModelLaws.

Lemma node_model_laws : RuntimeLaws node_model.
Proof.
  split.
  - exact NodeModelLaws.base64_decode_encode.
  - exact NodeModelLaws.aes_128_ecb_encrypt_ok.
  - exact NodeModelLaws.aes_128_ecb_decrypt_encrypt.
  - exact NodeModelLaws.aes_128_gcm_encrypt_ok.
  - exact NodeModelLaws.aes_128_gcm_decrypt_encrypt.
  - exact NodeModelLaws.aes_128_gcm_decrypt_forged.
Qed.

Lemma node_model_tag_laws : AuthTagLaws node_model.
Proof.
  split.
  - exact NodeModelLaws.aes_128_gcm_decrypt_accepted.
  - exact NodeModelLaws.aes_128_gcm_decrypt_refused.
Qed.

(** * Packages, with the ciphers of the model *)

Module Packages.
Import encryptionService.

Lemma ecb_decrypt_partial_block (dec : list byte -> list byte) (c : list byte) :
  (length c mod 16 <> 0)%nat \/ c = [] ->
  exists e, NodeModel.ecb_decrypt dec c = Throw e.
Proof.
  intros H. unfold NodeModel.ecb_decrypt.
  destruct (Nat.eqb_spec (length c mod 16) 0) as [H0|]; cbn [andb]; [|eauto].
  destruct H as [H| ->]; [contradiction|]. cbn. eauto.
Qed.

(** X24. With the ciphers of the model, [decrypt] throws on a package whose
    bytes are not a whole number of blocks of 16, the empty package
    included, whatever the key. *)
Theorem a_package_is_a_whole_number_of_blocks (input key : jsval) (p : string) :
  get input "pack" = Ok (Some (JStr p)) ->
  (length (NodeModel.base64_decode p) mod 16 <> 0)%nat \/ NodeModel.base64_decode p = [] ->
  exists e : error, decrypt (R := node_model) input key = Throw e.
Proof.
  intros Hin Hp. unfold decrypt.
  destruct (default_param key (ident "defaultKey")) as [k|]; cbn [rbind]; [|eauto].
  destruct (string_arg k) as [K|]; cbn [rbind]; [|eauto].
  rewrite Hin. cbn [rbind string_arg].
  change (@aes_128_ecb_decrypt node_model) with NodeModel.aes_128_ecb_decrypt.
  change (@base64_decode node_model) with NodeModel.base64_decode.
  unfold NodeModel.aes_128_ecb_decrypt.
  destruct (Nat.eqb (length (utf8_encode K)) 16); cbn [rbind]; [|eauto].
  destruct (ecb_decrypt_partial_block (NodeModel.inv_cipher_block (utf8_encode K)) _ Hp) as [e ->].
  cbn [rbind]. eauto.
Qed.

(** ** The nonce of the authenticated scheme

    [encrypt_v2] creates every cipher with the same [iv_v2]: under one key
    all packages are sealed with one key stream. *)

Lemma xorb_cancel (a b k : bool) : xorb (xorb a k) (xorb b k) = xorb a b.
Proof. destruct a, b, k; reflexivity. Qed.

Lemma xor8_cancel (a b k : NodeModel.bits8) :
  NodeModel.xor8 (NodeModel.xor8 a k) (NodeModel.xor8 b k) = NodeModel.xor8 a b.
Proof.
  destruct a as (a0 & a1 & a2 & a3 & a4 & a5 & a6 & a7).
  destruct b as (b0 & b1 & b2 & b3 & b4 & b5 & b6 & b7).
  destruct k as (k0 & k1 & k2 & k3 & k4 & k5 & k6 & k7).
  cbn. rewrite !xorb_cancel. reflexivity.
Qed.

Lemma xor_byte_cancel (a b k : byte) :
  NodeModel.xor_byte (NodeModel.xor_byte a k) (NodeModel.xor_byte b k) = NodeModel.xor_byte a b.
Proof.
  unfold NodeModel.xor_byte. rewrite !Byte.to_bits_of_bits, xor8_cancel. reflexivity.
Qed.

Lemma xor_bytes_cancel (a b k : list byte) :
  (length a <= length b)%nat -> (length b <= length k)%nat ->
  NodeModel.xor_bytes (NodeModel.xor_bytes a k) (NodeModel.xor_bytes b k) = NodeModel.xor_bytes a b.
Proof.
  revert b k. induction a as [|x a IH]; intros [|y b] [|z k] Hab Hbk; cbn in *;
    try reflexivity; try lia.
  rewrite xor_byte_cancel, IH by lia. reflexivity.
Qed.

Lemma xor_bytes_app (a k k' : list byte) :
  (length a <= length k)%nat -> NodeModel.xor_bytes a (k ++ k') = NodeModel.xor_bytes a k.
Proof.
  revert k. induction a as [|x a IH]; intros [|z k] Hak; cbn in *; try reflexivity; try lia.
  rewrite IH by lia. reflexivity.
Qed.

Section Stream.
Variable enc : list byte -> list byte.
Hypothesis enc_length : forall b, length b = 16%nat -> length (enc b) = 16%nat.

Lemma counter_stream_add (iv : list byte) (from : N) (n k : nat) :
  NodeModel.counter_stream enc iv from (n + k) =
  NodeModel.counter_stream enc iv from n ++ NodeModel.counter_stream enc iv (from + N.of_nat n) k.
Proof.
  revert from. induction n as [|n IH]; intros from; cbn [NodeModel.counter_stream Nat.add].
  - rewrite N.add_0_r. reflexivity.
  - rewrite IH, <- app_assoc.
    replace (from + 1 + N.of_nat n)%N with (from + N.of_nat (S n))%N by lia. reflexivity.
Qed.

Lemma counter_stream_length (iv : list byte) (from : N) (n : nat) :
  length iv = 12%nat -> length (NodeModel.counter_stream enc iv from n) = (16 * n)%nat.
Proof.
  intros Hiv. revert from. induction n as [|n IH]; intros from; cbn [NodeModel.counter_stream].
  - reflexivity.
  - rewrite length_app, IH, enc_length; [lia|].
    rewrite length_app, NodeModelLaws.bytes_of_N_length. lia.
Qed.

Lemma gctr_shares_the_stream (iv m1 m2 : list byte) :
  length iv = 12%nat ->
  (length m1 <= length m2)%nat ->
  NodeModel.xor_bytes (NodeModel.gctr enc iv m1) (NodeModel.gctr enc iv m2)
  = NodeModel.xor_bytes m1 m2.
Proof.
  intros Hiv Hle. unfold NodeModel.gctr.
  set (n1 := S (length m1 / 16)). set (n2 := S (length m2 / 16)).
  assert (Hn : (n1 <= n2)%nat).
  { subst n1 n2. apply le_n_S. apply Nat.Div0.div_le_mono. exact Hle. }
  assert (H1 : (length m1 <= 16 * n1)%nat).
  { subst n1. pose proof (Nat.div_mod_eq (length m1) 16).
    pose proof (Nat.mod_upper_bound (length m1) 16). lia. }
  assert (H2 : (length m2 <= 16 * n2)%nat).
  { subst n2. pose proof (Nat.div_mod_eq (length m2) 16).
    pose proof (Nat.mod_upper_bound (length m2) 16). lia. }
  replace n2 with (n1 + (n2 - n1))%nat by lia.
  rewrite counter_stream_add.
  rewrite <- (xor_bytes_app m1 (NodeModel.counter_stream enc iv 2 n1)
                (NodeModel.counter_stream enc iv (2 + N.of_nat n1) (n2 - n1)))
    by (rewrite counter_stream_length by exact Hiv; exact H1).
  apply xor_bytes_cancel; [exact Hle|].
  rewrite <- counter_stream_add. replace (n1 + (n2 - n1))%nat with n2 by lia.
  rewrite counter_stream_length by exact Hiv. exact H2.
Qed.

Lemma gcm_encrypt_ciphertext (iv aad m c t : list byte) :
  NodeModel.gcm_encrypt enc iv aad m = (c, t) -> c = NodeModel.gctr enc iv m.
Proof. unfold NodeModel.gcm_encrypt. intros [= <- _]. reflexivity. Qed.

End Stream.

Lemma aes_128_gcm_encrypt_ciphertext (k iv aad m c t : list byte) :
  NodeModel.aes_128_gcm_encrypt k iv aad m = Ok (c, t) ->
  length k = 16%nat /\ length iv = 12%nat /\ c = NodeModel.gctr (NodeModel.cipher_block k) iv m.
Proof.
  unfold NodeModel.aes_128_gcm_encrypt.
  destruct (Nat.eqb_spec (length k) 16) as [Hk|]; [|discriminate].
  destruct (Nat.eqb_spec (length iv) 12) as [Hiv|]; [|discriminate].
  intros H. apply NodeModelLaws.Ok_inj in H. split; [exact Hk|]. split; [exact Hiv|].
  exact (gcm_encrypt_ciphertext _ _ _ _ _ _ H).
Qed.

Lemma encrypt_v2_ciphertext (P : json) (K pack tag : string) :
  encrypt_v2 (R := node_model) P (Some (JStr K)) = Ok (pack, tag) ->
  NodeModel.base64_decode pack =
    NodeModel.gctr (NodeModel.cipher_block (utf8_encode K)) iv_v2
      (utf8_encode (NodeModel.stringify P)).
Proof.
  unfold encrypt_v2. cbn [default_param string_arg rbind].
  change (@aes_128_gcm_encrypt node_model) with NodeModel.aes_128_gcm_encrypt.
  change (@JSON_stringify node_model) with NodeModel.stringify.
  change (@base64_encode node_model) with NodeModel.base64_encode.
  destruct (NodeModel.aes_128_gcm_encrypt _ _ _ _) as [[c t]|] eqn:Hc; cbn [rbind fst snd];
    [|discriminate].
  intros H. apply NodeModelLaws.Ok_inj in H. injection H as <- _.
  destruct (aes_128_gcm_encrypt_ciphertext _ _ _ _ _ _ Hc) as (_ & _ & ->).
  apply NodeModelLaws.base64_decode_encode.
Qed.

(** X25. With the ciphers of the model, two packages that [encrypt_v2] seals
    under one key are sealed with one key stream, the nonce being the
    constant [iv_v2]: the exclusive or of the two ciphertexts is the
    exclusive or of the two plaintexts, over the length of the shorter
    one. *)
Theorem packages_of_one_key_share_the_key_stream
    (P Q : json) (K pack1 tag1 pack2 tag2 : string) :
  encrypt_v2 (R := node_model) P (Some (JStr K)) = Ok (pack1, tag1) ->
  encrypt_v2 (R := node_model) Q (Some (JStr K)) = Ok (pack2, tag2) ->
  (length (utf8_encode (NodeModel.stringify P))
   <= length (utf8_encode (NodeModel.stringify Q)))%nat ->
  NodeModel.xor_bytes (NodeModel.base64_decode pack1) (NodeModel.base64_decode pack2) =
  NodeModel.xor_bytes (utf8_encode (NodeModel.stringify P)) (utf8_encode (NodeModel.stringify Q)).
Proof.
  intros H1 H2 Hle.
  rewrite (encrypt_v2_ciphertext _ _ _ _ H1), (encrypt_v2_ciphertext _ _ _ _ H2).
  apply gctr_shares_the_stream; [|reflexivity|exact Hle].
  intros b Hb. apply NodeModelLaws.cipher_block_length. exact Hb.
Qed.

End Packages.

(** * The properties on the session of the model *)

Module Witness.
Import encryptionService Session.

Abbreviation handle msg ri s := (_handleResponse (R := node_model) msg ri s) (only parsing).

(** C9 at a bind acknowledgement that arrives from another address while the
    device waits for it. *)
Lemma C9_witness :
  let r := handle (datagram_of bindok_pack None) from_elsewhere after_handshake in
  fst r = Ok tt /\ this_device (snd r) = this_device after_handshake /\
  called (snd r) = called after_handshake /\ intervals (snd r) = intervals after_handshake.
Proof.
  pose proof (C9_other_sender_discarded (R := node_model)
                (datagram_of bindok_pack None) from_elsewhere after_handshake) as H.
  assert (Hne : rinfo.address from_elsewhere <> host (this_options after_handshake))
    by (vm_compute; discriminate).
  specialize (H Hne). cbn zeta in *.
  destruct H as (H1 & _ & H3 & _ & H5 & H6 & _).
  split; [exact H1|]. split; [exact H3|]. split; [exact H5|exact H6].
Defined.

(** C10 at the after_bind session, and at a bind acknowledgement that arrives
    before any handshake. *)
Lemma C10_witness :
  truthy (device.id (this_device after_bind)) = true /\
  let r := handle (datagram_of bindok_pack None) from_device at_start in
  this_device (snd r) = this_device at_start /\
  intervals (snd r) = [] /\
  called (snd r) = [onError (this_device at_start)].
Proof.
  destruct (C10_bound_implies_identified (R := node_model) commands) as [Hinv Hbindok].
  split.
  - apply Hinv; [|vm_compute; reflexivity].
    unfold after_bind, after_handshake, at_start. apply reachable_message, reachable_message.
    apply reachable_new.
  - specialize (Hbindok at_start (datagram_of bindok_pack None) from_device
                  (envelope bindok_pack None) bindok_pack).
    cbn zeta in *.
    destruct Hbindok as (_ & Hd & _ & Hi & Hc); try (vm_compute; reflexivity).
    rewrite Hd, Hi, Hc. repeat split.
Defined.

(** C1 at a datagram of the device that is not JSON, and at one whose
    package is not base64 of a ciphertext. *)
Lemma C1_witness :
  handle "scan?" from_device after_handshake = (Throw SyntaxError, after_handshake) /\
  let r := handle (JSON_stringify (Runtime := node_model) (JObj [("pack", JStr "????")]))
             from_device after_handshake in
  fst r = Ok tt /\ this_device (snd r) = this_device after_handshake /\
  called (snd r) = [onError (this_device after_handshake)].
Proof.
  destruct (C1_unreadable_datagram (R := node_model) after_handshake "scan?" from_device)
    as [_ Houter]; [vm_compute; reflexivity|].
  destruct (C1_unreadable_datagram (R := node_model) after_handshake
              (JSON_stringify (Runtime := node_model) (JObj [("pack", JStr "????")]))
              from_device) as [Hinner _]; [vm_compute; reflexivity|].
  split.
  - destruct (Houter SyntaxError) as [H1 H2]; [vm_compute; reflexivity|].
    apply injective_projections; assumption.
  - cbn zeta.
    destruct (Hinner (JObj [("pack", JStr "????")])
                (CryptoError "wrong final block length")) as (H1 & H2 & _ & _ & H3);
      try (vm_compute; reflexivity).
    rewrite H1, H2, H3. repeat split.
Defined.

(** C3 at the bind acknowledgement of the after_handshake device. *)
Lemma C3_witness :
  let r := handle (datagram_of bindok_pack None) from_device after_handshake in
  device.bound (this_device (snd r)) = true /\
  device.key (this_device (snd r)) = Some (JStr session_key) /\
  intervals (snd r) = [10000] /\
  sent (snd r) = sent after_handshake.
Proof.
  pose proof (C3_bindok_starts_timer_only (R := node_model) commands after_handshake
                (datagram_of bindok_pack None) from_device
                (envelope bindok_pack None) bindok_pack (Some (JStr session_key))) as H.
  cbn zeta in *.
  destruct H as (_ & Hd & Hi & Hs & _); try (vm_compute; reflexivity).
  rewrite Hd, Hi, Hs. repeat split.
Defined.

(** C5 at the handshake reply of a version 2 firmware, and at that of a
    version 1 firmware. *)
Lemma C5_witness :
  (let r := handle (datagram_of (dev_pack "V2.1.0") None) from_device at_start in
   device.encryptionV2 (this_device (snd r)) = true /\
   sent (snd r) = sent at_start /\
   called (snd r) = [onError (this_device (snd r))]) /\
  (let r := handle (datagram_of (dev_pack "V1.1.13") None) from_device at_start in
   device.encryptionV2 (this_device (snd r)) = false /\
   length (sent (snd r)) = S (length (sent at_start)) /\
   called (snd r) = []).
Proof.
  split.
  - destruct (C5_handshake_selects_scheme (R := node_model) at_start
                (datagram_of (dev_pack "V2.1.0") None) from_device
                (match envelope (dev_pack "V2.1.0") None with JObj f => f | _ => [] end)
                (match dev_pack "V2.1.0" with JObj f => f | _ => [] end))
      as (Hv2 & _); try (vm_compute; reflexivity).
    destruct (Hv2 "V2.1.0") as (_ & Hd & Hs & Hc); try (vm_compute; reflexivity).
    cbn zeta. rewrite Hc, Hs, Hd. repeat split.
  - destruct (C5_handshake_selects_scheme (R := node_model) at_start
                (datagram_of (dev_pack "V1.1.13") None) from_device
                (match envelope (dev_pack "V1.1.13") None with JObj f => f | _ => [] end)
                (match dev_pack "V1.1.13" with JObj f => f | _ => [] end))
      as (_ & Hv1 & _); try (vm_compute; reflexivity).
    edestruct Hv1 as (_ & Hd & Hs & Hc); try (vm_compute; reflexivity).
    cbn zeta. rewrite Hc, Hs, Hd. repeat split.
Defined.


(** What [setPower(true)] sends there: the envelope of
    [{opt: ["Pow"], p: [1], t: "cmd"}] under the default key. *)
Lemma setPower_while_unbound :
  sent (snd (setPower (R := node_model) commands (Some (JBool true)) after_handshake)) =
  sent after_handshake ++
    [mk_datagram
       (JSON_stringify (Runtime := node_model)
          (request 0
             (match encrypt (R := node_model)
                      (JObj [("opt", JArr [JStr "Pow"]); ("p", JArr [JNum 1]);
                             ("t", JStr "cmd")]) None with
              | Ok p => p
              | Throw _ => ""
              end) None))
       7000 (Some device_host)].
Proof. vm_compute. reflexivity. Qed.


Ltac compute_hypothesis H :=
  match type of H with
  | ?A -> _ =>
      let X := fresh in
      assert (X : A) by (vm_compute; reflexivity); specialize (H X); clear X
  end.



(** What the handler does at these two responses: [Pow] is 1 after each,
    and the second one is reported by [onError]. *)
Lemma C6_at_the_counterexample :
  (let r := handle (datagram_of res_zero_pack (Some (JStr session_key)))
              from_device after_bind in
   getPower commands (this_device (snd r)) = Some (JNum 1) /\
   called (snd r) = called after_bind ++ [onUpdate (this_device (snd r))]) /\
  (let r := handle (datagram_of dat_bad_key_pack (Some (JStr session_key)))
              from_device after_bind in
   getPower commands (this_device (snd r)) = Some (JNum 1) /\
   getMode commands (this_device (snd r)) = None /\
   called (snd r) = called after_bind ++ [onError (this_device (snd r))]).
Proof. vm_compute. repeat split. Qed.


(** C8 and C7 at the bind acknowledgement and the session key. *)
Lemma C8_witness :
  exists pack : string,
    encrypt (R := node_model) bindok_pack (Some (JStr session_key)) = Ok pack /\
    decrypt (R := node_model) (Some (JObj [("pack", JStr pack)])) (Some (JStr session_key))
    = Ok bindok_pack.
Proof.
  destruct (C8_legacy_round_trip (R := node_model) (L := node_model_laws)
              bindok_pack session_key) as (pack & Henc & Hdec);
    [vm_compute; reflexivity..|].
  exists pack. split; [exact Henc|]. apply Hdec. reflexivity.
Defined.

(** C7 as stated fails at the bind acknowledgement and the session key: with
    the tag cut down to its first four bytes, which are other bytes than the
    tag, [decrypt_v2] returns the payload. *)
Lemma C7_counterexample :
  ~ (forall (R : Runtime) (P : json) (K pack tag tag' : string) (input : jsval),
       encrypt_v2 P (Some (JStr K)) = Ok (pack, tag) ->
       get input "pack" = Ok (Some (JStr pack)) ->
       base64_decode tag' <> base64_decode tag ->
       exists e : error,
         decrypt_v2 input (Some (JStr tag')) (Some (JStr K)) = Throw e).
Proof.
  intros H.
  specialize (H node_model bindok_pack session_key (fst sealed_v2) (snd sealed_v2)
                short_tag (Some (JObj [("pack", JStr (fst sealed_v2))]))).
  do 2 compute_hypothesis H.
  assert (Hne : base64_decode (Runtime := node_model) short_tag
                <> base64_decode (Runtime := node_model) (snd sealed_v2))
    by (vm_compute; discriminate).
  destruct (H Hne) as [e He]. vm_compute in He. discriminate He.
Qed.

(** C7, as amended, there: the tag opens the package, its first four bytes
    open it too, and sixteen other bytes do not. *)
Lemma C7_witness :
  exists pack tag : string,
    encrypt_v2 (R := node_model) bindok_pack (Some (JStr session_key)) = Ok (pack, tag) /\
    decrypt_v2 (R := node_model) (Some (JObj [("pack", JStr pack)])) (Some (JStr tag))
      (Some (JStr session_key)) = Ok bindok_pack /\
    decrypt_v2 (R := node_model) (Some (JObj [("pack", JStr pack)])) (Some (JStr short_tag))
      (Some (JStr session_key)) = Ok bindok_pack /\
    exists e : error,
      decrypt_v2 (R := node_model) (Some (JObj [("pack", JStr pack)]))
        (Some (JStr "AAAAAAAAAAAAAAAAAAAAAA==")) (Some (JStr session_key)) = Throw e.
Proof.
  destruct (C7_authenticated_round_trip (R := node_model) (L := node_model_laws)
              (T := node_model_tag_laws) bindok_pack session_key)
    as (pack & tag & Henc & _ & Hdec);
    [vm_compute; reflexivity..|].
  exists pack, tag. split; [exact Henc|].
  destruct (Hdec (Some (JObj [("pack", JStr pack)])) eq_refl) as [Hok Htag].
  split; [exact Hok|].
  vm_compute in Henc. injection Henc as _ <-. split.
  - destruct (Htag short_tag) as (Hshort & _). apply Hshort; vm_compute; reflexivity.
  - destruct (Htag "AAAAAAAAAAAAAAAAAAAAAA==") as (_ & _ & Hforged).
    apply Hforged; [vm_compute; reflexivity|vm_compute; discriminate].
Defined.

(** ** More of the session *)

Lemma reachable_after_bind : reachable (R := node_model) commands after_bind.
Proof.
  unfold after_bind, after_handshake, at_start.
  apply reachable_message, reachable_message, reachable_new.
Qed.


Lemma every_datagram_goes_to_the_host_witness :
  Forall (fun d => to_address d = Some device_host) (sent after_command) /\
  length (sent after_command) = 3%nat.
Proof.
  split; [|vm_compute; reflexivity].
  apply (every_datagram_goes_to_the_host (R := node_model) commands after_command).
  unfold after_command. apply reachable_setPower, reachable_after_bind.
Defined.

(** A handshake reply of a version 1 firmware, after one of a version 2
    firmware. *)
Lemma encryptionV2_is_never_cleared_witness :
  let r := handle (datagram_of (dev_pack "V1.1.13") None) from_device after_handshake_v2 in
  device.encryptionV2 (this_device (snd r)) = true /\
  sent (snd r) = sent after_handshake_v2.
Proof.
  apply (encryptionV2_is_never_cleared (R := node_model)
           (datagram_of (dev_pack "V1.1.13") None) from_device after_handshake_v2).
  vm_compute. reflexivity.
Defined.

(** The bound session: one call of [onConnected], one timer. *)
Lemma one_timer_per_connection_witness :
  intervals after_bind = [10000] /\ updateInterval (this_options after_bind) <> 0.
Proof.
  apply (one_timer_per_connection (R := node_model) commands after_bind).
  apply reachable_after_bind.
Defined.

Lemma callbacks_see_a_bound_device_witness :
  Forall (reports_bound_device device_host) (called after_bind) /\
  length (called after_bind) = 1%nat.
Proof.
  split; [|vm_compute; reflexivity].
  apply (callbacks_see_a_bound_device (R := node_model) commands after_bind).
  apply reachable_after_bind.
Defined.

(** [setPower(true)] on a new [Device]. *)
Lemma setters_throw_before_the_handshake_witness :
  exists e : error,
    perform (R := node_model) commands (call_setPower (Some (JBool true))) at_start
    = (Throw e, at_start).
Proof.
  apply (setters_throw_before_the_handshake (R := node_model) commands). reflexivity.
Defined.

(** A handshake reply that reaches the bound device, sealed with the key of
    the session. *)
Lemma only_a_handshake_unbinds_witness :
  let r := handle (datagram_of (dev_pack "V1.1.13") (Some (JStr session_key)))
             from_device after_bind in
  device.props (this_device (snd r)) = ∅ /\
  device.key (this_device (snd r)) = Some (JStr session_key) /\
  getPower commands (this_device (snd r)) = None.
Proof.
  pose proof (only_a_handshake_unbinds (R := node_model) commands
                (datagram_of (dev_pack "V1.1.13") (Some (JStr session_key)))
                from_device after_bind) as H.
  cbn zeta in *.
  destruct H as (_ & _ & _ & Hk & Hp & Hg & _); try (vm_compute; reflexivity).
  split; [exact Hp|]. split; [|exact Hg]. rewrite Hk. vm_compute. reflexivity.
Defined.

(** The bind acknowledgement of the session. *)
Lemma only_a_bind_acknowledgement_writes_the_key_witness :
  let r := handle (datagram_of bindok_pack None) from_device after_handshake in
  device.bound (this_device (snd r)) = true /\
  called (snd r) = called after_handshake ++ [onConnected (this_device (snd r))].
Proof.
  pose proof (only_a_bind_acknowledgement_writes_the_key (R := node_model)
                (datagram_of bindok_pack None) from_device after_handshake) as H.
  cbn zeta in *.
  destruct H as (_ & Hb & Hc & _); [vm_compute; discriminate|].
  split; assumption.
Defined.

(** The key [null]. *)
Lemma a_key_must_be_a_string_witness :
  encrypt (R := node_model) bindok_pack (Some JNull) = Throw TypeError /\
  decrypt (R := node_model) (Some (envelope bindok_pack None)) (Some JNull) = Throw TypeError.
Proof.
  destruct (a_key_must_be_a_string (R := node_model) JNull) as (He & Hd & _).
  - intros str. discriminate.
  - split; [apply He|apply Hd].
Defined.

(** The session after a bind acknowledgement whose key is [null]. *)
Lemma a_key_that_is_no_string_ends_the_session_witness :
  perform (R := node_model) commands (call_setPower (Some (JBool true))) after_bind_null
  = (Throw TypeError, after_bind_null) /\
  _requestDeviceStatus (R := node_model) commands after_bind_null
  = (Throw TypeError, after_bind_null).
Proof.
  destruct (a_key_that_is_no_string_ends_the_session (R := node_model) commands
              JNull after_bind_null) as (Hs & Ht & _).
  - vm_compute. reflexivity.
  - intros str. discriminate.
  - split; [apply Hs|exact Ht].
Defined.

(** The datagram [{}]. *)
Lemma a_datagram_without_a_package_is_an_error_witness :
  handle "{}" from_device after_handshake =
    (Ok tt,
     with_called (called after_handshake ++ [onError (this_device after_handshake)])
       (with_logged (logged after_handshake ++ ["Received message: "]) after_handshake)).
Proof.
  apply (a_datagram_without_a_package_is_an_error (R := node_model)
           "{}" from_device after_handshake (JObj [])).
  - reflexivity.
  - vm_compute. reflexivity.
  - intros p. cbn. discriminate.
Defined.


(** The answer to a status request for the seven codes. *)
Lemma getters_read_the_answer_to_a_status_request_witness :
  let r := handle (datagram_of status_pack (Some (JStr session_key))) from_device after_bind in
  getPower commands (this_device (snd r)) = Some (JNum 1) /\
  getTemp commands (this_device (snd r)) = Some (JNum 24).
Proof.
  cbn zeta. split.
  - apply (getters_read_the_answer_to_a_status_request (R := node_model) commands
             after_bind (datagram_of status_pack (Some (JStr session_key))) from_device
             (envelope status_pack (Some (JStr session_key))) status_pack
             [JNum 1; JNum 4; JNum 0; JNum 24; JNum 3; JNum 1; JNum 26]
             "Pow" (getPower commands) 0); try (vm_compute; reflexivity).
    + apply (bool_decide_unpack _). vm_compute. reflexivity.
    + apply elem_of_cons. left. reflexivity.
  - apply (getters_read_the_answer_to_a_status_request (R := node_model) commands
             after_bind (datagram_of status_pack (Some (JStr session_key))) from_device
             (envelope status_pack (Some (JStr session_key))) status_pack
             [JNum 1; JNum 4; JNum 0; JNum 24; JNum 3; JNum 1; JNum 26]
             "SetTem" (getTemp commands) 3); try (vm_compute; reflexivity).
    + apply (bool_decide_unpack _). vm_compute. reflexivity.
    + apply elem_of_cons. right. apply elem_of_cons. left. reflexivity.
Defined.

(** The status reply, sealed with the key of the session. *)
Lemma the_handler_opens_what_the_driver_seals_witness :
  decrypt_pack (R := node_model) (this_device after_bind)
    (envelope dat_pack (Some (JStr session_key))) = Ok dat_pack.
Proof.
  destruct (the_handler_opens_what_the_driver_seals (R := node_model) (L := node_model_laws)
              (this_device after_bind)
              (match envelope dat_pack (Some (JStr session_key)) with
               | JObj f => f
               | _ => []
               end) dat_pack) as [H _]; [vm_compute; reflexivity|].
  apply (H (match encrypt (R := node_model) dat_pack (Some (JStr session_key)) with
            | Ok p => p
            | Throw _ => ""
            end)); vm_compute; reflexivity.
Defined.



(** A command reply and a status reply under the key of the session. *)
Lemma packages_of_one_key_share_the_key_stream_witness :
  let sealed P :=
    match encrypt_v2 (R := node_model) P (Some (JStr session_key)) with
    | Ok r => r
    | Throw _ => ("", "")
    end in
  NodeModel.xor_bytes (NodeModel.base64_decode (fst (sealed res_p_pack)))
    (NodeModel.base64_decode (fst (sealed dat_pack))) =
  NodeModel.xor_bytes (utf8_encode (NodeModel.stringify res_p_pack))
    (utf8_encode (NodeModel.stringify dat_pack)).
Proof.
  cbn zeta.
  apply (Packages.packages_of_one_key_share_the_key_stream res_p_pack dat_pack session_key
           _ (snd (match encrypt_v2 (R := node_model) res_p_pack (Some (JStr session_key)) with
                   | Ok r => r
                   | Throw _ => ("", "")
                   end))
           _ (snd (match encrypt_v2 (R := node_model) dat_pack (Some (JStr session_key)) with
                   | Ok r => r
                   | Throw _ => ("", "")
                   end))).
  - vm_compute. reflexivity.
  - vm_compute. reflexivity.
  - apply Nat.leb_le. vm_compute. reflexivity.
Defined.

(** The host of the session. *)
Lemma local_port_of_a_dotted_quad_witness :
  local_port device_host = Some 8020.
Proof.
  apply (local_port_of_a_dotted_quad "192" "168" "1" 20);
    [reflexivity|reflexivity|reflexivity|vm_compute; discriminate].
Defined.

(** Host names of one, two and three pieces. *)
Lemma no_local_port_without_a_fourth_piece_witness :
  local_port "ac" = None /\ local_port "ac.home" = None /\ local_port "ac.home.lan" = None.
Proof.
  apply (no_local_port_without_a_fourth_piece "ac" "home" "lan"); reflexivity.
Defined.

(** The empty package, and one of three bytes. *)
Lemma a_package_is_a_whole_number_of_blocks_witness :
  (exists e : error,
     decrypt (R := node_model) (Some (JObj [("pack", JStr "")])) None = Throw e) /\
  (exists e : error,
     decrypt (R := node_model) (Some (JObj [("pack", JStr "QUJD")])) None = Throw e).
Proof.
  split.
  - apply (Packages.a_package_is_a_whole_number_of_blocks _ _ ""); [reflexivity|].
    right. reflexivity.
  - apply (Packages.a_package_is_a_whole_number_of_blocks _ _ "QUJD"); [reflexivity|].
    left. vm_compute. discriminate.
Defined.

(** The session after a command and a second handshake reply. *)
Lemma an_unbound_device_has_no_properties_witness :
  let r := handle (datagram_of (dev_pack "V1.1.13") (Some (JStr session_key)))
             from_device after_command in
  device.props (this_device (snd r)) = ∅ /\
  getMode commands (this_device (snd r)) = None.
Proof.
  cbn zeta.
  destruct (an_unbound_device_has_no_properties (R := node_model) commands
              (snd (handle (datagram_of (dev_pack "V1.1.13") (Some (JStr session_key)))
                      from_device after_command))) as [Hp Hg].
  - apply reachable_message. unfold after_command.
    apply reachable_setPower, reachable_after_bind.
  - vm_compute. reflexivity.
  - split; [exact Hp|]. apply (Hg "Mod").
    apply elem_of_cons. right. apply elem_of_cons. right. apply elem_of_cons. left.
    reflexivity.
Defined.


(** A handshake reply whose [ver] is the number 2. *)
Lemma a_version_that_is_no_string_is_rejected_witness :
  let r := handle (datagram_of dev_pack_number None) from_device at_start in
  this_device (snd r) = this_device at_start /\
  sent (snd r) = sent at_start /\
  called (snd r) = [onError (this_device at_start)].
Proof.
  cbn zeta.
  rewrite (a_version_that_is_no_string_is_rejected (R := node_model) at_start
             (datagram_of dev_pack_number None) from_device
             (envelope dev_pack_number None)
             (match dev_pack_number with JObj f => f | _ => [] end) (JNum 2));
    try (vm_compute; reflexivity).
  - repeat split.
  - intros str. discriminate.
Defined.


End Witness.
